(** * RadiaCode track converter: a shallow embedding of
      [radiacode_to_gmap_converter.py] and the properties of its pipeline.

    The converter reads a KML/KMZ track log, parses the description of each
    placemark with one regular expression, normalises the dose rate onto
    [0,1], maps it to an icon colour and writes a new KML document.

    Conventions of the embedding.
    - A Python [str] is a Rocq [string]: the bytes of its UTF-8 encoding.
      [Str.codepoints] gives its characters, the code points on which the
      regular expression, [float] and [int] work; the decimal digits and
      the white space are those of Unicode 14.0.0, the database of
      Python 3.11, and [int] has the interpreter's default limit of 4300
      digits.
    - A Python [float] is an IEEE-754 binary64 number, [spec_float] of the
      Standard Library with precision 53 and [emax] 1024; arithmetic is the
      library's correctly rounded [SFsub], [SFmul], [SFdiv].
    - An exception is a value of [exn]; code that can raise returns a
      [result].
    - What the libraries and the file system answer is a field of [env];
      [infer_string] tells whether [pandas] gives a column of strings the
      [str] type, in which a missing value is [nan] (pandas 3), or leaves
      it a column of objects, in which a missing value stays [None]
      (pandas 2). *)

From Stdlib Require Import ZArith NArith PArith List String Ascii Bool Lia.
From Stdlib Require Import SpecFloat DecimalN.
Import ListNotations.

Local Open Scope string_scope.
Local Open Scope Z_scope.

(** ** Exceptions and results *)

Inductive exn : Type :=
  | TypeError
  | ValueError
  | KeyError
  | AttributeError
  | IndexError
  | ZeroDivisionError
  | OverflowError
  | OSError
  | BadZipFile
  | XMLSyntaxError.

Inductive result (A : Type) : Type :=
  | Ok (a : A)
  | Raise (e : exn).

Arguments Ok {A} a.
Arguments Raise {A} e.

Definition bind {A B : Type} (r : result A) (k : A -> result B) : result B :=
  match r with
  | Ok a => k a
  | Raise e => Raise e
  end.

Notation "x <- r ;; k" := (bind r (fun x => k))
  (at level 61, r at next level, right associativity).

Definition is_ok {A : Type} (r : result A) : bool :=
  match r with Ok _ => true | Raise _ => false end.

(** [mapM f l] runs [f] on the elements of [l] from left to right and stops
    at the first exception: a Python loop or [apply] over a column. *)
Fixpoint mapM {A B : Type} (f : A -> result B) (l : list A) : result (list B) :=
  match l with
  | [] => Ok []
  | a :: l' => b <- f a ;; bs <- mapM f l' ;; Ok (b :: bs)
  end.

(** ** Binary64 floats *)

Module F.

Definition prec : Z := 53.
Definition emax : Z := 1024.

Definition float : Type := spec_float.

Definition sub : float -> float -> float := SFsub prec emax.
Definition mul : float -> float -> float := SFmul prec emax.
Definition div : float -> float -> float := SFdiv prec emax.
Definition ltb : float -> float -> bool := SFltb.
Definition leb : float -> float -> bool := SFleb.
Definition eqb : float -> float -> bool := SFeqb.
Definition valid : float -> bool := valid_binary prec emax.

(** The float nearest to an integer ([float(n)] of a Python [int]). *)
Definition of_Z (z : Z) : float := binary_normalize prec emax z 0 false.

Definition zero : float := S754_zero false.
Definition one : float := of_Z 1.

Definition is_nan (x : float) : bool :=
  match x with S754_nan => true | _ => false end.

Definition is_zero (x : float) : bool :=
  match x with S754_zero _ => true | _ => false end.

Definition is_finite (x : float) : bool :=
  match x with S754_zero _ | S754_finite _ _ _ => true | _ => false end.

(** The float nearest to [(-1)^s * m * 10^e]: what [float] and a float
    literal make of a decimal numeral. *)
Definition of_decimal (s : bool) (m : N) (e : Z) : float :=
  match m with
  | N0 => S754_zero s
  | Npos p =>
      match e with
      | Zneg k => SFdiv prec emax (S754_finite s p 0)
                    (S754_finite false (Pos.pow 10 k) 0)
      | _ => binary_round prec emax s (p * Z.to_pos (10 ^ e))%positive 0
      end
  end.

(** [int(x)]: truncation toward zero; [nan] and the infinities raise. *)
Definition trunc (x : float) : result Z :=
  match x with
  | S754_zero _ => Ok 0
  | S754_nan => Raise ValueError
  | S754_infinity _ => Raise OverflowError
  | S754_finite s m e =>
      let a := match e with
               | Zneg k => Z.shiftr (Zpos m) (Zpos k)
               | _ => Z.shiftl (Zpos m) e
               end in
      Ok (if s then - a else a)
  end.

End F.

(** ** Unicode text *)

Module Unicode.

(** The decimal digits (general category [Nd]) of Unicode 14.0.0, the
    database of Python 3.11: runs of ten code points with the values 0 to
    9, each run given by its first code point. *)
Definition digit_runs : list N :=
  [0x30; 0x660; 0x6F0; 0x7C0; 0x966; 0x9E6; 0xA66; 0xAE6;
   0xB66; 0xBE6; 0xC66; 0xCE6; 0xD66; 0xDE6; 0xE50; 0xED0;
   0xF20; 0x1040; 0x1090; 0x17E0; 0x1810; 0x1946; 0x19D0; 0x1A80;
   0x1A90; 0x1B50; 0x1BB0; 0x1C40; 0x1C50; 0xA620; 0xA8D0; 0xA900;
   0xA9D0; 0xA9F0; 0xAA50; 0xABF0; 0xFF10; 0x104A0; 0x10D30; 0x11066;
   0x110F0; 0x11136; 0x111D0; 0x112F0; 0x11450; 0x114D0; 0x11650; 0x116C0;
   0x11730; 0x118E0; 0x11950; 0x11C50; 0x11D50; 0x11DA0; 0x16A60; 0x16AC0;
   0x16B50; 0x1D7CE; 0x1D7D8; 0x1D7E2; 0x1D7EC; 0x1D7F6; 0x1E140; 0x1E2F0;
   0x1E950; 0x1FBF0]%N.

(** [unicodedata.decimal(c)]: the value of a decimal digit. *)
Definition decimal (c : N) : option N :=
  match find (fun s => (s <=? c) && (c <? s + 10))%N digit_runs with
  | Some s => Some (c - s)%N
  | None => None
  end.

(** [c.isdecimal()], the class [\d] of [re]. *)
Definition is_decimal (c : N) : bool :=
  match decimal c with Some _ => true | None => false end.

(** [c.isspace()] *)
Definition spaces : list N :=
  [0x9; 0xA; 0xB; 0xC; 0xD; 0x1C; 0x1D; 0x1E;
   0x1F; 0x20; 0x85; 0xA0; 0x1680; 0x2000; 0x2001; 0x2002;
   0x2003; 0x2004; 0x2005; 0x2006; 0x2007; 0x2008; 0x2009; 0x200A;
   0x2028; 0x2029; 0x202F; 0x205F; 0x3000]%N.

Definition is_space (c : N) : bool := existsb (N.eqb c) spaces.

(** A code point that a well-formed text can hold: below [U+110000] and
    not a surrogate. *)
Definition scalar (c : N) : bool :=
  ((c <? 0xD800) || ((0xE000 <=? c) && (c <? 0x110000)))%N.

End Unicode.

(** ** UTF-8 *)

Module Utf8.

Definition byte (b : ascii) : N := N_of_ascii b.

(** A continuation byte, [10xxxxxx]. *)
Definition cont (b : ascii) : bool := ((128 <=? byte b) && (byte b <? 192))%N.

(** The code point of a well-formed sequence of two, three or four bytes:
    shortest form, no surrogate, at most [U+10FFFF]. *)
Definition two (b1 b2 : ascii) : option N :=
  if ((0xC2 <=? byte b1) && (byte b1 <=? 0xDF))%N && cont b2
  then Some ((byte b1 - 0xC0) * 64 + (byte b2 - 128))%N
  else None.

Definition three (b1 b2 b3 : ascii) : option N :=
  let c := ((byte b1 - 0xE0) * 4096 + (byte b2 - 128) * 64 + (byte b3 - 128))%N in
  if ((0xE0 <=? byte b1) && (byte b1 <=? 0xEF))%N && cont b2 && cont b3
     && (0x800 <=? c)%N && negb ((0xD800 <=? c) && (c <=? 0xDFFF))%N
  then Some c else None.

Definition four (b1 b2 b3 b4 : ascii) : option N :=
  let c := ((byte b1 - 0xF0) * 262144 + (byte b2 - 128) * 4096
            + (byte b3 - 128) * 64 + (byte b4 - 128))%N in
  if ((0xF0 <=? byte b1) && (byte b1 <=? 0xF4))%N && cont b2 && cont b3 && cont b4
     && (0x10000 <=? c)%N && (c <=? 0x10FFFF)%N
  then Some c else None.

(** A byte on its own: an ASCII character, or a byte that is part of no
    well-formed sequence, which stands for the code point [U+DC00 + b] as
    in Python's [surrogateescape]. *)
Definition single (b : ascii) : N :=
  if (byte b <? 128)%N then byte b else (0xDC00 + byte b)%N.

(** The code points of a text. *)
Fixpoint decode (l : list ascii) : list N :=
  match l with
  | [] => []
  | b1 :: l1 =>
      match l1 with
      | b2 :: l2 =>
          match two b1 b2 with
          | Some c => c :: decode l2
          | None =>
              match l2 with
              | b3 :: l3 =>
                  match three b1 b2 b3 with
                  | Some c => c :: decode l3
                  | None =>
                      match l3 with
                      | b4 :: l4 =>
                          match four b1 b2 b3 b4 with
                          | Some c => c :: decode l4
                          | None => single b1 :: decode l1
                          end
                      | [] => single b1 :: decode l1
                      end
                  end
              | [] => single b1 :: decode l1
              end
          end
      | [] => [single b1]
      end
  end.

Definition encode_cp (c : N) : list ascii :=
  if (c <? 0x80)%N then [ascii_of_N c]
  else if (c <? 0x800)%N then
    [ascii_of_N (0xC0 + c / 64); ascii_of_N (0x80 + c mod 64)]
  else if ((0xDC80 <=? c) && (c <=? 0xDCFF))%N then [ascii_of_N (c - 0xDC00)]
  else if (c <? 0x10000)%N then
    [ascii_of_N (0xE0 + c / 4096); ascii_of_N (0x80 + (c / 64) mod 64);
     ascii_of_N (0x80 + c mod 64)]
  else
    [ascii_of_N (0xF0 + c / 262144); ascii_of_N (0x80 + (c / 4096) mod 64);
     ascii_of_N (0x80 + (c / 64) mod 64); ascii_of_N (0x80 + c mod 64)].

(** The text of a list of code points. *)
Definition encode (l : list N) : list ascii := flat_map encode_cp l.

End Utf8.

(** ** Strings *)

Module Str.

Definition chars (s : string) : list ascii := list_ascii_of_string s.
Definition of_chars (l : list ascii) : string := string_of_list_ascii l.

Definition code (c : ascii) : N := N_of_ascii c.

(** The characters of a text, as code points, and the text of a list of
    characters. *)
Definition codepoints (s : string) : list N := Utf8.decode (chars s).
Definition of_codepoints (l : list N) : string := of_chars (Utf8.encode l).

(** A text of ASCII characters only. *)
Definition is_ascii (l : list ascii) : bool :=
  forallb (fun b => (code b <? 128)%N) l.

Definition is_digit (c : ascii) : bool :=
  (48 <=? code c)%N && (code c <=? 57)%N.

Definition digit_val (c : ascii) : N := (code c - 48)%N.

(** The ASCII white space that [float] and [int] skip at both ends of a
    numeral: space, tab, line feed, vertical tab, form feed, carriage
    return. *)
Definition is_space (c : ascii) : bool :=
  ((9 <=? code c)%N && (code c <=? 13)%N) || (code c =? 32)%N.

Definition lower (c : ascii) : ascii :=
  if (65 <=? code c)%N && (code c <=? 90)%N
  then ascii_of_N (code c + 32) else c.

Definition upper (c : ascii) : ascii :=
  if (97 <=? code c)%N && (code c <=? 122)%N
  then ascii_of_N (code c - 32) else c.

(** [str.upper] of an ASCII text. *)
Definition to_upper (s : string) : string := of_chars (map upper (chars s)).

Fixpoint lstrip (l : list ascii) : list ascii :=
  match l with
  | c :: l' => if is_space c then lstrip l' else l
  | [] => []
  end.

Definition strip (l : list ascii) : list ascii :=
  rev (lstrip (rev (lstrip l))).

Fixpoint rstrip_zeros_rev (l : list ascii) : list ascii * nat :=
  match l with
  | "0"%char :: l' => let (r, k) := rstrip_zeros_rev l' in (r, S k)
  | _ => (l, O)
  end.

(** [s.split(sep)] for a one-character separator: never the empty list. *)
Fixpoint split_chars (sep : ascii) (l : list ascii) : list (list ascii) :=
  match l with
  | [] => [[]]
  | c :: l' =>
      if Ascii.eqb c sep then [] :: split_chars sep l'
      else match split_chars sep l' with
           | w :: ws => (c :: w) :: ws
           | [] => [[c]]
           end
  end.

Definition split (sep : ascii) (s : string) : list string :=
  map of_chars (split_chars sep (chars s)).

Fixpoint span (p : ascii -> bool) (l : list ascii) : list ascii * list ascii :=
  match l with
  | c :: l' => if p c then let (a, b) := span p l' in (c :: a, b) else ([], l)
  | [] => ([], [])
  end.

Definition digits_val (l : list ascii) : N :=
  fold_left (fun acc c => (10 * acc + digit_val c)%N) l 0%N.

(** Decimal numeral of a natural number. *)
Fixpoint of_uint (d : Decimal.uint) : string :=
  match d with
  | Decimal.Nil => ""
  | Decimal.D0 d' => String "0" (of_uint d')
  | Decimal.D1 d' => String "1" (of_uint d')
  | Decimal.D2 d' => String "2" (of_uint d')
  | Decimal.D3 d' => String "3" (of_uint d')
  | Decimal.D4 d' => String "4" (of_uint d')
  | Decimal.D5 d' => String "5" (of_uint d')
  | Decimal.D6 d' => String "6" (of_uint d')
  | Decimal.D7 d' => String "7" (of_uint d')
  | Decimal.D8 d' => String "8" (of_uint d')
  | Decimal.D9 d' => String "9" (of_uint d')
  end.

Definition of_N (n : N) : string := of_uint (N.to_uint n).

(** [str(z)] of a Python [int]. *)
Definition of_Z (z : Z) : string :=
  match z with
  | Zneg p => "-" ++ of_N (Npos p)
  | _ => of_N (Z.to_N z)
  end.

(** [k] copies of ["0"]. *)
Fixpoint zeros (k : nat) : string :=
  match k with O => "" | S k' => String "0" (zeros k') end.

(** Left padding with zeros up to width [w]. *)
Definition zfill (w : nat) (s : string) : string :=
  zeros (w - String.length s) ++ s.

Definition hex_digit (n : N) : ascii :=
  if (n <? 10)%N then ascii_of_N (48 + n) else ascii_of_N (87 + n).

(** Lower-case hexadecimal numeral of a positive number, most significant
    digit first. *)
Fixpoint hex_pos (fuel : nat) (n : N) (acc : list ascii) : list ascii :=
  match fuel with
  | O => acc
  | S fuel' =>
      let acc' := hex_digit (n mod 16) :: acc in
      if (n <? 16)%N then acc' else hex_pos fuel' (n / 16) acc'
  end.

Definition hex_of_N (n : N) : string :=
  of_chars (hex_pos (S (N.to_nat (N.log2 n))) n []).

(** The format [{z:02x}]: sign, lower-case hexadecimal digits, zero padding
    to a total width of two. *)
Definition format_02x (z : Z) : string :=
  match z with
  | Zneg p => "-" ++ zfill 1 (hex_of_N (Npos p))
  | _ => zfill 2 (hex_of_N (Z.to_N z))
  end.

End Str.

(** ** Python numbers and their conversions *)

Module Py.

(** *** [float(s)] *)

(** [float] and [int] read a text that is not ASCII after turning its
    white space and decimal digits into ASCII ones: a character below
    [U+007F] is kept, any other white space becomes a blank and a decimal
    digit the ASCII digit of its value; at the first character that is
    neither, the text is cut and ends in [?], which no numeral holds. An
    ASCII text is read as it is. *)
Fixpoint transform (l : list N) : list ascii :=
  match l with
  | [] => []
  | c :: l' =>
      if (c <? 127)%N then ascii_of_N c :: transform l'
      else if Unicode.is_space c then " "%char :: transform l'
      else match Unicode.decimal c with
           | Some d => ascii_of_N (48 + d) :: transform l'
           | None => ["?"%char]
           end
  end.

Definition ascii_text (s : string) : list ascii :=
  if Str.is_ascii (Str.chars s) then Str.chars s
  else transform (Str.codepoints s).

(** Underscores may only stand between two digits; they are removed before
    the numeral is read. *)
Fixpoint drop_underscores (prev : option ascii) (l : list ascii)
  : option (list ascii) :=
  match l with
  | [] => match prev with
          | Some "_"%char => None
          | _ => Some []
          end
  | c :: l' =>
      if Ascii.eqb c "_" then
        match prev with
        | Some p => if Str.is_digit p then drop_underscores (Some c) l' else None
        | None => None
        end
      else
        match prev with
        | Some "_"%char =>
            if Str.is_digit c
            then option_map (cons c) (drop_underscores (Some c) l')
            else None
        | _ => option_map (cons c) (drop_underscores (Some c) l')
        end
  end.

(** An optional sign: [true] for minus. *)
Definition take_sign (l : list ascii) : bool * list ascii :=
  match l with
  | "-"%char :: l' => (true, l')
  | "+"%char :: l' => (false, l')
  | _ => (false, l)
  end.

(** The exponent part of a numeral: [e] or [E], an optional sign and at
    least one digit, up to the end of the string. *)
Definition parse_exponent (l : list ascii) : option Z :=
  match l with
  | [] => Some 0
  | c :: l' =>
      if Ascii.eqb (Str.lower c) "e" then
        let (neg, l2) := take_sign l' in
        match l2 with
        | [] => None
        | _ :: _ =>
            if forallb Str.is_digit l2
            then let v := Z.of_N (Str.digits_val l2) in
                 Some (if neg then - v else v)
            else None
        end
      else None
  end.

(** A decimal numeral without sign: mantissa digits and power of ten. *)
Definition parse_decimal (l : list ascii) : option (N * Z) :=
  let (ip, r1) := Str.span Str.is_digit l in
  let (fp, r2) := match r1 with
                  | "."%char :: r => Str.span Str.is_digit r
                  | _ => ([], r1)
                  end in
  match (ip ++ fp)%list with
  | [] => None
  | ds => match parse_exponent r2 with
          | Some e => Some (Str.digits_val ds, e - Z.of_nat (List.length fp))
          | None => None
          end
  end.

Definition parse_inf_nan (s : bool) (l : list ascii) : option F.float :=
  let w := Str.of_chars (map Str.lower l) in
  if String.eqb w "inf" || String.eqb w "infinity" then Some (S754_infinity s)
  else if String.eqb w "nan" then Some S754_nan
  else None.

Definition float_of_str (s : string) : result F.float :=
  match drop_underscores None (Str.strip (ascii_text s)) with
  | None => Raise ValueError
  | Some l =>
      let (neg, l') := take_sign l in
      match parse_decimal l' with
      | Some (m, e) => Ok (F.of_decimal neg m e)
      | None =>
          match parse_inf_nan neg l' with
          | Some x => Ok x
          | None => Raise ValueError
          end
      end
  end.

(** *** [int(s)] in base ten *)

(** The most digits [int] reads: [sys.get_int_max_str_digits()], which is
    4300 unless the interpreter is told otherwise. *)
Definition int_max_str_digits : nat := 4300.

Definition int_of_str (s : string) : result Z :=
  match drop_underscores None (Str.strip (ascii_text s)) with
  | None => Raise ValueError
  | Some l =>
      let (neg, l') := take_sign l in
      match l' with
      | [] => Raise ValueError
      | _ :: _ =>
          if forallb Str.is_digit l'
          then if (int_max_str_digits <? List.length l')%nat
               then Raise ValueError
               else let v := Z.of_N (Str.digits_val l') in
                    Ok (if neg then - v else v)
          else Raise ValueError
      end
  end.

(** *** Fixed-point formatting, [{x:.pf}] *)

(** [num / den] rounded to the nearest integer, ties to even. *)
Definition div_rne (num den : N) : N :=
  let q := (num / den)%N in
  let r := (num mod den)%N in
  match (2 * r ?= den)%N with
  | Lt => q
  | Gt => (q + 1)%N
  | Eq => if N.even q then q else (q + 1)%N
  end.

(** [m * 2^e * 10^p] rounded to the nearest integer, ties to even. *)
Definition scaled_rne (m : positive) (e : Z) (p : nat) : N :=
  let num := (Npos m * 10 ^ N.of_nat p)%N in
  match e with
  | Zneg k => div_rne num (2 ^ Npos k)
  | _ => (num * 2 ^ Z.to_N e)%N
  end.

Definition fixed (n : N) (p : nat) : string :=
  let ten := (10 ^ N.of_nat p)%N in
  Str.of_N (n / ten) ++
  match p with
  | O => ""
  | _ => "." ++ Str.zfill p (Str.of_N (n mod ten))
  end.

Definition format_f (p : nat) (x : F.float) : string :=
  match x with
  | S754_nan => "nan"
  | S754_infinity s => if s then "-inf" else "inf"
  | S754_zero s => (if s then "-" else "") ++ fixed 0 p
  | S754_finite s m e => (if s then "-" else "") ++ fixed (scaled_rne m e p) p
  end.

(** *** [repr(x)] and [str(x)]: the shortest numeral that reads back as [x] *)

(** Comparison of [m * 2^e] with [d * 10^k]. *)
Definition cmp_scaled (m : positive) (e : Z) (d : N) (k : Z) : comparison :=
  let l := (Npos m * 2 ^ Z.to_N e * 10 ^ Z.to_N (- k))%N in
  let r := (d * 10 ^ Z.to_N k * 2 ^ Z.to_N (- e))%N in
  (l ?= r)%N.

(** The position of the decimal point: the [t] with
    [10^(t-1) <= m * 2^e < 10^t], searched upward from an estimate taken from
    the binary length. *)
Fixpoint decpt_from (fuel : nat) (m : positive) (e : Z) (t : Z) : Z :=
  match fuel with
  | O => t
  | S fuel' =>
      match cmp_scaled m e 1 t with
      | Lt => t
      | _ => decpt_from fuel' m e (t + 1)
      end
  end.

Definition decpt (m : positive) (e : Z) : Z :=
  let b := Zpos (digits2_pos m) + e in
  decpt_from 4 m e ((b * 30103) / 100000 - 1).

(** [floor (m * 2^e / 10^k)]. *)
Definition floor_scaled (m : positive) (e : Z) (k : Z) : N :=
  ((Npos m * 2 ^ Z.to_N e * 10 ^ Z.to_N (- k))
   / (10 ^ Z.to_N k * 2 ^ Z.to_N (- e)))%N.

Definition reads_back (m : positive) (e : Z) (d : N) (k : Z) : bool :=
  F.eqb (F.of_decimal false d k) (S754_finite false m e).

(** The candidate with [n] significant digits, if one reads back as
    [m * 2^e]: the nearer of the two neighbours [d * 10^k] and
    [(d+1) * 10^k]. *)
Definition candidate (m : positive) (e : Z) (t : Z) (n : Z) : option (N * Z) :=
  let k := t - n in
  let d := floor_scaled m e k in
  let lo := reads_back m e d k in
  let hi := reads_back m e (d + 1) k in
  match lo, hi with
  | false, false => None
  | true, false => Some (d, k)
  | false, true => Some ((d + 1)%N, k)
  | true, true =>
      match cmp_scaled m (e + 1) (2 * d + 1) k with
      | Gt => Some ((d + 1)%N, k)
      | _ => Some (d, k)
      end
  end.

Fixpoint shortest_from (fuel : nat) (m : positive) (e : Z) (t : Z) (n : Z)
  : N * Z :=
  match fuel with
  | O => (floor_scaled m e (t - n), t - n)
  | S fuel' =>
      match candidate m e t n with
      | Some c => c
      | None => shortest_from fuel' m e t (n + 1)
      end
  end.

(** Digits without trailing zeros and the decimal point position of the
    shortest numeral. *)
Definition shortest_digits (m : positive) (e : Z) : string * Z :=
  let t := decpt m e in
  let (d, k) := shortest_from 17 m e t 1 in
  let ds := Str.chars (Str.of_N d) in
  let (r, _) := Str.rstrip_zeros_rev (rev ds) in
  (Str.of_chars (rev r), Z.of_nat (List.length ds) + k).

Definition insert_point (ds : string) (pt : Z) : string :=
  let n := Z.of_nat (String.length ds) in
  if pt <=? 0 then "0." ++ Str.zeros (Z.to_nat (- pt)) ++ ds
  else if n <=? pt then ds ++ Str.zeros (Z.to_nat (pt - n)) ++ ".0"
  else substring 0 (Z.to_nat pt) ds ++ "." ++
       substring (Z.to_nat pt) (Z.to_nat (n - pt)) ds.

Definition exponent_form (ds : string) (pt : Z) : string :=
  let x := pt - 1 in
  let mant := match ds with
              | String c EmptyString => ds
              | String c rest => String c ("." ++ rest)
              | EmptyString => ds
              end in
  mant ++ "e" ++ (if x <? 0 then "-" else "+") ++ Str.zfill 2 (Str.of_Z (Z.abs x)).

Definition repr_float (x : F.float) : string :=
  match x with
  | S754_nan => "nan"
  | S754_infinity s => if s then "-inf" else "inf"
  | S754_zero s => if s then "-0.0" else "0.0"
  | S754_finite s m e =>
      let (ds, pt) := shortest_digits m e in
      (if s then "-" else "") ++
      (if (pt <=? -4) || (16 <? pt) then exponent_form ds pt
       else insert_point ds pt)
  end.

End Py.

(** ** Regular expressions: the fragment of [re] the converter uses *)

Module Re.

(** One-character matchers; a character is a code point. *)
Inductive atom : Type :=
  | AChar (c : N)                 (* a literal character *)
  | ADot                          (* [.]: any character but the newline *)
  | AClass (p : N -> bool).       (* a character class *)

(** Patterns: quantifiers range over atoms, as in
    [.*?], [[\d.]+] and [\d+]. *)
Inductive re : Type :=
  | Eps
  | Atom (a : atom)
  | LazyStar (a : atom)           (* [a*?] *)
  | Plus (a : atom)               (* [a+], greedy *)
  | Group (r : re)                (* [(r)], capturing *)
  | Seq (r1 r2 : re).

Definition newline : N := 10%N.

Definition atom_match (a : atom) (c : N) : bool :=
  match a with
  | AChar c' => (c =? c')%N
  | ADot => negb (c =? newline)%N
  | AClass p => p c
  end.

(** The classes [\d], a decimal digit of Unicode, and [[\d.]]. *)
Definition class_d (c : N) : bool := Unicode.is_decimal c.
Definition class_d_dot (c : N) : bool := class_d c || (c =? 46)%N.

(** The literal pattern of a text. *)
Fixpoint lit (l : list N) : re :=
  match l with
  | [] => Eps
  | c :: l' => Seq (Atom (AChar c)) (lit l')
  end.

Section Matcher.

(** The matcher is a backtracking one in continuation-passing style:
    [k] receives the rest of the subject and the groups captured so far,
    and [None] from [k] makes the matcher try its next alternative. *)
Context {R : Type}.
Definition cont : Type := list N -> list string -> option R.

(** [a*?]: the shortest repetition first. *)
Fixpoint lazy_star (a : atom) (k : cont) (s : list N) (caps : list string)
  : option R :=
  match k s caps with
  | Some r => Some r
  | None =>
      match s with
      | c :: s' => if atom_match a c then lazy_star a k s' caps else None
      | [] => None
      end
  end.

(** [a*]: the longest repetition first. *)
Fixpoint greedy_star (a : atom) (k : cont) (s : list N) (caps : list string)
  : option R :=
  match s with
  | c :: s' =>
      if atom_match a c then
        match greedy_star a k s' caps with
        | Some r => Some r
        | None => k s caps
        end
      else k s caps
  | [] => k s caps
  end.

(** The part of [s] consumed when [s'] is what is left of it. *)
Definition consumed (s s' : list N) : string :=
  Str.of_codepoints (firstn (List.length s - List.length s') s).

Fixpoint run (r : re) (k : cont) (s : list N) (caps : list string)
  : option R :=
  match r with
  | Eps => k s caps
  | Atom a =>
      match s with
      | c :: s' => if atom_match a c then k s' caps else None
      | [] => None
      end
  | LazyStar a => lazy_star a k s caps
  | Plus a =>
      match s with
      | c :: s' => if atom_match a c then greedy_star a k s' caps else None
      | [] => None
      end
  | Group r1 =>
      run r1 (fun s' caps' => k s' (caps' ++ [consumed s s'])%list) s caps
  | Seq r1 r2 => run r1 (run r2 k) s caps
  end.

End Matcher.

(** [re.search]: the leftmost match; the result is the list of the groups,
    [m.group(1)], [m.group(2)], ... *)
Fixpoint search_chars (r : re) (s : list N) : option (list string) :=
  match run r (fun _ caps => Some caps) s [] with
  | Some caps => Some caps
  | None =>
      match s with
      | _ :: s' => search_chars r s'
      | [] => None
      end
  end.

Definition search (r : re) (s : string) : option (list string) :=
  search_chars r (Str.codepoints s).

(** [m.group(i)] for [i >= 1]. *)
Definition group (m : list string) (i : nat) : string := nth (i - 1) m "".

(** *** What a pattern denotes

    [denotes r w caps caps']: the pattern matches exactly the word [w] and
    extends the captured groups from [caps] to [caps']. *)
Inductive star (a : atom) : list N -> Prop :=
  | star_nil : star a []
  | star_cons c w : atom_match a c = true -> star a w -> star a (c :: w).

Inductive denotes : re -> list N -> list string -> list string -> Prop :=
  | d_eps caps : denotes Eps [] caps caps
  | d_atom a c caps : atom_match a c = true -> denotes (Atom a) [c] caps caps
  | d_lazy a w caps : star a w -> denotes (LazyStar a) w caps caps
  | d_plus a c w caps :
      atom_match a c = true -> star a w -> denotes (Plus a) (c :: w) caps caps
  | d_group r w caps caps' :
      denotes r w caps caps' ->
      denotes (Group r) w caps (caps' ++ [Str.of_codepoints w])
  | d_seq r1 r2 w1 w2 caps caps' caps'' :
      denotes r1 w1 caps caps' -> denotes r2 w2 caps' caps'' ->
      denotes (Seq r1 r2) (w1 ++ w2) caps caps''.


End Re.

(** ** XML element trees, as [lxml] presents them *)

Module Xml.

(** A qualified tag name; [ns] is empty for an element without namespace. *)
Record qname : Type := { ns : string; local : string }.

Definition qname_eqb (a b : qname) : bool :=
  String.eqb (ns a) (ns b) && String.eqb (local a) (local b).

#[local] Unset Elimination Schemes.
Inductive element : Type :=
  | Elem (tag : qname) (attrib : list (string * string))
         (text : option string) (children : list element).
#[local] Set Elimination Schemes.

Definition tag_of (e : element) : qname :=
  match e with Elem t _ _ _ => t end.
Definition attrib_of (e : element) : list (string * string) :=
  match e with Elem _ a _ _ => a end.
Definition text_of (e : element) : option string :=
  match e with Elem _ _ t _ => t end.
Definition children_of (e : element) : list element :=
  match e with Elem _ _ _ c => c end.

(** [e.get(key)] *)
Definition get (e : element) (key : string) : option string :=
  option_map snd (find (fun kv => String.eqb (fst kv) key) (attrib_of e)).

(** [e.set(key, v)] *)
Fixpoint set_attr (a : list (string * string)) (key v : string)
  : list (string * string) :=
  match a with
  | [] => [(key, v)]
  | (k, w) :: a' =>
      if String.eqb k key then (k, v) :: a' else (k, w) :: set_attr a' key v
  end.

Definition set (e : element) (key v : string) : element :=
  match e with Elem t a x c => Elem t (set_attr a key v) x c end.

(** [e.name] of [lxml.objectify]: the first child called [name] in the
    namespace of [e]. *)
Definition find_child (e : element) (name : string) : option element :=
  find (fun c => qname_eqb (tag_of c) {| ns := ns (tag_of e); local := name |})
       (children_of e).

Definition child (e : element) (name : string) : result element :=
  match find_child e name with
  | Some c => Ok c
  | None => Raise AttributeError
  end.

(** The elements below [e], in document order. *)
Fixpoint descendants (e : element) : list element :=
  match e with
  | Elem _ _ _ cs => flat_map (fun c => c :: descendants c) cs
  end.

(** [e.findall(".//name")]: a name without namespace only matches elements
    without namespace. *)
Definition findall_descendants (e : element) (name : string) : list element :=
  filter (fun c => qname_eqb (tag_of c) {| ns := ""; local := name |})
         (descendants e).

(** [e.append(c)] *)
Definition append (e : element) (c : element) : element :=
  match e with Elem t a x cs => Elem t a x (cs ++ [c]) end.

End Xml.

(** ** Cells and columns of a [pandas] data frame *)

Inductive value : Type :=
  | VNone
  | VStr (s : string)
  | VInt (z : Z)
  | VFloat (x : F.float).

Module Pandas.

Definition is_str (v : value) : bool :=
  match v with VStr _ => true | _ => false end.
Definition is_float (v : value) : bool :=
  match v with VFloat _ => true | _ => false end.
Definition is_int (v : value) : bool :=
  match v with VInt _ => true | _ => false end.
Definition is_none (v : value) : bool :=
  match v with VNone => true | _ => false end.

Definition to_float64 (v : value) : value :=
  match v with
  | VInt z => VFloat (F.of_Z z)
  | VNone => VFloat S754_nan
  | _ => v
  end.

Definition is_missing (v : value) : bool :=
  match v with
  | VNone => true
  | VFloat x => F.is_nan x
  | _ => false
  end.

(** The type a column of Python objects takes when a frame or the result of
    [apply] is built from it. A column with a string in it is a column of
    objects and stays as it is, unless [pandas] infers strings
    ([infer_string], the default from pandas 3 on) and the column holds
    nothing but strings and missing values: it then gets the type [str],
    in which [None] is [nan]. Numbers, with or without [None], become
    [float64], where [None] is [nan]; integers alone stay integers; [None]
    alone stays [None]. *)
Definition infer_column (infer_string : bool) (col : list value) : list value :=
  if existsb is_str col then
    if infer_string && forallb (fun v => is_str v || is_missing v) col
    then map to_float64 col
    else col
  else if existsb is_float col then map to_float64 col
  else if existsb is_int col && existsb is_none col then map to_float64 col
  else col.

End Pandas.

(** ** The converter *)

(** The pattern of [parse_description]:
    [<b>(.*?)</b></br>([\d.]+) µSv/h</br>([\d.]+) cps</br>Accuracy: ±(\d+) m</br>] *)
Definition pattern : Re.re :=
  let l s := Re.lit (Str.codepoints s) in
  Re.Seq (l "<b>") (Re.Seq (Re.Group (Re.LazyStar Re.ADot))
  (Re.Seq (l "</b></br>") (Re.Seq (Re.Group (Re.Plus (Re.AClass Re.class_d_dot)))
  (Re.Seq (l " µSv/h</br>") (Re.Seq (Re.Group (Re.Plus (Re.AClass Re.class_d_dot)))
  (Re.Seq (l " cps</br>Accuracy: ±") (Re.Seq (Re.Group (Re.Plus (Re.AClass Re.class_d)))
  (l " m</br>")))))))).

(** The series [parse_description] returns. *)
Record fields : Type := {
  f_datetime : value;
  f_usvh : value;
  f_cps : value;
  f_accuracy : value
}.

Definition no_fields : fields :=
  {| f_datetime := VNone; f_usvh := VNone; f_cps := VNone; f_accuracy := VNone |}.

Definition parse_description (desc : value) : result fields :=
  match desc with
  | VStr d =>
      match Re.search pattern d with
      | Some m =>
          u <- Py.float_of_str (Re.group m 2) ;;
          c <- Py.float_of_str (Re.group m 3) ;;
          Ok {| f_datetime := VStr (Re.group m 1);
                f_usvh := VFloat u;
                f_cps := VFloat c;
                f_accuracy := VStr (Re.group m 4) |}
      | None => Ok no_fields
      end
  | _ => Raise TypeError
  end.

(** *** Arithmetic of the normalisation lambda *)

(** [x - y] for a float [y]. *)
Definition sub_float (x : value) (y : F.float) : result F.float :=
  match x with
  | VFloat a => Ok (F.sub a y)
  | VInt z => Ok (F.sub (F.of_Z z) y)
  | _ => Raise TypeError
  end.

(** [x / y] on floats. *)
Definition truediv (x y : F.float) : result F.float :=
  if F.is_zero y then Raise ZeroDivisionError else Ok (F.div x y).

Definition as_float (v : value) : F.float :=
  match v with
  | VFloat x => x
  | VInt z => F.of_Z z
  | _ => S754_nan
  end.

(** [a < b] on numbers. *)
Definition num_lt (a b : value) : bool := F.ltb (as_float a) (as_float b).

(** [max(a, b)] and [min(a, b)]: the first argument unless the second is
    strictly beyond it, so a [nan] in first place stays. *)
Definition py_max (a b : value) : value := if num_lt a b then b else a.
Definition py_min (a b : value) : value := if num_lt b a then b else a.

(** [lambda x: min(max((x - min_val) / (max_val - min_val), 0), 1)] *)
Definition normalize (min_val max_val : F.float) (x : value) : result value :=
  n <- sub_float x min_val ;;
  q <- truediv n (F.sub max_val min_val) ;;
  Ok (py_min (py_max (VFloat q) (VInt 0)) (VInt 1)).

(** A row of the data frame. *)
Record row : Type := {
  r_id : value;
  r_style_url : value;
  r_coordinates : value;
  r_description : value;
  r_datetime : value;
  r_usvh : value;
  r_cps : value;
  r_accuracy : value;
  r_usvh_normalized : value;
  r_color : value
}.

(** The dictionary built for a placemark. *)
Record placemark_dict : Type := {
  p_id : value;
  p_style_url : value;
  p_coordinates : value;
  p_description : value
}.

Definition of_text (t : option string) : value :=
  match t with Some s => VStr s | None => VNone end.

Definition kml_ns : string := "http://www.opengis.net/kml/2.2".
Definition xsi_nil : string := "{http://www.w3.org/2001/XMLSchema-instance}nil".

(** [KML.tag(...)] of [pykml.factory]. *)
Definition KML (name : string) (attrib : list (string * string))
    (text : option string) (children : list Xml.element) : Xml.element :=
  Xml.Elem {| Xml.ns := kml_ns; Xml.local := name |} attrib text children.

(** [KML.tag(v)] with one cell as its only child: a string becomes the
    text, numbers are written out, [None] marks the element as nil. *)
Definition KML_of_value (name : string) (v : value) : Xml.element :=
  match v with
  | VNone => KML name [(xsi_nil, "true")] None []
  | VStr s => KML name [] (Some s) []
  | VInt z => KML name [] (Some (Str.of_Z z)) []
  | VFloat x => KML name [] (Some (Py.repr_float x)) []
  end.

(** [str(v)] *)
Definition py_str (v : value) : string :=
  match v with
  | VNone => "None"
  | VStr s => s
  | VInt z => Str.of_Z z
  | VFloat x => Py.repr_float x
  end.

(** [f"{v:.pf}"] *)
Definition format_fixed (p : nat) (v : value) : result string :=
  match v with
  | VFloat x => Ok (Py.format_f p x)
  | VInt z => Ok (Py.format_f p (F.of_Z z))
  | _ => Raise TypeError
  end.

(** [int(v)] *)
Definition py_int (v : value) : result Z :=
  match v with
  | VNone => Raise TypeError
  | VStr s => Py.int_of_str s
  | VInt z => Ok z
  | VFloat x => F.trunc x
  end.

Definition icon_href : string :=
  "https://maps.google.com/mapfiles/kml/pal2/icon18.png".

(** The coordinate text of an output placemark. *)
Definition coordinates_text (c : value) : result string :=
  match c with
  | VStr s =>
      let coords := Str.split "," s in
      match coords with
      | c0 :: rest =>
          longitude <- Py.float_of_str c0 ;;
          match rest with
          | c1 :: _ =>
              latitude <- Py.float_of_str c1 ;;
              Ok (Py.repr_float longitude ++ "," ++ Py.repr_float latitude ++ ",0")
          | [] => Raise IndexError
          end
      | [] => Raise IndexError
      end
  | _ => Raise AttributeError
  end.

Definition data_entry (name : string) (v : Xml.element) : Xml.element :=
  KML "Data" [("name", name)] None [v].

(** The body of the loop of [create_kml_from_dataframe]. *)
Definition placemark_of_row (r : row) : result Xml.element :=
  let style :=
    KML "Style" [] None
      [KML "IconStyle" [] None
         [KML_of_value "color" (r_color r);
          KML "scale" [] (Some "0.8") [];
          KML "Icon" [] None [KML "href" [] (Some icon_href) []]]] in
  let time := KML_of_value "value" (r_datetime r) in
  usvh <- format_fixed 2 (r_usvh r) ;;
  cps <- format_fixed 1 (r_cps r) ;;
  acc <- py_int (r_accuracy r) ;;
  let extended_data :=
    KML "ExtendedData" [] None
      [data_entry "Time" time;
       data_entry "µSv/h" (KML "value" [] (Some usvh) []);
       data_entry "cps" (KML "value" [] (Some cps) []);
       data_entry "Accuracy (m)" (KML "value" [] (Some (Str.of_Z acc)) [])] in
  coords <- coordinates_text (r_coordinates r) ;;
  let placemark :=
    KML "Placemark" [] None
      [style; extended_data;
       KML "Point" [] None [KML "coordinates" [] (Some coords) []]] in
  Ok (Xml.set placemark "id" (py_str (r_id r))).

(** Command-line arguments after [argparse]. *)
Record args : Type := {
  input_file : string;
  arg_min : F.float;
  arg_max : F.float;
  arg_cmap : string;
  arg_alpha : F.float;
  arg_output : option string
}.

(** What a run does to the outside world, in order. *)
Inductive message : Type :=
  | NotExist (path : string)
  | BadExtension
  | ProcessingError (e : exn).

Inductive event : Type :=
  | Opened (path : string)
  | Printed (m : message)
  | Wrote (path : string) (doc : Xml.element).

Definition is_write (ev : event) : bool :=
  match ev with Wrote _ _ => true | _ => false end.

Definition colour : Type := F.float * F.float * F.float * F.float.

(** *** The libraries and the file system the converter calls *)

Record env : Type := {
  (** [plt.get_cmap(name)]: [None] for an unknown name, which raises
      [ValueError]; a colour map takes a number to red, green, blue, alpha. *)
  get_cmap : string -> option (value -> colour);
  (** Whether [pandas] infers the type [str] for a column of strings. *)
  infer_string : bool;
  (** [str.lower] of a text that is not ASCII, which the Unicode database
      of the interpreter decides. *)
  unicode_lower : string -> string;
  (** [pathlib]: [Path.exists], [suffix], [stem], [with_suffix],
      [with_stem]. *)
  path_exists : string -> bool;
  path_suffix : string -> string;
  path_stem : string -> string;
  with_suffix : string -> string -> result string;
  with_stem : string -> string -> result string;
  (** [open(path, 'rb').read()], whether [open(path, 'wb')] succeeds, the
      entries of [zipfile.ZipFile(path)] in the order of [namelist], each
      with its content, and the root of [pykml.parser.parse]. *)
  read_bytes : string -> result string;
  writable : string -> bool;
  zip_entries : string -> result (list (string * string));
  xml_parse : string -> result Xml.element;
  (** The truth value of an [objectify] element, and
      [datetime.now().strftime("%Y-%m-%d %H-%M-%S")]. *)
  truthy : Xml.element -> bool;
  now : string
}.

(** [Path(path).suffix.lower()] *)
Definition lower_suffix (E : env) (path : string) : string :=
  let sfx := path_suffix E path in
  if Str.is_ascii (Str.chars sfx)
  then Str.of_chars (map Str.lower (Str.chars sfx))
  else unicode_lower E sfx.

Section Converter.

Variable E : env.

Definition ends_with (suffix s : string) : bool :=
  let n := String.length suffix in
  let m := String.length s in
  (n <=? m)%nat && String.eqb (substring (m - n) n s) suffix.

(** [kmz.open(name)]: the archive member called [name], the last one when
    several entries have that name. *)
Definition zip_member (entries : list (string * string)) (name : string)
  : result string :=
  match find (fun e => String.eqb (fst e) name) (rev entries) with
  | Some (_, content) => Ok content
  | None => Raise KeyError
  end.

Definition get_color (v : value) (cmap_name : string) (alpha : F.float)
  : result string :=
  match get_cmap E cmap_name with
  | None => Raise ValueError
  | Some cmap =>
      let '(r, g, b, _) := cmap v in
      ia <- F.trunc (F.mul alpha (F.of_Z 255)) ;;
      ib <- F.trunc (F.mul b (F.of_Z 255)) ;;
      ig <- F.trunc (F.mul g (F.of_Z 255)) ;;
      ir <- F.trunc (F.mul r (F.of_Z 255)) ;;
      Ok (Str.to_upper (Str.format_02x ia ++ Str.format_02x ib ++
                        Str.format_02x ig ++ Str.format_02x ir))
  end.

Definition read_kml_content (file_path : string) : result Xml.element :=
  if String.eqb (lower_suffix E file_path) ".kmz"
  then
    entries <- zip_entries E file_path ;;
    match find (ends_with ".kml") (map fst entries) with
    | None => Raise ValueError
    | Some kml_filename =>
        kml_content <- zip_member entries kml_filename ;;
        xml_parse E kml_content
    end
  else
    content <- read_bytes E file_path ;;
    xml_parse E content.

Definition extract_placemark (placemark : Xml.element) : result placemark_dict :=
  style_url <- Xml.child placemark "styleUrl" ;;
  point <- Xml.child placemark "Point" ;;
  coordinates <- Xml.child point "coordinates" ;;
  description <- Xml.child placemark "description" ;;
  Ok {| p_id := of_text (Xml.get placemark "id");
        p_style_url := of_text (Xml.text_of style_url);
        p_coordinates := of_text (Xml.text_of coordinates);
        p_description := of_text (Xml.text_of description) |}.

(** A column of the frame built from the records, [pd.DataFrame(placemarks)]. *)
Definition record_column (f : placemark_dict -> value)
    (placemarks : list placemark_dict) : list value :=
  Pandas.infer_column (infer_string E) (map f placemarks).

(** [df['description']]: a frame built from no record has no column. *)
Definition description_column (placemarks : list placemark_dict)
  : result (list value) :=
  match placemarks with
  | [] => Raise KeyError
  | _ :: _ => Ok (record_column p_description placemarks)
  end.

(** The frame after the three column assignments, row by row. *)
Fixpoint zip_rows (ids su cs ds dt us cp ac nm co : list value) : list row :=
  match ids, su, cs, ds, dt, us, cp, ac, nm, co with
  | i :: ids', s :: su', x :: cs', y :: ds',
    d :: dt', u :: us', c :: cp', a :: ac', n :: nm', k :: co' =>
      {| r_id := i; r_style_url := s; r_coordinates := x; r_description := y;
         r_datetime := d; r_usvh := u; r_cps := c; r_accuracy := a;
         r_usvh_normalized := n; r_color := k |}
      :: zip_rows ids' su' cs' ds' dt' us' cp' ac' nm' co'
  | _, _, _, _, _, _, _, _, _, _ => []
  end.

Definition process_kml (file_path : string) (min_val max_val : F.float)
    (cmap_name : string) (alpha : F.float)
  : result (list row * Xml.element * Xml.element) :=
  root <- read_kml_content file_path ;;
  document <- Xml.child root "Document" ;;
  name <- Xml.child document "name" ;;
  document <- Xml.child root "Document" ;;
  description <- Xml.child document "description" ;;
  document <- Xml.child root "Document" ;;
  placemarks <- mapM extract_placemark (Xml.findall_descendants document "Placemark") ;;
  descriptions <- description_column placemarks ;;
  parsed <- mapM parse_description descriptions ;;
  let infer := Pandas.infer_column (infer_string E) in
  let dt := infer (map f_datetime parsed) in
  let us := infer (map f_usvh parsed) in
  let cp := infer (map f_cps parsed) in
  let ac := infer (map f_accuracy parsed) in
  normalized <- mapM (normalize min_val max_val) us ;;
  let nm := infer normalized in
  colors <- mapM (fun x => get_color x cmap_name alpha) nm ;;
  let co := infer (map VStr colors) in
  Ok (zip_rows (record_column p_id placemarks)
        (record_column p_style_url placemarks)
        (record_column p_coordinates placemarks)
        (record_column p_description placemarks)
        dt us cp ac nm co, name, description).

(** [KML.name(x)] and [KML.description(x)] for a document title that is an
    element of the input, or the default text when it is missing or
    false. *)
Definition header (tag : string) (x : option Xml.element) (default : string)
  : Xml.element :=
  match x with
  | Some e => if truthy E e then KML tag [] None [e] else KML tag [] (Some default) []
  | None => KML tag [] (Some default) []
  end.

Definition create_kml_from_dataframe (df : list row)
    (name description : option Xml.element) : result Xml.element :=
  let n := Str.of_Z (Z.of_nat (List.length df)) in
  let doc_name := header "name" name (now E) in
  let doc_description :=
    header "description" description ("Points: " ++ n ++ "/" ++ n) in
  placemarks <- mapM placemark_of_row df ;;
  Ok (KML "kml" [] None
        [fold_left Xml.append placemarks
           (KML "Document" [] None [doc_name; doc_description])]).

(** The body of the [try] block of [main], up to the opening of the
    output file. *)
Definition convert (a : args) : result (string * Xml.element) :=
  let input_path := input_file a in
  processed <- process_kml input_path (arg_min a) (arg_max a)
                 (arg_cmap a) (arg_alpha a) ;;
  let '(df, name, description) := processed in
  output_path <-
    match arg_output a with
    | Some (String c o) =>
        let out := String c o in
        if String.eqb (path_suffix E out) "" then with_suffix E out ".kml"
        else Ok out
    | _ =>
        p <- with_stem E input_path (path_stem E input_path ++ "_processed") ;;
        with_suffix E p ".kml"
    end ;;
  kml <- create_kml_from_dataframe df (Some name) (Some description) ;;
  Ok (output_path, kml).

Definition main (a : args) : list event :=
  let input_path := input_file a in
  if negb (path_exists E input_path) then [Printed (NotExist input_path)]
  else
    let sfx := lower_suffix E input_path in
    if negb (String.eqb sfx ".kml" || String.eqb sfx ".kmz")
    then [Printed BadExtension]
    else
      Opened input_path ::
      match convert a with
      | Ok (output_path, kml) =>
          if writable E output_path then [Wrote output_path kml]
          else [Printed (ProcessingError OSError)]
      | Raise e => [Printed (ProcessingError e)]
      end.

End Converter.

(** The run reaches the pipeline: the input exists and is called [.kml] or
    [.kmz]. *)
Definition accepted (E : env) (a : args) : bool :=
  let sfx := lower_suffix E (input_file a) in
  path_exists E (input_file a) && (String.eqb sfx ".kml" || String.eqb sfx ".kmz").

(** ** Reading an output document *)

Module Kml.

Definition is_placemark (e : Xml.element) : bool :=
  Xml.qname_eqb (Xml.tag_of e) {| Xml.ns := kml_ns; Xml.local := "Placemark" |}.

(** The placemarks of a KML document: the [Placemark] children of its
    [Document]. *)
Definition placemarks (doc : Xml.element) : list Xml.element :=
  match Xml.find_child doc "Document" with
  | Some d => filter is_placemark (Xml.children_of d)
  | None => []
  end.

Definition id (pm : Xml.element) : option string := Xml.get pm "id".

Definition text_at (e : Xml.element) (path : list string) : option string :=
  match fold_left (fun o name => match o with
                                 | Some x => Xml.find_child x name
                                 | None => None
                                 end) path (Some e) with
  | Some x => Xml.text_of x
  | None => None
  end.

(** The text of [Point/coordinates]. *)
Definition point_coordinates (pm : Xml.element) : option string :=
  text_at pm ["Point"; "coordinates"].

(** The text of [Style/IconStyle/color]. *)
Definition icon_color (pm : Xml.element) : option string :=
  text_at pm ["Style"; "IconStyle"; "color"].

(** The entries of [ExtendedData], in order: the [name] attribute and the
    text of the [value] of each child. *)
Definition extended_data (pm : Xml.element)
  : list (Xml.qname * option string * option string) :=
  match Xml.find_child pm "ExtendedData" with
  | Some x =>
      map (fun d => (Xml.tag_of d, Xml.get d "name", text_at d ["value"]))
          (Xml.children_of x)
  | None => []
  end.

Definition data_tag : Xml.qname := {| Xml.ns := kml_ns; Xml.local := "Data" |}.

End Kml.



(** The document a run wrote, if it wrote one. *)
Fixpoint written (trace : list event) : option Xml.element :=
  match trace with
  | [] => None
  | Wrote _ doc :: _ => Some doc
  | _ :: t => written t
  end.

(** ** Sample inputs *)

Module Sample.

(** A colour map with two colours, blue below one half and red from there. *)
Definition two_tone (v : value) : colour :=
  if F.ltb (as_float v) (F.of_decimal false 5 (-1))
  then (F.zero, F.zero, F.one, F.one)
  else (F.one, F.zero, F.zero, F.one).

(** An element without namespace. *)
Definition el (name : string) (attrib : list (string * string))
    (text : option string) (children : list Xml.element) : Xml.element :=
  Xml.Elem {| Xml.ns := ""; Xml.local := name |} attrib text children.

Definition placemark (attrib : list (string * string))
    (coordinates description : string) : Xml.element :=
  el "Placemark" attrib None
    [el "styleUrl" [] (Some "#s") [];
     el "description" [] (Some description) [];
     el "Point" [] None [el "coordinates" [] (Some coordinates) []]].

Definition document (placemarks : list Xml.element) : Xml.element :=
  el "kml" [] None
    [el "Document" [] None
       (el "name" [] (Some "Track") [] ::
        el "description" [] (Some "Points: 2/2") [] :: placemarks)].

Definition reading : string :=
  "<b>2024-01-01 12:00:00</b></br>0.15 µSv/h</br>25.3 cps</br>Accuracy: ±5 m</br>".

(** A track with one reading. *)
Definition track_one : Xml.element :=
  document [placemark [("id", "7")] "12.5,45.6,100" reading].






(** A track whose placemark has no [styleUrl]. *)
Definition track_no_style : Xml.element :=
  document
    [el "Placemark" [("id", "1")] None
       [el "description" [] (Some reading) [];
        el "Point" [] None [el "coordinates" [] (Some "12.5,45.6,100") []]]].

(** A world in which every path exists and holds the document [doc]. *)
Definition world (doc : Xml.element) : env :=
  {| get_cmap := fun name =>
       if String.eqb name "two_tone" then Some two_tone else None;
     infer_string := false;
     unicode_lower := fun s => s;
     path_exists := fun _ => true;
     path_suffix := fun _ => ".kml";
     path_stem := fun p => p;
     with_suffix := fun p sfx => Ok (p ++ sfx)%string;
     with_stem := fun _ stem => Ok stem;
     read_bytes := fun _ => Ok ""%string;
     writable := fun _ => true;
     zip_entries := fun _ => Raise BadZipFile;
     xml_parse := fun _ => Ok doc;
     truthy := fun _ => true;
     now := "2024-01-01 12-00-00" |}.


(** The command line [track --cmap two_tone] with the default bounds and
    opacity. *)
Definition defaults : args :=
  {| input_file := "track";
     arg_min := F.of_decimal false 5 (-2);
     arg_max := F.of_decimal false 5 (-1);
     arg_cmap := "two_tone";
     arg_alpha := F.of_decimal false 8 (-1);
     arg_output := None |}.


End Sample.

(** ** Reading normalized values and colour strings *)

(** A value as a number of the unit interval, and [==] on numbers. *)
Definition in_unit (r : value) : bool :=
  F.leb (as_float (VInt 0)) (as_float r) && F.leb (as_float r) (as_float (VInt 1)).

Definition num_eq (a b : value) : bool := F.eqb (as_float a) (as_float b).

(** The clamp of the normalization: [min(max(q, 0), 1)]. *)
Definition clamp (q : F.float) : value :=
  py_min (py_max (VFloat q) (VInt 0)) (VInt 1).

Module Colour.

(** A float of the unit interval. *)
Definition unit_float (x : F.float) : bool :=
  F.valid x && F.leb F.zero x && F.leb x F.one.

Definition hex_upper (d : Z) : ascii :=
  nth (Z.to_nat d)
    ["0"; "1"; "2"; "3"; "4"; "5"; "6"; "7"; "8"; "9";
     "A"; "B"; "C"; "D"; "E"; "F"]%char "0"%char.

(** A byte as two upper-case hexadecimal digits. *)
Definition byte (z : Z) : string :=
  String (hex_upper (z / 16)) (String (hex_upper (z mod 16)) EmptyString).

Definition is_upper_hex (c : ascii) : bool :=
  Str.is_digit c || ((65 <=? Str.code c)%N && (Str.code c <=? 70)%N).

End Colour.

(** ** Further readings of the input and sample runs *)

(** A placemark without [Point], or whose [Point] has no [coordinates]. *)
Definition no_coordinates (p : Xml.element) : Prop :=
  Xml.find_child p "Point" = None \/
  exists pt, Xml.find_child p "Point" = Some pt /\
             Xml.find_child pt "coordinates" = None.

Module Cases.

(** A command line that names a colour map [Sample.world] does not know. *)
Definition unknown_map : args :=
  {| input_file := "track";
     arg_min := F.of_decimal false 5 (-2);
     arg_max := F.of_decimal false 5 (-1);
     arg_cmap := "rainbow";
     arg_alpha := F.of_decimal false 8 (-1);
     arg_output := None |}.

(** A world whose input is an archive with the given entries. *)
Definition archive (entries : list (string * string)) (doc : Xml.element) : env :=
  {| get_cmap := fun name =>
       if String.eqb name "two_tone" then Some Sample.two_tone else None;
     infer_string := false;
     unicode_lower := fun s => s;
     path_exists := fun _ => true;
     path_suffix := fun _ => ".KMZ";
     path_stem := fun p => p;
     with_suffix := fun p sfx => Ok (p ++ sfx)%string;
     with_stem := fun _ stem => Ok stem;
     read_bytes := fun _ => Raise OSError;
     writable := fun _ => true;
     zip_entries := fun _ => Ok entries;
     xml_parse := fun _ => Ok doc;
     truthy := fun _ => true;
     now := "2024-01-01 12-00-00" |}.

(** A track whose placemark has no [Point]. *)
Definition track_no_point : Xml.element :=
  Sample.document
    [Sample.el "Placemark" [("id", "1")] None
       [Sample.el "styleUrl" [] (Some "#s") [];
        Sample.el "description" [] (Some Sample.reading) []]].

(** A command line with [--output out], where the world gives [out] an
    empty suffix. *)
Definition with_output : args :=
  {| input_file := "track";
     arg_min := F.of_decimal false 5 (-2);
     arg_max := F.of_decimal false 5 (-1);
     arg_cmap := "two_tone";
     arg_alpha := F.of_decimal false 8 (-1);
     arg_output := Some "out" |}.

(** A world like [Sample.world] whose paths have the suffix [.kml], but for
    the path [out], which has none. *)
Definition plain (doc : Xml.element) : env :=
  {| get_cmap := fun name =>
       if String.eqb name "two_tone" then Some Sample.two_tone else None;
     infer_string := false;
     unicode_lower := fun s => s;
     path_exists := fun _ => true;
     path_suffix := fun p => if String.eqb p "out" then "" else ".kml";
     path_stem := fun p => p;
     with_suffix := fun p sfx => Ok (p ++ sfx)%string;
     with_stem := fun _ stem => Ok stem;
     read_bytes := fun _ => Ok ""%string;
     writable := fun _ => true;
     zip_entries := fun _ => Raise BadZipFile;
     xml_parse := fun _ => Ok doc;
     truthy := fun e => match Xml.text_of e with
                        | Some (String _ _) => true
                        | _ => false
                        end;
     now := "2024-01-01 12-00-00" |}.

(** A track whose description is empty. *)
Definition track_untitled : Xml.element :=
  Sample.el "kml" [] None
    [Sample.el "Document" [] None
       [Sample.el "name" [] (Some "Track") [];
        Sample.el "description" [] None [];
        Sample.placemark [("id", "7")] "12.5,45.6,100" Sample.reading]].

(** A track whose placemark has one coordinate only. *)
Definition track_one_coordinate : Xml.element :=
  Sample.document [Sample.placemark [("id", "7")] "12.5" Sample.reading].

End Cases.

(** ** Descriptions of the expected form and colour strings *)

(** A description as the RadiaCode application writes it, between any text
    before and after. *)
Definition formatted (pre ts u c a post : string) : string :=
  pre ++ "<b>" ++ ts ++ "</b></br>" ++ u ++ " µSv/h</br>" ++ c
      ++ " cps</br>Accuracy: ±" ++ a ++ " m</br>" ++ post.

(** No character of the string is [<]. *)
Definition no_angle (s : string) : bool :=
  forallb (fun x => negb (Ascii.eqb x "<")) (Str.chars s).

(** No character of the string is a line feed. *)
Definition one_line (s : string) : bool :=
  forallb (fun x => negb (Ascii.eqb x (ascii_of_N Re.newline))) (Str.chars s).

(** An ASCII digit or a dot. *)
Definition digit_or_dot (c : ascii) : bool :=
  Str.is_digit c || Ascii.eqb c ".".

(** A string of one or more ASCII characters of a class. *)
Definition token (p : ascii -> bool) (s : string) : bool :=
  negb (String.eqb s "") && forallb p (Str.chars s).

(** A string of one or more characters of a class of code points. *)
Definition text_token (p : N -> bool) (s : string) : bool :=
  negb (String.eqb s "") && forallb p (Str.codepoints s).

(** A colour whose red, green and blue are in the unit interval. *)
Definition unit_channels (c : colour) : bool :=
  let '(r, g, b, _) := c in
  Colour.unit_float r && Colour.unit_float g && Colour.unit_float b.

(** Eight upper-case hexadecimal digits. *)
Definition is_colour_string (s : string) : bool :=
  (String.length s =? 8)%nat && forallb Colour.is_upper_hex (Str.chars s).

(** ** Numerals and tags of the output *)

(** A numeral with [p] digits after the point, or [inf]. *)
Definition fixed_point (p : nat) (s : string) : Prop :=
  s = "inf" \/
  exists ip fp,
    s = ip ++ "." ++ fp /\ token Str.is_digit ip = true /\
    token Str.is_digit fp = true /\ String.length fp = p.

(** What [findall(".//Placemark")] looks for. *)
Definition plain_placemark (e : Xml.element) : bool :=
  Xml.qname_eqb (Xml.tag_of e) {| Xml.ns := ""; Xml.local := "Placemark" |}.

(** * Properties *)

(** ** Results *)

Lemma bind_ok {A B : Type} (r : result A) (k : A -> result B) (b : B) :
  bind r k = Ok b -> exists a, r = Ok a /\ k a = Ok b.
Proof.
  destruct r as [a | e]; simpl; intros H; [eauto | discriminate].
Qed.

Lemma mapM_ok_length {A B : Type} (f : A -> result B) (l : list A) (bs : list B) :
  mapM f l = Ok bs -> List.length bs = List.length l.
Proof.
  revert bs; induction l as [| a l IH]; simpl; intros bs H.
  - inversion H; reflexivity.
  - apply bind_ok in H as (b & _ & H).
    apply bind_ok in H as (bs' & Hbs & H).
    inversion H; subst; simpl; f_equal; auto.
Qed.

Lemma mapM_ok_forall2 {A B : Type} (f : A -> result B) (l : list A) (bs : list B) :
  mapM f l = Ok bs -> Forall2 (fun a b => f a = Ok b) l bs.
Proof.
  revert bs; induction l as [| a l IH]; simpl; intros bs H.
  - inversion H; constructor.
  - apply bind_ok in H as (b & Hb & H).
    apply bind_ok in H as (bs' & Hbs & H).
    inversion H; subst; constructor; auto.
Qed.


(** ** Texts and their code points *)

Module Utf8Facts.
Import Utf8.

Ltac ndiv := zify; Z.to_euclidean_division_equations; lia.

Ltac bounds :=
  repeat match goal with
  | H : (_ && _) = true |- _ => apply andb_true_iff in H as [? ?]
  | H : (_ <=? _)%N = true |- _ => apply N.leb_le in H
  | H : (_ <? _)%N = true |- _ => apply N.ltb_lt in H
  | H : (_ <=? _)%N = false |- _ => apply N.leb_gt in H
  | H : (_ <? _)%N = false |- _ => apply N.ltb_ge in H
  | H : negb _ = true |- _ => apply negb_true_iff in H
  | H : (_ && _) = false |- _ => apply andb_false_iff in H as [? | ?]
  end.

(** The first code point of a text and what follows it. *)
Definition next (l : list ascii) : option (N * list ascii) :=
  match l with
  | [] => None
  | b1 :: l1 =>
      Some
        match l1 with
        | b2 :: l2 =>
            match two b1 b2 with
            | Some c => (c, l2)
            | None =>
                match l2 with
                | b3 :: l3 =>
                    match three b1 b2 b3 with
                    | Some c => (c, l3)
                    | None =>
                        match l3 with
                        | b4 :: l4 =>
                            match four b1 b2 b3 b4 with
                            | Some c => (c, l4)
                            | None => (single b1, l1)
                            end
                        | [] => (single b1, l1)
                        end
                    end
                | [] => (single b1, l1)
                end
            end
        | [] => (single b1, l1)
        end
  end.

Lemma decode_next l :
  decode l = match next l with
             | None => []
             | Some (c, rest) => c :: decode rest
             end.
Proof.
  destruct l as [| b1 [| b2 [| b3 [| b4 l4]]]]; cbn [decode next];
    try reflexivity.
  - destruct (two b1 b2); reflexivity.
  - destruct (two b1 b2); [reflexivity |]. destruct (three b1 b2 b3); reflexivity.
  - destruct (two b1 b2); [reflexivity |].
    destruct (three b1 b2 b3); [reflexivity |].
    destruct (four b1 b2 b3 b4); reflexivity.
Qed.

(** How a code point is spelt. *)
Inductive spelt : N -> list ascii -> Prop :=
  | spelt1 b : spelt (single b) [b]
  | spelt2 b1 b2 c : two b1 b2 = Some c -> spelt c [b1; b2]
  | spelt3 b1 b2 b3 c : three b1 b2 b3 = Some c -> spelt c [b1; b2; b3]
  | spelt4 b1 b2 b3 b4 c : four b1 b2 b3 b4 = Some c -> spelt c [b1; b2; b3; b4].

Lemma next_spelt l c rest :
  next l = Some (c, rest) ->
  exists w, l = (w ++ rest)%list /\ spelt c w.
Proof.
  destruct l as [| b1 [| b2 [| b3 [| b4 l4]]]]; cbn [next]; try discriminate.
  - intros [= <- <-]. exists [b1]. split; [reflexivity | constructor].
  - destruct (two b1 b2) eqn:H2.
    + intros [= <- <-]. exists [b1; b2]. split; [reflexivity | now constructor].
    + intros [= <- <-]. exists [b1]. split; [reflexivity | constructor].
  - destruct (two b1 b2) eqn:H2.
    + intros [= <- <-]. exists [b1; b2]. split; [reflexivity | now constructor].
    + destruct (three b1 b2 b3) eqn:H3.
      * intros [= <- <-]. exists [b1; b2; b3]. split; [reflexivity | now constructor].
      * intros [= <- <-]. exists [b1]. split; [reflexivity | constructor].
  - destruct (two b1 b2) eqn:H2.
    + intros [= <- <-]. exists [b1; b2]. split; [reflexivity | now constructor].
    + destruct (three b1 b2 b3) eqn:H3.
      * intros [= <- <-]. exists [b1; b2; b3]. split; [reflexivity | now constructor].
      * destruct (four b1 b2 b3 b4) eqn:H4.
        -- intros [= <- <-]. exists [b1; b2; b3; b4].
           split; [reflexivity | now constructor].
        -- intros [= <- <-]. exists [b1]. split; [reflexivity | constructor].
Qed.

Lemma spelt_nonempty c w : spelt c w -> (0 < List.length w)%nat.
Proof. destruct 1; simpl; lia. Qed.

(** Induction over a text, one code point at a time. *)
Lemma text_ind (P : list ascii -> Prop) :
  P [] ->
  (forall c w rest, spelt c w -> next (w ++ rest)%list = Some (c, rest) ->
                    P rest -> P (w ++ rest)%list) ->
  forall l, P l.
Proof.
  intros H0 Hs l.
  assert (H : forall n l, (List.length l <= n)%nat -> P l).
  { induction n as [| n IH]; intros l' Hl.
    - destruct l'; [exact H0 | simpl in Hl; lia].
    - destruct (next l') as [[c rest] |] eqn:Hn.
      + destruct (next_spelt _ _ _ Hn) as (w & -> & Hw).
        apply (Hs c w rest Hw Hn). apply IH.
        pose proof (spelt_nonempty _ _ Hw). rewrite length_app in Hl. lia.
      + destruct l'; [exact H0 | discriminate]. }
  now apply (H (List.length l)).
Qed.

Lemma byte_bound b : (byte b < 256)%N.
Proof. apply N_ascii_bounded. Qed.

Lemma ascii_byte b : ascii_of_N (byte b) = b.
Proof. apply ascii_N_embedding. Qed.

Lemma byte_ascii n : (n < 256)%N -> byte (ascii_of_N n) = n.
Proof. apply N_ascii_embedding. Qed.

Lemma two_inv b1 b2 c :
  two b1 b2 = Some c ->
  (0xC2 <= byte b1 <= 0xDF /\ 128 <= byte b2 < 192 /\
   c = (byte b1 - 0xC0) * 64 + (byte b2 - 128))%N.
Proof.
  unfold two, cont. intros H.
  destruct (_ && _) eqn:Hc in H; [| discriminate]. inversion H; subst c.
  bounds. lia.
Qed.

Lemma three_inv b1 b2 b3 c :
  three b1 b2 b3 = Some c ->
  (0xE0 <= byte b1 <= 0xEF /\ 128 <= byte b2 < 192 /\ 128 <= byte b3 < 192 /\
   c = (byte b1 - 0xE0) * 4096 + (byte b2 - 128) * 64 + (byte b3 - 128) /\
   0x800 <= c /\ (c < 0xD800 \/ 0xDFFF < c))%N.
Proof.
  unfold three, cont. cbv zeta. intros H.
  destruct (_ && _) eqn:Hc in H; [| discriminate]. inversion H; subst c.
  bounds; lia.
Qed.

Lemma four_inv b1 b2 b3 b4 c :
  four b1 b2 b3 b4 = Some c ->
  (0xF0 <= byte b1 <= 0xF4 /\ 128 <= byte b2 < 192 /\ 128 <= byte b3 < 192 /\
   128 <= byte b4 < 192 /\
   c = (byte b1 - 0xF0) * 262144 + (byte b2 - 128) * 4096
       + (byte b3 - 128) * 64 + (byte b4 - 128) /\
   0x10000 <= c <= 0x10FFFF)%N.
Proof.
  unfold four, cont. cbv zeta. intros H.
  destruct (_ && _) eqn:Hc in H; [| discriminate]. inversion H; subst c.
  bounds. lia.
Qed.

(** A spelling is the UTF-8 encoding of its code point. *)
Lemma spelt_encode c w : spelt c w -> encode_cp c = w.
Proof.
  destruct 1 as [b | b1 b2 c H | b1 b2 b3 c H | b1 b2 b3 b4 c H].
  - unfold single, encode_cp. pose proof (byte_bound b).
    destruct (N.ltb_spec (byte b) 128).
    + destruct (N.ltb_spec (byte b) 0x80); [| lia]. now rewrite ascii_byte.
    + destruct (N.ltb_spec (0xDC00 + byte b) 0x80); [lia |].
      destruct (N.ltb_spec (0xDC00 + byte b) 0x800); [lia |].
      destruct (N.leb_spec 0xDC80 (0xDC00 + byte b)); [| lia].
      destruct (N.leb_spec (0xDC00 + byte b) 0xDCFF); [| lia].
      cbn [andb]. replace (0xDC00 + byte b - 0xDC00)%N with (byte b) by lia.
      now rewrite ascii_byte.
  - apply two_inv in H as (H1 & H2 & ->). unfold encode_cp.
    set (c := ((byte b1 - 0xC0) * 64 + (byte b2 - 128))%N).
    destruct (N.ltb_spec c 0x80); [subst c; lia |].
    destruct (N.ltb_spec c 0x800); [| subst c; lia].
    replace (0xC0 + c / 64)%N with (byte b1) by (subst c; ndiv).
    replace (0x80 + c mod 64)%N with (byte b2) by (subst c; ndiv).
    now rewrite !ascii_byte.
  - apply three_inv in H as (H1 & H2 & H3 & Hc & Hlo & Hs). unfold encode_cp.
    destruct (N.ltb_spec c 0x80); [lia |].
    destruct (N.ltb_spec c 0x800); [lia |].
    assert (Hsur : ((0xDC80 <=? c) && (c <=? 0xDCFF))%N = false).
    { apply andb_false_iff. destruct Hs; [left; apply N.leb_gt | right; apply N.leb_gt]; lia. }
    rewrite Hsur.
    destruct (N.ltb_spec c 0x10000); [| lia].
    replace (0xE0 + c / 4096)%N with (byte b1) by (subst c; ndiv).
    replace (0x80 + (c / 64) mod 64)%N with (byte b2) by (subst c; ndiv).
    replace (0x80 + c mod 64)%N with (byte b3) by (subst c; ndiv).
    now rewrite !ascii_byte.
  - apply four_inv in H as (H1 & H2 & H3 & H4 & Hc & Hr). unfold encode_cp.
    destruct (N.ltb_spec c 0x80); [lia |].
    destruct (N.ltb_spec c 0x800); [lia |].
    assert (Hsur : ((0xDC80 <=? c) && (c <=? 0xDCFF))%N = false).
    { apply andb_false_iff. right. apply N.leb_gt. lia. }
    rewrite Hsur.
    destruct (N.ltb_spec c 0x10000); [lia |].
    replace (0xF0 + c / 262144)%N with (byte b1) by (subst c; ndiv).
    replace (0x80 + (c / 4096) mod 64)%N with (byte b2) by (subst c; ndiv).
    replace (0x80 + (c / 64) mod 64)%N with (byte b3) by (subst c; ndiv).
    replace (0x80 + c mod 64)%N with (byte b4) by (subst c; ndiv).
    now rewrite !ascii_byte.
Qed.

(** Encoding the code points of a text gives the text back. *)
Lemma encode_decode l : encode (decode l) = l.
Proof.
  induction l as [| c w rest Hw Hn IH] using text_ind; [reflexivity |].
  rewrite decode_next, Hn. unfold encode in *. cbn [flat_map].
  now rewrite IH, (spelt_encode _ _ Hw).
Qed.

(** A byte that is no continuation byte ends every sequence before it. *)
Lemma two_stop b1 x : cont x = false -> two b1 x = None.
Proof. unfold two. intros ->. now rewrite andb_false_r. Qed.

Lemma three_stop2 b1 x b3 : cont x = false -> three b1 x b3 = None.
Proof. unfold three. intros ->. now rewrite andb_false_r. Qed.

Lemma three_stop3 b1 b2 x : cont x = false -> three b1 b2 x = None.
Proof. unfold three. intros ->. now rewrite !andb_false_r. Qed.

Lemma four_stop2 b1 x b3 b4 : cont x = false -> four b1 x b3 b4 = None.
Proof. unfold four. intros ->. now rewrite andb_false_r. Qed.

Lemma four_stop3 b1 b2 x b4 : cont x = false -> four b1 b2 x b4 = None.
Proof. unfold four. intros ->. now rewrite !andb_false_r. Qed.

Lemma four_stop4 b1 b2 b3 x : cont x = false -> four b1 b2 b3 x = None.
Proof. unfold four. intros ->. now rewrite !andb_false_r. Qed.

(** A text that is empty or starts with a byte that continues nothing. *)
Definition fresh (l : list ascii) : Prop :=
  match l with [] => True | x :: _ => cont x = false end.

Lemma next_app a b c rest :
  fresh b -> next a = Some (c, rest) -> next (a ++ b)%list = Some (c, (rest ++ b)%list).
Proof.
  intros Hb.
  destruct b as [| x b]; [now rewrite !app_nil_r |]. simpl in Hb.
  destruct a as [| b1 [| b2 [| b3 [| b4 l4]]]]; cbn [next app]; try discriminate.
  - intros [= <- <-]. rewrite (two_stop _ _ Hb).
    destruct b as [| y [| z b]]; try reflexivity.
    + now rewrite (three_stop2 _ _ _ Hb).
    + now rewrite (three_stop2 _ _ _ Hb), (four_stop2 _ _ _ _ Hb).
  - destruct (two b1 b2); [intros [= <- <-]; reflexivity |].
    intros [= <- <-]. rewrite (three_stop3 _ _ _ Hb).
    destruct b as [| y b]; try reflexivity.
    now rewrite (four_stop3 _ _ _ _ Hb).
  - destruct (two b1 b2); [intros [= <- <-]; reflexivity |].
    destruct (three b1 b2 b3); [intros [= <- <-]; reflexivity |].
    intros [= <- <-]. now rewrite (four_stop4 _ _ _ _ Hb).
  - destruct (two b1 b2); [intros [= <- <-]; reflexivity |].
    destruct (three b1 b2 b3); [intros [= <- <-]; reflexivity |].
    destruct (four b1 b2 b3 b4); intros [= <- <-]; reflexivity.
Qed.

(** The code points of two texts put together, when the second starts a
    sequence of its own. *)
Lemma decode_app a b :
  fresh b -> decode (a ++ b) = (decode a ++ decode b)%list.
Proof.
  intros Hb.
  induction a as [| c w rest Hw Hn IH] using text_ind; [reflexivity |].
  rewrite (decode_next (w ++ rest)), Hn.
  rewrite decode_next, (next_app _ _ _ _ Hb Hn). cbn [app]. now rewrite IH.
Qed.

Lemma ascii_not_cont x : (byte x <? 128)%N = true -> cont x = false.
Proof.
  unfold cont. intros H. apply N.ltb_lt in H.
  apply andb_false_iff. left. apply N.leb_gt. exact H.
Qed.

Lemma ascii_no_lead b1 :
  (byte b1 <? 128)%N = true ->
  (forall b2, two b1 b2 = None) /\ (forall b2 b3, three b1 b2 b3 = None) /\
  (forall b2 b3 b4, four b1 b2 b3 b4 = None).
Proof.
  intros H. apply N.ltb_lt in H.
  assert (H2 : (0xC2 <=? byte b1)%N = false) by (apply N.leb_gt; lia).
  assert (H3 : (0xE0 <=? byte b1)%N = false) by (apply N.leb_gt; lia).
  assert (H4 : (0xF0 <=? byte b1)%N = false) by (apply N.leb_gt; lia).
  unfold two, three, four. cbv zeta. rewrite H2, H3, H4. repeat split.
Qed.

Lemma next_ascii b l :
  (byte b <? 128)%N = true -> next (b :: l) = Some (byte b, l).
Proof.
  intros H. destruct (ascii_no_lead b H) as (H2 & H3 & H4).
  unfold next. unfold single. rewrite H.
  destruct l as [| b2 [| b3 [| b4 l]]]; rewrite ?H2, ?H3, ?H4; reflexivity.
Qed.

Lemma decode_ascii_cons b l :
  (byte b <? 128)%N = true -> decode (b :: l) = byte b :: decode l.
Proof. intros H. now rewrite decode_next, (next_ascii _ _ H). Qed.

(** The code points of an ASCII text are its bytes. *)
Lemma decode_ascii l :
  forallb (fun b => byte b <? 128)%N l = true -> decode l = map byte l.
Proof.
  induction l as [| b l IH]; [reflexivity |]. cbn [forallb map].
  intros H. apply andb_true_iff in H as [Hb H].
  now rewrite (decode_ascii_cons _ _ Hb), (IH H).
Qed.

(** Only a byte of its own spells an ASCII character. *)
Lemma spelt_ascii c w : spelt c w -> (c < 128)%N -> exists b, w = [b] /\ byte b = c.
Proof.
  destruct 1 as [b | b1 b2 c H | b1 b2 b3 c H | b1 b2 b3 b4 c H]; intros Hc.
  - exists b. split; [reflexivity |]. unfold single in *.
    destruct (N.ltb_spec (byte b) 128); [reflexivity | lia].
  - apply two_inv in H. lia.
  - apply three_inv in H. lia.
  - apply four_inv in H. lia.
Qed.

Lemma decode_in_ascii l c :
  In c (decode l) -> (c < 128)%N -> exists b, In b l /\ byte b = c.
Proof.
  induction l as [| c' w rest Hw Hn IH] using text_ind; [contradiction |].
  rewrite decode_next, Hn. intros [-> | Hin] Hc.
  - destruct (spelt_ascii _ _ Hw Hc) as (b & -> & Hb). exists b. simpl. auto.
  - destruct (IH Hin Hc) as (b & Hb & Hbc). exists b. split; [| exact Hbc].
    apply in_or_app. now right.
Qed.

(** A text without a given ASCII byte has no such character. *)
Lemma decode_without x l :
  (byte x <? 128)%N = true ->
  forallb (fun b => negb (Ascii.eqb b x)) l = true ->
  forallb (fun c => negb (c =? byte x)%N) (decode l) = true.
Proof.
  intros Hx Hl. apply forallb_forall. intros c Hc.
  apply negb_true_iff, N.eqb_neq. intros ->.
  apply N.ltb_lt in Hx.
  destruct (decode_in_ascii _ _ Hc Hx) as (b & Hb & Hbx).
  rewrite forallb_forall in Hl. specialize (Hl b Hb).
  apply negb_true_iff, Ascii.eqb_neq in Hl. apply Hl.
  rewrite <- (ascii_byte b), <- (ascii_byte x). now rewrite Hbx.
Qed.

(** Decoding the encoding of a code point of a well-formed text gives it
    back. *)
Lemma next_encode c rest :
  Unicode.scalar c = true -> next (encode_cp c ++ rest)%list = Some (c, rest).
Proof.
  unfold Unicode.scalar. intros Hs.
  assert (Hc : (c < 0xD800 \/ 0xE000 <= c < 0x110000)%N).
  { apply orb_true_iff in Hs as [H | H].
    - left. now apply N.ltb_lt.
    - right. apply andb_true_iff in H as [H1 H2].
      apply N.leb_le in H1. apply N.ltb_lt in H2. lia. }
  clear Hs. unfold encode_cp.
  destruct (N.ltb_spec c 0x80).
  { cbn [app]. rewrite next_ascii; rewrite byte_ascii by lia;
      [reflexivity | now apply N.ltb_lt]. }
  destruct (N.ltb_spec c 0x800).
  { cbn [app next].
    assert (H2 : two (ascii_of_N (0xC0 + c / 64)) (ascii_of_N (0x80 + c mod 64))
                 = Some c).
    { unfold two, cont. rewrite !byte_ascii by ndiv.
      replace ((0xC2 <=? 0xC0 + c / 64)%N) with true
        by (symmetry; apply N.leb_le; ndiv).
      replace ((0xC0 + c / 64 <=? 0xDF)%N) with true
        by (symmetry; apply N.leb_le; ndiv).
      replace ((128 <=? 0x80 + c mod 64)%N) with true
        by (symmetry; apply N.leb_le; ndiv).
      replace ((0x80 + c mod 64 <? 192)%N) with true
        by (symmetry; apply N.ltb_lt; ndiv).
      cbn [andb]. f_equal. ndiv. }
    now rewrite H2. }
  assert (Hsur : ((0xDC80 <=? c) && (c <=? 0xDCFF))%N = false).
  { apply andb_false_iff.
    destruct Hc; [left; apply N.leb_gt | right; apply N.leb_gt]; lia. }
  rewrite Hsur.
  destruct (N.ltb_spec c 0x10000).
  { cbn [app next].
    set (b1 := ascii_of_N (0xE0 + c / 4096)).
    set (b2 := ascii_of_N (0x80 + (c / 64) mod 64)).
    set (b3 := ascii_of_N (0x80 + c mod 64)).
    assert (E1 : byte b1 = (0xE0 + c / 4096)%N) by (apply byte_ascii; ndiv).
    assert (E2 : byte b2 = (0x80 + (c / 64) mod 64)%N) by (apply byte_ascii; ndiv).
    assert (E3 : byte b3 = (0x80 + c mod 64)%N) by (apply byte_ascii; ndiv).
    assert (H2 : two b1 b2 = None).
    { unfold two. rewrite E1.
      replace ((0xE0 + c / 4096 <=? 0xDF)%N) with false
        by (symmetry; apply N.leb_gt; ndiv).
      now rewrite andb_false_r. }
    assert (H3 : three b1 b2 b3 = Some c).
    { unfold three, cont. cbv zeta. rewrite E1, E2, E3.
      replace ((0xE0 + c / 4096 - 0xE0) * 4096 + (0x80 + (c / 64) mod 64 - 128) * 64
               + (0x80 + c mod 64 - 128))%N with c by ndiv.
      replace ((0xE0 <=? 0xE0 + c / 4096)%N) with true
        by (symmetry; apply N.leb_le; ndiv).
      replace ((0xE0 + c / 4096 <=? 0xEF)%N) with true
        by (symmetry; apply N.leb_le; ndiv).
      replace ((128 <=? 0x80 + (c / 64) mod 64)%N) with true
        by (symmetry; apply N.leb_le; ndiv).
      replace ((0x80 + (c / 64) mod 64 <? 192)%N) with true
        by (symmetry; apply N.ltb_lt; ndiv).
      replace ((128 <=? 0x80 + c mod 64)%N) with true
        by (symmetry; apply N.leb_le; ndiv).
      replace ((0x80 + c mod 64 <? 192)%N) with true
        by (symmetry; apply N.ltb_lt; ndiv).
      replace ((0x800 <=? c)%N) with true by (symmetry; apply N.leb_le; lia).
      replace ((0xD800 <=? c) && (c <=? 0xDFFF))%N with false; [reflexivity |].
      symmetry. apply andb_false_iff.
      destruct Hc; [left; apply N.leb_gt | right; apply N.leb_gt]; lia. }
    now rewrite H2, H3. }
  cbn [app next].
  set (b1 := ascii_of_N (0xF0 + c / 262144)).
  set (b2 := ascii_of_N (0x80 + (c / 4096) mod 64)).
  set (b3 := ascii_of_N (0x80 + (c / 64) mod 64)).
  set (b4 := ascii_of_N (0x80 + c mod 64)).
  assert (E1 : byte b1 = (0xF0 + c / 262144)%N) by (apply byte_ascii; ndiv).
  assert (E2 : byte b2 = (0x80 + (c / 4096) mod 64)%N) by (apply byte_ascii; ndiv).
  assert (E3 : byte b3 = (0x80 + (c / 64) mod 64)%N) by (apply byte_ascii; ndiv).
  assert (E4 : byte b4 = (0x80 + c mod 64)%N) by (apply byte_ascii; ndiv).
  assert (H2 : two b1 b2 = None).
  { unfold two. rewrite E1.
    replace ((0xF0 + c / 262144 <=? 0xDF)%N) with false
      by (symmetry; apply N.leb_gt; ndiv).
    now rewrite andb_false_r. }
  assert (H3 : three b1 b2 b3 = None).
  { unfold three. cbv zeta. rewrite E1.
    replace ((0xF0 + c / 262144 <=? 0xEF)%N) with false
      by (symmetry; apply N.leb_gt; ndiv).
    now rewrite andb_false_r. }
  assert (H4 : four b1 b2 b3 b4 = Some c).
  { unfold four, cont. cbv zeta. rewrite E1, E2, E3, E4.
    replace ((0xF0 + c / 262144 - 0xF0) * 262144
             + (0x80 + (c / 4096) mod 64 - 128) * 4096
             + (0x80 + (c / 64) mod 64 - 128) * 64
             + (0x80 + c mod 64 - 128))%N with c by ndiv.
    replace ((0xF0 <=? 0xF0 + c / 262144)%N) with true
      by (symmetry; apply N.leb_le; ndiv).
    replace ((0xF0 + c / 262144 <=? 0xF4)%N) with true
      by (symmetry; apply N.leb_le; ndiv).
    replace ((128 <=? 0x80 + (c / 4096) mod 64)%N) with true
      by (symmetry; apply N.leb_le; ndiv).
    replace ((0x80 + (c / 4096) mod 64 <? 192)%N) with true
      by (symmetry; apply N.ltb_lt; ndiv).
    replace ((128 <=? 0x80 + (c / 64) mod 64)%N) with true
      by (symmetry; apply N.leb_le; ndiv).
    replace ((0x80 + (c / 64) mod 64 <? 192)%N) with true
      by (symmetry; apply N.ltb_lt; ndiv).
    replace ((128 <=? 0x80 + c mod 64)%N) with true
      by (symmetry; apply N.leb_le; ndiv).
    replace ((0x80 + c mod 64 <? 192)%N) with true
      by (symmetry; apply N.ltb_lt; ndiv).
    replace ((0x10000 <=? c)%N) with true by (symmetry; apply N.leb_le; lia).
    replace ((c <=? 0x10FFFF)%N) with true by (symmetry; apply N.leb_le; lia).
    reflexivity. }
  now rewrite H2, H3, H4.
Qed.

Lemma decode_encode_app l rest :
  forallb Unicode.scalar l = true ->
  decode (encode l ++ rest) = (l ++ decode rest)%list.
Proof.
  induction l as [| c l IH]; [reflexivity |]. cbn [forallb].
  intros H. apply andb_true_iff in H as [Hc H].
  unfold encode in *. cbn [flat_map]. rewrite <- app_assoc.
  now rewrite decode_next, (next_encode _ _ Hc), (IH H).
Qed.

Lemma decode_encode l :
  forallb Unicode.scalar l = true -> decode (encode l) = l.
Proof.
  intros H. rewrite <- (app_nil_r (encode l)), (decode_encode_app _ _ H).
  apply app_nil_r.
Qed.

(** The code points of two texts put together, when the first is well
    formed. *)
Lemma decode_app_valid a b :
  forallb Unicode.scalar (decode a) = true ->
  decode (a ++ b) = (decode a ++ decode b)%list.
Proof.
  intros H. rewrite <- (encode_decode a) at 1. now apply decode_encode_app.
Qed.

(** The ASCII digits are decimal digits, and the only ASCII ones. *)
Definition ascii_digit (c : N) : option N :=
  if ((48 <=? c) && (c <=? 57))%N then Some (c - 48)%N else None.

Lemma ascii_decimal_all :
  forallb (fun n => match Unicode.decimal (N.of_nat n), ascii_digit (N.of_nat n) with
                    | Some x, Some y => (x =? y)%N
                    | None, None => true
                    | _, _ => false
                    end) (seq 0 128) = true.
Proof. vm_compute. reflexivity. Qed.

Lemma ascii_decimal c : (c < 128)%N -> Unicode.decimal c = ascii_digit c.
Proof.
  intros Hc. pose proof ascii_decimal_all as H. rewrite forallb_forall in H.
  specialize (H (N.to_nat c)). rewrite N2Nat.id in H.
  assert (Hin : In (N.to_nat c) (seq 0 128)) by (apply in_seq; lia).
  specialize (H Hin).
  destruct (Unicode.decimal c), (ascii_digit c); try discriminate; [| reflexivity].
  apply N.eqb_eq in H. now subst.
Qed.

End Utf8Facts.

(** ** The matcher against what patterns denote *)

Module ReFacts.
Import Re.

Section Sound.
Context {R : Type}.
Implicit Types (k : @cont R) (s w : list N) (caps : list string).

Lemma lazy_star_sound a k s caps res :
  lazy_star a k s caps = Some res ->
  exists w s', s = (w ++ s')%list /\ star a w /\ k s' caps = Some res.
Proof.
  induction s as [| c s IH]; simpl.
  - destruct (k [] caps) eqn:Hk; [| discriminate].
    intros [= <-]. exists [], []. repeat split; auto; constructor.
  - destruct (k (c :: s) caps) eqn:Hk.
    + intros [= <-]. exists [], (c :: s). repeat split; auto; constructor.
    + destruct (atom_match a c) eqn:Hc; [| discriminate].
      intros H. destruct (IH H) as (w & s' & -> & Hw & Hs').
      exists (c :: w), s'. repeat split; auto. now constructor.
Qed.

Lemma greedy_star_sound a k s caps res :
  greedy_star a k s caps = Some res ->
  exists w s', s = (w ++ s')%list /\ star a w /\ k s' caps = Some res.
Proof.
  induction s as [| c s IH]; simpl.
  - intros H. exists [], []. repeat split; auto; constructor.
  - destruct (atom_match a c) eqn:Hc.
    + destruct (greedy_star a k s caps) eqn:Hg.
      * intros [= <-]. destruct (IH eq_refl) as (w & s' & -> & Hw & Hs').
        exists (c :: w), s'. repeat split; auto. now constructor.
      * intros H. exists [], (c :: s). repeat split; auto; constructor.
    + intros H. exists [], (c :: s). repeat split; auto; constructor.
Qed.


End Sound.

Lemma consumed_app (w s' : list N) :
  consumed (w ++ s')%list s' = Str.of_codepoints w.
Proof.
  unfold consumed. rewrite length_app, Nat.add_sub.
  now rewrite firstn_app, Nat.sub_diag, firstn_all, app_nil_r.
Qed.

Lemma run_sound {R : Type} (r : re) : forall (k : @cont R) s caps res,
  run r k s caps = Some res ->
  exists w s' caps',
    s = (w ++ s')%list /\ denotes r w caps caps' /\ k s' caps' = Some res.
Proof.
  induction r as [| a | a | a | r IH | r1 IH1 r2 IH2]; intros k s caps res; simpl.
  - intros H. exists [], s, caps. repeat split; auto; constructor.
  - destruct s as [| c s]; [discriminate |].
    destruct (atom_match a c) eqn:Hc; [| discriminate].
    intros H. exists [c], s, caps. repeat split; auto. now constructor.
  - intros H. apply lazy_star_sound in H as (w & s' & -> & Hw & Hk).
    exists w, s', caps. repeat split; auto. now constructor.
  - destruct s as [| c s]; [discriminate |].
    destruct (atom_match a c) eqn:Hc; [| discriminate].
    intros H. apply greedy_star_sound in H as (w & s' & -> & Hw & Hk).
    exists (c :: w), s', caps. repeat split; auto. now constructor.
  - intros H. apply IH in H as (w & s' & caps' & -> & Hw & Hk).
    rewrite consumed_app in Hk.
    exists w, s', (caps' ++ [Str.of_codepoints w])%list. repeat split; auto.
    now constructor.
  - intros H. apply IH1 in H as (w1 & s1 & caps1 & -> & Hw1 & H).
    apply IH2 in H as (w2 & s2 & caps2 & -> & Hw2 & Hk).
    exists (w1 ++ w2)%list, s2, caps2. rewrite <- app_assoc.
    repeat split; auto. econstructor; eauto.
Qed.


Lemma search_chars_sound r s caps :
  search_chars r s = Some caps ->
  exists pre w post, s = (pre ++ w ++ post)%list /\ denotes r w [] caps.
Proof.
  induction s as [| c s IH]; simpl.
  - destruct (run r _ [] []) eqn:Hr; [| discriminate].
    intros [= <-]. apply run_sound in Hr as (w & s' & caps' & Hs & Hw & [= <-]).
    exists [], w, s'. auto.
  - destruct (run r _ (c :: s) []) eqn:Hr.
    + intros [= <-]. apply run_sound in Hr as (w & s' & caps' & Hs & Hw & [= <-]).
      exists [], w, s'. auto.
    + intros H. destruct (IH H) as (pre & w & post & -> & Hw).
      exists (c :: pre), w, post. auto.
Qed.



End ReFacts.

(** ** The description pattern *)

Module Description.
Import Re ReFacts.

(** The expected structure of a description, in the specification's words:
    a bolded timestamp, a line break, a number followed by the unit
    [ µSv/h], a line break, a number followed by [ cps], a line break, the
    text [Accuracy: ±] followed by an integer and [ m], and a line break.
    A number is a non-empty run of decimal digits and dots, an integer a
    non-empty run of decimal digits, and the timestamp any text without a
    newline; the characters are code points, and a decimal digit is one of
    any script. *)
Definition timestamp_text (l : list N) : Prop :=
  forallb (fun c => negb (c =? newline)%N) l = true.

Definition number_token (l : list N) : Prop :=
  l <> [] /\ forallb class_d_dot l = true.

Definition integer_token (l : list N) : Prop :=
  l <> [] /\ forallb class_d l = true.

Definition laid_out (w ts u c a : list N) : Prop :=
  w = (Str.codepoints "<b>" ++ ts ++ Str.codepoints "</b></br>" ++ u ++
       Str.codepoints " µSv/h</br>" ++ c ++
       Str.codepoints " cps</br>Accuracy: ±" ++ a ++
       Str.codepoints " m</br>")%list
  /\ timestamp_text ts /\ number_token u /\ number_token c /\ integer_token a.


Lemma denotes_lit l w caps caps' :
  denotes (lit l) w caps caps' <-> w = l /\ caps' = caps.
Proof.
  split.
  - revert w caps caps'; induction l as [| c l IH]; simpl; intros w caps caps' H.
    + inversion H; auto.
    + inversion H as [ | | | | | r1 r2 w1 w2 c0 c1 c2 H1 H2]; subst.
      inversion H1; subst. apply IH in H2 as [-> ->].
      match goal with
      | Hm : atom_match (AChar c) _ = true |- _ =>
          simpl in Hm; apply N.eqb_eq in Hm; subst
      end.
      auto.
  - intros [-> ->]. induction l as [| c l IH]; simpl.
    + constructor.
    + change (c :: l) with ([c] ++ l)%list. econstructor; [| exact IH].
      constructor. simpl. apply N.eqb_refl.
Qed.

Lemma star_forallb a w : star a w <-> forallb (atom_match a) w = true.
Proof.
  split.
  - induction 1; simpl; auto. now rewrite H, IHstar.
  - induction w as [| c w IH]; simpl; intros H; [constructor |].
    apply andb_true_iff in H as [Hc Hw]. constructor; auto.
Qed.

Lemma denotes_plus p w caps caps' :
  denotes (Plus (AClass p)) w caps caps' <->
  (w <> [] /\ forallb p w = true) /\ caps' = caps.
Proof.
  split.
  - intros H. inversion H as [ | | | a c w' caps0 Hc Hs | | ]; subst.
    repeat split; [discriminate |].
    apply star_forallb in Hs. simpl. apply andb_true_iff. split.
    + exact Hc.
    + exact Hs.
  - intros [[Hne Hall] ->]. destruct w as [| c w]; [congruence |].
    simpl in Hall. apply andb_true_iff in Hall as [Hc Hw].
    constructor; [exact Hc |]. apply star_forallb. exact Hw.
Qed.

Lemma denotes_group r w caps caps' :
  denotes (Group r) w caps caps' <->
  exists c1, denotes r w caps c1 /\ caps' = (c1 ++ [Str.of_codepoints w])%list.
Proof.
  split.
  - intros H. inversion H; subst. eauto.
  - intros (c1 & H & ->). now constructor.
Qed.

Lemma denotes_seq r1 r2 w caps caps' :
  denotes (Seq r1 r2) w caps caps' <->
  exists w1 w2 c1,
    w = (w1 ++ w2)%list /\ denotes r1 w1 caps c1 /\ denotes r2 w2 c1 caps'.
Proof.
  split.
  - intros H. inversion H; subst. eauto 6.
  - intros (w1 & w2 & c1 & -> & H1 & H2). econstructor; eauto.
Qed.

Lemma denotes_lazy_dot w caps caps' :
  denotes (LazyStar ADot) w caps caps' <-> timestamp_text w /\ caps' = caps.
Proof.
  unfold timestamp_text. split.
  - intros H. inversion H; subst. split; auto.
    match goal with Hs : star _ _ |- _ => now apply star_forallb in Hs end.
  - intros [H ->]. constructor. now apply star_forallb.
Qed.

(** The words the pattern matches are the laid-out ones, and the groups are
    the timestamp, the two numbers and the integer. *)
Lemma denotes_pattern w caps :
  denotes pattern w [] caps <->
  exists ts u c a,
    laid_out w ts u c a /\
    caps = [Str.of_codepoints ts; Str.of_codepoints u; Str.of_codepoints c;
            Str.of_codepoints a].
Proof.
  unfold pattern, laid_out. split.
  - intros H.
    repeat match goal with
    | H : denotes (Seq _ _) _ _ _ |- _ =>
        apply denotes_seq in H as (? & ? & ? & -> & ? & ?)
    | H : denotes (lit _) _ _ _ |- _ => apply denotes_lit in H as [-> ->]
    | H : denotes (Group _) _ _ _ |- _ => apply denotes_group in H as (? & ? & ->)
    | H : denotes (Plus _) _ _ _ |- _ => apply denotes_plus in H as [? ->]
    | H : denotes (LazyStar _) _ _ _ |- _ => apply denotes_lazy_dot in H as [? ->]
    end.
    do 4 eexists. split; [| reflexivity].
    repeat split; try eassumption; tauto.
  - intros (ts & u & c & a & (-> & Hts & Hu & Hc & Ha) & ->).
    set (g1 := Str.of_codepoints ts). set (g2 := Str.of_codepoints u).
    set (g3 := Str.of_codepoints c). set (g4 := Str.of_codepoints a).
    apply (d_seq _ _ _ _ _ []); [now apply denotes_lit |].
    apply (d_seq _ _ _ _ _ [g1]);
      [apply (d_group _ _ [] []); now apply denotes_lazy_dot |].
    apply (d_seq _ _ _ _ _ [g1]); [now apply denotes_lit |].
    apply (d_seq _ _ _ _ _ [g1; g2]);
      [apply (d_group _ _ [g1] [g1]); now apply denotes_plus |].
    apply (d_seq _ _ _ _ _ [g1; g2]); [now apply denotes_lit |].
    apply (d_seq _ _ _ _ _ [g1; g2; g3]);
      [apply (d_group _ _ [g1; g2] [g1; g2]); now apply denotes_plus |].
    apply (d_seq _ _ _ _ _ [g1; g2; g3]); [now apply denotes_lit |].
    apply (d_seq _ _ _ _ _ [g1; g2; g3; g4]);
      [apply (d_group _ _ [g1; g2; g3] [g1; g2; g3]); now apply denotes_plus |].
    now apply denotes_lit.
Qed.



End Description.

(** ** Columns and frames *)

Module Frame.
Import Pandas.

Lemma infer_column_length S col :
  List.length (infer_column S col) = List.length col.
Proof.
  unfold infer_column.
  repeat match goal with |- context [if ?b then _ else _] => destruct b end;
    now rewrite ?length_map.
Qed.

Lemma existsb_excluded (p q : value -> bool) col :
  (forall v, q v = true -> p v = false) ->
  forallb q col = true -> existsb p col = false.
Proof.
  intros Hpq. induction col as [| v col IH]; simpl; [reflexivity |].
  intros H. apply andb_true_iff in H as [Hv H].
  now rewrite (Hpq v Hv), (IH H).
Qed.

Lemma map_to_float64_text col :
  forallb is_str col = true -> map to_float64 col = col.
Proof.
  induction col as [| v col IH]; simpl; [reflexivity |].
  intros H. apply andb_true_iff in H as [Hv H]. rewrite (IH H).
  destruct v; simpl in *; try discriminate; reflexivity.
Qed.

(** A column of strings and [None]: the missing values become [nan] when
    [pandas] infers strings and the column has a string, and stay [None]
    otherwise. *)
Lemma infer_column_text S col :
  forallb (fun v => is_str v || is_none v) col = true ->
  infer_column S col
  = if S && existsb is_str col then map to_float64 col else col.
Proof.
  intros H. unfold infer_column.
  destruct (existsb is_str col).
  - assert (Hm : forallb (fun v => is_str v || is_missing v) col = true).
    { rewrite forallb_forall in *. intros v Hv. specialize (H v Hv).
      destruct v; simpl in *; try discriminate; reflexivity. }
    rewrite Hm. reflexivity.
  - rewrite (existsb_excluded is_float (fun v => is_str v || is_none v) col);
      [| intros [] Hq; simpl in *; congruence | exact H].
    rewrite (existsb_excluded is_int (fun v => is_str v || is_none v) col);
      [| intros [] Hq; simpl in *; congruence | exact H].
    now rewrite andb_false_r.
Qed.

(** A column of strings is kept as it is. *)
Lemma infer_column_strings S col :
  forallb is_str col = true -> infer_column S col = col.
Proof.
  intros H. rewrite infer_column_text.
  - rewrite (map_to_float64_text _ H). now destruct (S && _).
  - rewrite forallb_forall in *. intros v Hv. now rewrite (H v Hv).
Qed.

(** A column of floats is kept as it is. *)
Lemma infer_column_floats S col :
  forallb is_float col = true -> infer_column S col = col.
Proof.
  intros H. unfold infer_column.
  rewrite (existsb_excluded is_str is_float col);
    [| intros [] Hq; simpl in *; congruence | exact H].
  assert (Hm : map to_float64 col = col).
  { induction col as [| v col IH]; simpl in *; [reflexivity |].
    apply andb_true_iff in H as [Hv H]. rewrite (IH H).
    destruct v; simpl in *; try discriminate; reflexivity. }
  rewrite Hm.
  repeat match goal with |- context [if ?b then _ else _] => destruct b end;
    reflexivity.
Qed.

(** What a cell of a column can become: it is kept or, for [None] and
    integers, turned into a float. *)
Definition kept (v w : value) : Prop := w = v \/ w = to_float64 v.

Lemma cells_kept col : Forall2 kept col col.
Proof. induction col; constructor; unfold kept; auto. Qed.

Lemma cells_floated col : Forall2 kept col (map to_float64 col).
Proof. induction col; simpl; constructor; unfold kept; auto. Qed.

Lemma infer_column_cells S col : Forall2 kept col (infer_column S col).
Proof.
  unfold infer_column.
  repeat match goal with |- context [if ?b then _ else _] => destruct b end;
    auto using cells_kept, cells_floated.
Qed.

(** A string is kept, and only a string gives a string. *)
Lemma kept_of_str s w : kept (VStr s) w -> w = VStr s.
Proof. intros [-> | ->]; reflexivity. Qed.

Lemma kept_str v s : kept v (VStr s) -> v = VStr s.
Proof. intros [H | H]; destruct v; simpl in H; congruence. Qed.

Lemma kept_float x w : kept (VFloat x) w -> w = VFloat x.
Proof. intros [-> | ->]; reflexivity. Qed.

(** A missing value stays [None] or becomes [nan]. *)
Lemma kept_none w : kept VNone w -> w = VNone \/ w = VFloat S754_nan.
Proof. intros [-> | ->]; auto. Qed.

(** The columns of the frame made of ten columns of one length. *)
Lemma zip_rows_columns ids : forall su cs ds dt us cp ac nm co,
  List.length su = List.length ids -> List.length cs = List.length ids ->
  List.length ds = List.length ids -> List.length dt = List.length ids ->
  List.length us = List.length ids -> List.length cp = List.length ids ->
  List.length ac = List.length ids -> List.length nm = List.length ids ->
  List.length co = List.length ids ->
  map r_id (zip_rows ids su cs ds dt us cp ac nm co) = ids /\
  map r_coordinates (zip_rows ids su cs ds dt us cp ac nm co) = cs /\
  map r_description (zip_rows ids su cs ds dt us cp ac nm co) = ds /\
  map r_datetime (zip_rows ids su cs ds dt us cp ac nm co) = dt /\
  map r_usvh (zip_rows ids su cs ds dt us cp ac nm co) = us /\
  map r_cps (zip_rows ids su cs ds dt us cp ac nm co) = cp /\
  map r_accuracy (zip_rows ids su cs ds dt us cp ac nm co) = ac /\
  map r_usvh_normalized (zip_rows ids su cs ds dt us cp ac nm co) = nm /\
  map r_color (zip_rows ids su cs ds dt us cp ac nm co) = co.
Proof.
  induction ids as [| i ids IH];
    intros [| s su] [| x cs] [| y ds] [| d dt] [| u us] [| c cp] [| a ac]
      [| n nm] [| k co]; simpl; intros; try discriminate.
  - repeat split.
  - destruct (IH su cs ds dt us cp ac nm co)
      as (-> & -> & -> & -> & -> & -> & -> & -> & ->); try congruence.
    repeat split.
Qed.

End Frame.

(** ** The pipeline, step by step *)

Module Pipeline.
Import Frame.

(** What [parse_description] returns: either nothing at all, or a string,
    two floats and a string. *)
Definition parsed_shape (f : fields) : Prop :=
  f = no_fields \/
  exists ts u c a,
    f = {| f_datetime := VStr ts; f_usvh := VFloat u;
           f_cps := VFloat c; f_accuracy := VStr a |}.

Lemma parse_description_shape desc f :
  parse_description desc = Ok f -> parsed_shape f.
Proof.
  unfold parse_description, parsed_shape.
  destruct desc as [| d | |]; try discriminate.
  destruct (Re.search pattern d) as [m |]; [| intros [= <-]; auto].
  intros H. apply bind_ok in H as (u & _ & H).
  apply bind_ok in H as (c & _ & H). inversion H; subst. right. eauto.
Qed.


(** Only a string is parsed, and a string is the same in every column
    type. *)
Lemma parse_description_kept v w f :
  kept v w -> parse_description w = Ok f -> w = v.
Proof.
  intros [-> | ->]; [reflexivity |]. now destruct v.
Qed.

Lemma mapM_parse_kept col col' :
  Forall2 kept col col' ->
  forall parsed, mapM parse_description col' = Ok parsed -> col' = col.
Proof.
  induction 1 as [| v w col col' Hk _ IH]; intros parsed H; [reflexivity |].
  cbn [mapM] in H. apply bind_ok in H as (f & Hf & H).
  apply bind_ok in H as (fs & Hfs & _).
  now rewrite (parse_description_kept _ _ _ Hk Hf), (IH _ Hfs).
Qed.

(** The steps of a successful [process_kml]. *)
Record processed (E : env) (path : string) (lo hi : F.float) (cm : string)
    (al : F.float) (df : list row) (root document : Xml.element)
    (dicts : list placemark_dict) (parsed : list fields) : Prop := {
  pr_read : read_kml_content E path = Ok root;
  pr_document : Xml.child root "Document" = Ok document;
  pr_dicts : mapM extract_placemark
               (Xml.findall_descendants document "Placemark") = Ok dicts;
  pr_some : dicts <> [];
  pr_parsed : mapM parse_description (map p_description dicts) = Ok parsed;
  pr_ids : map r_id df = Pandas.infer_column (infer_string E) (map p_id dicts);
  pr_coords : map r_coordinates df
              = Pandas.infer_column (infer_string E) (map p_coordinates dicts);
  pr_datetime : map r_datetime df
                = Pandas.infer_column (infer_string E) (map f_datetime parsed);
  pr_accuracy : map r_accuracy df
                = Pandas.infer_column (infer_string E) (map f_accuracy parsed);
  pr_usvh : map r_usvh df
            = Pandas.infer_column (infer_string E) (map f_usvh parsed);
  pr_cps : map r_cps df
           = Pandas.infer_column (infer_string E) (map f_cps parsed);
  pr_normalized :
    exists normalized,
      mapM (normalize lo hi) (map r_usvh df) = Ok normalized /\
      map r_usvh_normalized df
      = Pandas.infer_column (infer_string E) normalized;
  pr_colors :
    exists colors,
      mapM (fun x => get_color E x cm al) (map r_usvh_normalized df) = Ok colors /\
      map r_color df = map VStr colors
}.

Lemma process_kml_ok E path lo hi cm al df name descr :
  process_kml E path lo hi cm al = Ok (df, name, descr) ->
  exists root document dicts parsed,
    processed E path lo hi cm al df root document dicts parsed.
Proof.
  unfold process_kml. intros H.
  apply bind_ok in H as (root & Hroot & H).
  apply bind_ok in H as (document & Hdoc & H).
  apply bind_ok in H as (nm & _ & H).
  rewrite Hdoc in H. simpl in H.
  apply bind_ok in H as (ds & _ & H). simpl in H.
  apply bind_ok in H as (dicts & Hdicts & H).
  apply bind_ok in H as (descs & Hdescs & H).
  assert (Hne : dicts <> []) by (destruct dicts; discriminate).
  assert (descs = record_column E p_description dicts) as ->
    by (destruct dicts; [discriminate | now inversion Hdescs]).
  apply bind_ok in H as (parsed & Hparsed & H).
  apply bind_ok in H as (normalized & Hnorm & H).
  apply bind_ok in H as (colors & Hcol & H).
  inversion H; subst df name descr; clear H.
  unfold record_column in *.
  pose proof (mapM_parse_kept _ _ (infer_column_cells _ _) _ Hparsed) as Hsame.
  rewrite Hsame in Hparsed.
  pose proof (mapM_ok_length _ _ _ Hparsed) as Lp. rewrite length_map in Lp.
  pose proof (mapM_ok_length _ _ _ Hnorm) as Ln.
  rewrite infer_column_length, length_map in Ln.
  pose proof (mapM_ok_length _ _ _ Hcol) as Lc.
  rewrite infer_column_length in Lc.
  match goal with
  | |- context [zip_rows ?ids ?su ?cs ?ds ?dt ?us ?cp ?ac ?nm ?co] =>
      destruct (zip_rows_columns ids su cs ds dt us cp ac nm co)
        as (Hi & Hco & Hde & Hdt & Hus & Hcp & Hac & Hnm & Hcl)
  end; rewrite ?infer_column_length, ?length_map; try congruence.
  exists root, document, dicts, parsed.
  constructor; try assumption.
  - exists normalized. rewrite Hus, Hnm. auto.
  - exists colors. rewrite Hnm, Hcl. split; [assumption |].
    apply infer_column_strings. clear. induction colors; simpl; auto.
Qed.

(** *** The writer *)

Definition placemark_tag : Xml.qname :=
  {| Xml.ns := kml_ns; Xml.local := "Placemark" |}.

(** The placemark written for a row. *)
Record written_placemark (r : row) (pm : Xml.element) : Prop := {
  wp_usvh : exists u, format_fixed 2 (r_usvh r) = Ok u /\
                      nth_error (Kml.extended_data pm) 1
                      = Some (Kml.data_tag, Some "µSv/h", Some u);
  wp_cps : exists c, format_fixed 1 (r_cps r) = Ok c /\
                     nth_error (Kml.extended_data pm) 2
                     = Some (Kml.data_tag, Some "cps", Some c);
  wp_accuracy : exists n, py_int (r_accuracy r) = Ok n /\
                          nth_error (Kml.extended_data pm) 3
                          = Some (Kml.data_tag, Some "Accuracy (m)", Some (Str.of_Z n));
  wp_time : nth_error (Kml.extended_data pm) 0
            = Some (Kml.data_tag, Some "Time",
                    match r_datetime r with
                    | VNone => None
                    | v => Some (py_str v)
                    end);
  wp_four : List.length (Kml.extended_data pm) = 4%nat;
  wp_coords : exists c, coordinates_text (r_coordinates r) = Ok c /\
                        Kml.point_coordinates pm = Some c;
  wp_color : Kml.icon_color pm = match r_color r with
                                 | VNone => None
                                 | v => Some (py_str v)
                                 end;
  wp_id : Kml.id pm = Some (py_str (r_id r));
  wp_tag : Xml.tag_of pm = placemark_tag
}.

Lemma placemark_of_row_ok r pm :
  placemark_of_row r = Ok pm -> written_placemark r pm.
Proof.
  unfold placemark_of_row. intros H.
  apply bind_ok in H as (u & Hu & H).
  apply bind_ok in H as (c & Hc & H).
  apply bind_ok in H as (n & Hn & H).
  apply bind_ok in H as (co & Hco & H).
  inversion H; subst pm; clear H.
  constructor; try (eexists; split; [eassumption | reflexivity]);
    try reflexivity.
  - now destruct (r_datetime r).
  - now destruct (r_color r).
Qed.

Lemma fold_append_children pms : forall e,
  Xml.children_of (fold_left Xml.append pms e) = (Xml.children_of e ++ pms)%list
  /\ Xml.tag_of (fold_left Xml.append pms e) = Xml.tag_of e.
Proof.
  induction pms as [| pm pms IH]; intros [t a x cs]; simpl.
  - now rewrite app_nil_r.
  - destruct (IH (Xml.Elem t a x (cs ++ [pm]))) as [-> ->]. simpl.
    now rewrite <- app_assoc.
Qed.

Lemma header_not_placemark E tag x default :
  tag <> "Placemark" -> Kml.is_placemark (header E tag x default) = false.
Proof.
  intros Ht. unfold header, Kml.is_placemark.
  assert (String.eqb tag "Placemark" = false) by now apply String.eqb_neq.
  destruct x as [e |]; [destruct (truthy E e) |]; simpl;
    unfold Xml.qname_eqb; simpl; rewrite H;
    (reflexivity || apply andb_false_r).
Qed.

Lemma filter_all {A : Type} (f : A -> bool) (l : list A) :
  Forall (fun x => f x = true) l -> filter f l = l.
Proof.
  induction 1 as [| x l Hx _ IH]; simpl; [reflexivity |]. now rewrite Hx, IH.
Qed.

(** The placemarks of the document the writer returns are the ones of its
    loop, one for each row and in the order of the rows. *)
Lemma create_kml_ok E df name descr doc :
  create_kml_from_dataframe E df name descr = Ok doc ->
  Forall2 written_placemark df (Kml.placemarks doc).
Proof.
  unfold create_kml_from_dataframe. intros H.
  apply bind_ok in H as (pms & Hpms & H). inversion H; subst doc; clear H.
  apply mapM_ok_forall2 in Hpms.
  assert (Hw : Forall2 written_placemark df pms).
  { induction Hpms; constructor; auto using placemark_of_row_ok. }
  unfold Kml.placemarks, Xml.find_child. simpl.
  match goal with
  | |- context [fold_left Xml.append pms ?e] =>
      destruct (fold_append_children pms e) as [Hc Ht]
  end.
  rewrite Ht. simpl. rewrite Hc. simpl.
  rewrite !header_not_placemark by discriminate.
  rewrite filter_all; [exact Hw |].
  clear - Hw. induction Hw as [| r pm df pms Hr _ IH]; constructor; auto.
  unfold Kml.is_placemark. now rewrite (wp_tag _ _ Hr).
Qed.

(** *** The whole run *)

Lemma main_written E a doc :
  written (main E a) = Some doc ->
  exists df name descr,
    process_kml E (input_file a) (arg_min a) (arg_max a) (arg_cmap a)
      (arg_alpha a) = Ok (df, name, descr) /\
    create_kml_from_dataframe E df (Some name) (Some descr) = Ok doc.
Proof.
  unfold main.
  destruct (negb (path_exists E (input_file a))); [discriminate |].
  destruct (negb _); [discriminate |]. simpl.
  destruct (convert E a) as [[out kml] | e] eqn:Hc;
    [destruct (writable E out) |]; try discriminate.
  intros [= <-]. unfold convert in Hc.
  apply bind_ok in Hc as ([[df name] descr] & Hp & Hc).
  apply bind_ok in Hc as (o & _ & Hc).
  apply bind_ok in Hc as (k & Hk & Hc). inversion Hc; subst. eauto.
Qed.

(** Nothing is written unless both halves of the run succeed. *)
Lemma main_not_written E a :
  (forall df name descr,
     process_kml E (input_file a) (arg_min a) (arg_max a) (arg_cmap a)
       (arg_alpha a) = Ok (df, name, descr) ->
     is_ok (create_kml_from_dataframe E df (Some name) (Some descr)) = false) ->
  written (main E a) = None.
Proof.
  intros H. destruct (written (main E a)) as [doc |] eqn:Hw; [| reflexivity].
  apply main_written in Hw as (df & name & descr & Hp & Hc).
  specialize (H _ _ _ Hp). now rewrite Hc in H.
Qed.


(** *** From the placemarks of the input to the rows of the frame *)

Lemma Forall2_compose {A B C : Type} (R : A -> B -> Prop) (S : B -> C -> Prop)
    l1 l2 l3 :
  Forall2 R l1 l2 -> Forall2 S l2 l3 ->
  Forall2 (fun a c => exists b, R a b /\ S b c) l1 l3.
Proof.
  intros H. revert l3. induction H as [| a b l1 l2 Hab _ IH]; intros l3 H3;
    inversion H3; subst; constructor; eauto.
Qed.

Lemma Forall2_conj {A B : Type} (R S : A -> B -> Prop) l1 l2 :
  Forall2 R l1 l2 -> Forall2 S l1 l2 -> Forall2 (fun a b => R a b /\ S a b) l1 l2.
Proof.
  induction 1; intros H2; inversion H2; subst; constructor; auto.
Qed.

Lemma Forall2_impl {A B : Type} (R S : A -> B -> Prop) l1 l2 :
  (forall a b, R a b -> S a b) -> Forall2 R l1 l2 -> Forall2 S l1 l2.
Proof. induction 2; constructor; auto. Qed.

Lemma Forall2_maps {A B C : Type} (f : A -> C) (g : B -> C) l1 l2 :
  map f l1 = map g l2 -> Forall2 (fun a b => f a = g b) l1 l2.
Proof.
  revert l2; induction l1 as [| a l1 IH]; intros [| b l2]; simpl; intros H;
    try discriminate; constructor; inversion H; auto.
Qed.

Lemma Forall2_map_r {A B C : Type} (R : A -> C -> Prop) (g : B -> C) l1 l2 :
  Forall2 R l1 (map g l2) -> Forall2 (fun a b => R a (g b)) l1 l2.
Proof.
  revert l1; induction l2 as [| b l2 IH]; intros l1 H; inversion H; subst;
    constructor; auto.
Qed.

Lemma Forall2_map_l {A B C : Type} (R : C -> B -> Prop) (f : A -> C) l1 l2 :
  Forall2 R (map f l1) l2 -> Forall2 (fun a b => R (f a) b) l1 l2.
Proof.
  revert l2; induction l1 as [| a l1 IH]; intros l2 H; inversion H; subst;
    constructor; auto.
Qed.

Lemma Forall2_in_l {A B : Type} (R : A -> B -> Prop) l1 l2 a :
  Forall2 R l1 l2 -> In a l1 -> exists b, In b l2 /\ R a b.
Proof.
  induction 1 as [| x y l1 l2 Hxy _ IH]; simpl; [contradiction |].
  intros [-> | Hin]; [eauto |]. destruct (IH Hin) as (b & Hb & Hab); eauto.
Qed.



(** What [extract_placemark] makes of a placemark. *)
Definition extracted (p : Xml.element) (d : placemark_dict) : Prop :=
  p_id d = of_text (Xml.get p "id") /\
  p_coordinates d = of_text (Kml.text_at p ["Point"; "coordinates"]) /\
  p_description d = of_text (Kml.text_at p ["description"]) /\
  Xml.find_child p "styleUrl" <> None /\
  Xml.find_child p "description" <> None.

Lemma child_ok e name c :
  Xml.child e name = Ok c -> Xml.find_child e name = Some c.
Proof. unfold Xml.child. destruct (Xml.find_child e name); congruence. Qed.

Lemma extract_placemark_ok p d : extract_placemark p = Ok d -> extracted p d.
Proof.
  unfold extract_placemark, extracted. intros H.
  apply bind_ok in H as (st & Hst & H).
  apply bind_ok in H as (pt & Hpt & H).
  apply bind_ok in H as (co & Hco & H).
  apply bind_ok in H as (de & Hde & H). inversion H; subst d; clear H. simpl.
  apply child_ok in Hst, Hpt, Hco, Hde.
  unfold Kml.text_at. simpl. rewrite Hpt, Hco, Hde, Hst.
  repeat split; discriminate.
Qed.

(** The only exception of the extraction is [AttributeError]. *)
Lemma extract_placemark_raises p e :
  extract_placemark p = Raise e -> e = AttributeError.
Proof.
  unfold extract_placemark, Xml.child.
  repeat match goal with
  | |- context [Xml.find_child ?x ?n] => destruct (Xml.find_child x n); simpl
  end; congruence.
Qed.

Lemma extract_placemark_missing p :
  Xml.find_child p "styleUrl" = None \/ Xml.find_child p "description" = None ->
  extract_placemark p = Raise AttributeError.
Proof.
  intros H. destruct (extract_placemark p) as [d | e] eqn:Hd.
  - apply extract_placemark_ok in Hd as (_ & _ & _ & H1 & H2). tauto.
  - now rewrite (extract_placemark_raises _ _ Hd).
Qed.

Lemma mapM_extract_raises ps p :
  In p ps -> extract_placemark p = Raise AttributeError ->
  mapM extract_placemark ps = Raise AttributeError.
Proof.
  induction ps as [| x ps IH]; simpl; [contradiction |].
  intros [-> | Hin] Hp.
  - now rewrite Hp.
  - destruct (extract_placemark x) as [d | e] eqn:Hx; simpl.
    + now rewrite (IH Hin Hp).
    + now rewrite (extract_placemark_raises _ _ Hx).
Qed.

(** A row of the frame against the placemark it comes from: the cells are
    those of the placemark and of its parsed description, as the columns
    keep them. *)
Definition row_of (p : Xml.element) (r : row) : Prop :=
  exists f,
    parse_description (of_text (Kml.text_at p ["description"])) = Ok f /\
    kept (of_text (Xml.get p "id")) (r_id r) /\
    kept (of_text (Kml.text_at p ["Point"; "coordinates"])) (r_coordinates r) /\
    kept (f_datetime f) (r_datetime r) /\
    kept (f_accuracy f) (r_accuracy r) /\
    kept (f_usvh f) (r_usvh r) /\
    kept (f_cps f) (r_cps r).

Lemma column_cells {A : Type} (f : A -> value) (g : row -> value) S l df :
  map g df = Pandas.infer_column S (map f l) ->
  Forall2 (fun a r => kept (f a) (g r)) l df.
Proof.
  intros H. pose proof (infer_column_cells S (map f l)) as Hc.
  rewrite <- H in Hc. now apply Forall2_map_l, Forall2_map_r in Hc.
Qed.

Lemma processed_rows E path lo hi cm al df root document dicts parsed :
  processed E path lo hi cm al df root document dicts parsed ->
  Forall2 row_of (Xml.findall_descendants document "Placemark") df.
Proof.
  intros [_ _ Hdicts _ Hparsed Hid Hco Hdt Hac Hus Hcp _ _].
  apply mapM_ok_forall2 in Hdicts, Hparsed.
  apply Forall2_map_l in Hparsed.
  assert (Hex : Forall2 extracted (Xml.findall_descendants document "Placemark") dicts)
    by (eapply Forall2_impl; [| exact Hdicts]; auto using extract_placemark_ok).
  apply column_cells in Hid, Hco, Hdt, Hac, Hus, Hcp.
  pose proof (Forall2_conj _ _ _ _ Hid Hco) as Hrows.
  pose proof (Forall2_conj _ _ _ _ (Forall2_conj _ _ _ _ Hdt Hac)
                (Forall2_conj _ _ _ _ Hus Hcp)) as Hfields.
  pose proof (Forall2_compose _ _ _ _ _ Hparsed Hfields) as H2.
  pose proof (Forall2_compose _ _ _ _ _ Hex (Forall2_conj _ _ _ _ Hrows H2)) as H3.
  eapply Forall2_impl; [| exact H3].
  intros p r (d & (Hi & Hc & Hd & _) & (Hri & Hrc) & f & Hf &
              (Hdt' & Hac') & Hus' & Hcp').
  exists f. rewrite <- Hd, <- Hi, <- Hc. repeat split; auto.
Qed.

End Pipeline.

(** ** Comparison and subtraction of floats *)

Module FloatFacts.

(** Swapping the arguments of a comparison reverses its outcome. *)
Lemma compare_antisym x y c :
  SFcompare x y = Some c -> SFcompare y x = Some (CompOpp c).
Proof.
  destruct x as [sx | sx | | sx mx ex], y as [sy | sy | | sy my ey]; simpl;
    try discriminate; intros [= <-];
    try (destruct sx; reflexivity); try (destruct sy; reflexivity);
    try (destruct sx, sy; reflexivity).
  destruct sx, sy; try reflexivity;
    rewrite (Z.compare_antisym ey ex);
    destruct (ey ?= ex)%Z; simpl; try reflexivity;
    rewrite ?CompOpp_involutive;
    first [ now rewrite (Pos.compare_cont_antisym mx my Eq)
          | now rewrite (Pos.compare_cont_antisym my mx Eq) ].
Qed.

Lemma compare_nan_iff x y :
  SFcompare x y = None <-> F.is_nan x = true \/ F.is_nan y = true.
Proof.
  destruct x as [sx | sx | | sx mx ex], y as [sy | sy | | sy my ey]; simpl;
    split; intros H; try discriminate; auto;
    destruct H; discriminate.
Qed.

(** [not (x < y)] is [y <= x] unless one of them is [nan]. *)
Lemma not_ltb_leb x y :
  F.is_nan x = false -> F.is_nan y = false ->
  F.ltb x y = false -> F.leb y x = true.
Proof.
  intros Hx Hy. unfold F.ltb, F.leb, SFltb, SFleb.
  destruct (SFcompare x y) as [c |] eqn:Hc.
  - rewrite (compare_antisym _ _ _ Hc). now destruct c.
  - apply compare_nan_iff in Hc as [H | H]; congruence.
Qed.

Lemma ltb_leb x y : F.ltb x y = true -> F.leb x y = true.
Proof.
  unfold F.ltb, F.leb, SFltb, SFleb.
  now destruct (SFcompare x y) as [[] |].
Qed.

(** Equal finite floats have a zero difference. *)
Lemma sub_eq_zero x y :
  F.is_finite x = true -> F.eqb x y = true -> F.is_zero (F.sub y x) = true.
Proof.
  unfold F.eqb, SFeqb, F.sub. intros Hf He.
  destruct x as [sx | sx | | sx mx ex], y as [sy | sy | | sy my ey];
    simpl in *; try discriminate;
    try (destruct sx; discriminate); try (destruct sy; discriminate).
  - now destruct sx, sy.
  - assert (sx = sy /\ ex = ey /\ mx = my) as (-> & -> & ->).
    { destruct sx, sy; try discriminate;
        destruct (ex ?= ey)%Z eqn:Hz; try discriminate;
        apply Z.compare_eq in Hz;
        destruct (Pos.compare_cont Eq mx my) eqn:Hm; try discriminate;
        apply Pos.compare_eq in Hm; auto. }
    now rewrite Z.sub_diag.
Qed.

End FloatFacts.

(** ** Runs *)

Module Run.
Import Pipeline.

Lemma main_accepted E a :
  accepted E a = true ->
  main E a =
  Opened (input_file a) ::
  match convert E a with
  | Ok (output_path, kml) =>
      if writable E output_path then [Wrote output_path kml]
      else [Printed (ProcessingError OSError)]
  | Raise e => [Printed (ProcessingError e)]
  end.
Proof.
  unfold accepted, main. intros H. apply andb_true_iff in H as [-> ->].
  reflexivity.
Qed.

Lemma main_process_raises E a e :
  accepted E a = true ->
  process_kml E (input_file a) (arg_min a) (arg_max a) (arg_cmap a)
    (arg_alpha a) = Raise e ->
  main E a = [Opened (input_file a); Printed (ProcessingError e)].
Proof.
  intros Ha Hp. rewrite (main_accepted _ _ Ha). unfold convert. now rewrite Hp.
Qed.

(** An accepted run that writes nothing prints the error that stopped it. *)
Lemma main_aborted E a :
  accepted E a = true -> written (main E a) = None ->
  exists e, main E a = [Opened (input_file a); Printed (ProcessingError e)].
Proof.
  intros Ha. rewrite (main_accepted _ _ Ha). simpl.
  destruct (convert E a) as [[out kml] | e]; [| eauto].
  destruct (writable E out); [discriminate | eauto].
Qed.

Lemma child_raises e name x : Xml.child e name = Raise x -> x = AttributeError.
Proof. unfold Xml.child. destruct (Xml.find_child e name); congruence. Qed.

(** The rows and the placemarks of a run that wrote its document. *)
Lemma written_run E a doc :
  written (main E a) = Some doc ->
  exists root document df,
    read_kml_content E (input_file a) = Ok root /\
    Xml.child root "Document" = Ok document /\
    Forall2 row_of (Xml.findall_descendants document "Placemark") df /\
    Forall2 written_placemark df (Kml.placemarks doc).
Proof.
  intros H. apply main_written in H as (df & name & descr & Hp & Hc).
  apply process_kml_ok in Hp as (root & document & dicts & parsed & Hp).
  exists root, document, df. repeat split.
  - exact (pr_read _ _ _ _ _ _ _ _ _ _ _ Hp).
  - exact (pr_document _ _ _ _ _ _ _ _ _ _ _ Hp).
  - eapply processed_rows; eauto.
  - eapply create_kml_ok; eauto.
Qed.

(** A written row was parsed: its description is a string that matched and
    its four fields are a string, two floats and a string of digits. *)
Lemma written_row_parsed p r pm :
  row_of p r -> written_placemark r pm ->
  exists d ts u c acc n,
    Kml.text_at p ["description"] = Some d /\
    parse_description (VStr d)
    = Ok {| f_datetime := VStr ts; f_usvh := VFloat u;
            f_cps := VFloat c; f_accuracy := VStr acc |} /\
    Py.int_of_str acc = Ok n /\
    r_datetime r = VStr ts /\ r_usvh r = VFloat u /\ r_cps r = VFloat c /\
    r_accuracy r = VStr acc.
Proof.
  intros (f & Hf & _ & _ & Hdt & Hac & Hus & Hcp) Hw.
  destruct (wp_accuracy _ _ Hw) as (n & Hn & _).
  destruct (Kml.text_at p ["description"]) as [d |]; [| discriminate].
  unfold of_text in Hf.
  pose proof (parse_description_shape _ _ Hf) as Hs.
  destruct Hs as [-> | (ts & u & c & acc & ->)]; simpl in Hdt, Hac, Hus, Hcp.
  - apply Frame.kept_none in Hac as [Hac | Hac]; rewrite Hac in Hn; discriminate.
  - apply Frame.kept_of_str in Hdt, Hac. apply Frame.kept_float in Hus, Hcp.
    exists d, ts, u, c, acc, n. rewrite Hac in Hn. simpl in Hn.
    repeat split; auto.
Qed.

End Run.

(** ** Rounding to binary64 *)

Module Round.

(** Number of binary digits. *)
Definition dg (m : positive) : Z := Zpos (digits2_pos m).

Lemma dg_bounds m : 2 ^ (dg m - 1) <= Zpos m < 2 ^ dg m.
Proof.
  unfold dg. induction m as [m IH | m IH |]; simpl digits2_pos.
  - rewrite Pos2Z.inj_succ, Z.pow_succ_r by lia.
    replace (Z.succ (Zpos (digits2_pos m)) - 1) with (Z.succ (Zpos (digits2_pos m) - 1)) by lia.
    rewrite Z.pow_succ_r by lia. lia.
  - rewrite Pos2Z.inj_succ, Z.pow_succ_r by lia.
    replace (Z.succ (Zpos (digits2_pos m)) - 1) with (Z.succ (Zpos (digits2_pos m) - 1)) by lia.
    rewrite Z.pow_succ_r by lia. lia.
  - simpl. lia.
Qed.

Lemma dg_pos m : 1 <= dg m.
Proof. unfold dg. lia. Qed.

Lemma dg_unique m d : 2 ^ (d - 1) <= Zpos m < 2 ^ d -> dg m = d.
Proof.
  intros [H1 H2]. pose proof (dg_bounds m) as [B1 B2]. pose proof (dg_pos m).
  destruct (Z.lt_trichotomy (dg m) d) as [Hlt | [Heq | Hgt]]; [| exact Heq |].
  - assert (2 ^ dg m <= 2 ^ (d - 1)) by (apply Z.pow_le_mono_r; lia). lia.
  - assert (0 <= d).
    { destruct (Z.le_gt_cases 0 d); [assumption |].
      rewrite (Z.pow_neg_r 2 d) in H2 by lia. lia. }
    assert (2 ^ d <= 2 ^ (dg m - 1)) by (apply Z.pow_le_mono_r; lia). lia.
Qed.

(** One step of [shr] on a non-negative mantissa. *)
Lemma shr_1_spec m r s :
  0 <= m ->
  shr_1 {| shr_m := m; shr_r := r; shr_s := s |}
  = {| shr_m := m / 2; shr_r := Z.odd m; shr_s := r || s |}.
Proof.
  intros Hm. destruct m as [| p | p]; [reflexivity | | lia].
  destruct p as [p | p |]; simpl shr_1; f_equal.
  - rewrite Pos2Z.inj_xI. rewrite Z.mul_comm, Z.div_add_l by lia.
    change (1 / 2) with 0. lia.
  - rewrite Pos2Z.inj_xO. now rewrite Z.mul_comm, Z.div_mul by lia.
Qed.

Lemma iter_pos_nat {A : Type} (f : A -> A) p : forall x,
  iter_pos f p x = Nat.iter (Pos.to_nat p) f x.
Proof.
  induction p as [p IH | p IH |]; intros x; simpl iter_pos.
  - rewrite !IH, Pos2Nat.inj_xI.
    replace (S (2 * Pos.to_nat p)) with (Pos.to_nat p + (Pos.to_nat p + 1))%nat by lia.
    rewrite !Nat.iter_add. reflexivity.
  - rewrite !IH, Pos2Nat.inj_xO.
    replace (2 * Pos.to_nat p)%nat with (Pos.to_nat p + Pos.to_nat p)%nat by lia.
    rewrite Nat.iter_add. reflexivity.
  - reflexivity.
Qed.

(** The record after [n] steps. *)
Definition shifted (m : Z) (r s : bool) (n : nat) : shr_record :=
  match n with
  | O => {| shr_m := m; shr_r := r; shr_s := s |}
  | S n' =>
      {| shr_m := m / 2 ^ Z.of_nat n;
         shr_r := Z.odd (m / 2 ^ Z.of_nat n');
         shr_s := negb (m mod 2 ^ Z.of_nat n' =? 0) || (r || s) |}
  end.

Lemma iter_shr_1 m r s n :
  0 <= m ->
  Nat.iter n shr_1 {| shr_m := m; shr_r := r; shr_s := s |} = shifted m r s n.
Proof.
  intros Hm. induction n as [| n IH]; [reflexivity |].
  simpl Nat.iter. rewrite IH. destruct n as [| n].
  - unfold shifted. rewrite shr_1_spec by assumption.
    change (2 ^ Z.of_nat 1) with 2. change (2 ^ Z.of_nat 0) with 1.
    rewrite Z.div_1_r, Z.mod_1_r. reflexivity.
  - unfold shifted. rewrite shr_1_spec by (apply Z.div_pos; lia).
    replace (Z.of_nat (S (S n))) with (Z.of_nat (S n) + 1) by lia.
    rewrite Z.pow_add_r, Z.pow_1_r by lia.
    rewrite Z.div_div by lia. f_equal.
    replace (Z.of_nat (S n)) with (Z.of_nat n + 1) by lia.
    rewrite Z.pow_add_r, Z.pow_1_r by lia.
    rewrite (Z.rem_mul_r m (2 ^ Z.of_nat n) 2) by lia.
    set (a := m mod 2 ^ Z.of_nat n). set (b := m / 2 ^ Z.of_nat n).
    assert (0 <= a) by (apply Z.mod_pos_bound; lia).
    assert (Hp : 0 < 2 ^ Z.of_nat n) by lia.
    rewrite (Zodd_mod b).
    assert (0 <= b mod 2 < 2) by (apply Z.mod_pos_bound; lia).
    destruct (Z.eqb_spec (b mod 2) 1) as [Hb | Hb];
      destruct (Z.eqb_spec a 0) as [Ha | Ha];
      destruct (Z.eqb_spec (a + 2 ^ Z.of_nat n * (b mod 2)) 0) as [Hc | Hc];
      simpl; try reflexivity; try nia; destruct r, s; simpl; try reflexivity; nia.
Qed.


Definition fexp (e : Z) : Z := SpecFloat.fexp F.prec F.emax e.
Definition emin : Z := SpecFloat.emin F.prec F.emax.

Lemma fexp_eq e : fexp e = Z.max (e - 53) (-1074).
Proof. reflexivity. Qed.

(** The record after a shift by [k] places, if [k] is positive. *)
Definition shift (m : Z) (r s : bool) (k : Z) : shr_record :=
  match k with
  | Zpos p => shifted m r s (Pos.to_nat p)
  | _ => {| shr_m := m; shr_r := r; shr_s := s |}
  end.

Lemma shr_spec m r s e k :
  0 <= m ->
  shr {| shr_m := m; shr_r := r; shr_s := s |} e k
  = (shift m r s k, if 0 <? k then e + k else e).
Proof.
  intros Hm. destruct k as [| p | p]; simpl; try reflexivity.
  now rewrite iter_pos_nat, iter_shr_1.
Qed.

Lemma shift_m m r s k :
  0 <= m -> shr_m (shift m r s k) = m / 2 ^ Z.max k 0.
Proof.
  intros Hm. destruct k as [| p | p];
    try (simpl; rewrite Z.div_1_r; reflexivity).
  replace (Z.max (Zpos p) 0) with (Zpos p) by lia.
  cbn [shift]. rewrite <- (positive_nat_Z p).
  destruct (Pos.to_nat p) eqn:Hp; [lia |]. reflexivity.
Qed.

Definition loc_r (l : location) : bool :=
  match l with loc_Inexact Eq | loc_Inexact Gt => true | _ => false end.
Definition loc_s (l : location) : bool :=
  match l with loc_Inexact Lt | loc_Inexact Gt => true | _ => false end.

Lemma record_of_loc m l :
  shr_record_of_loc m l = {| shr_m := m; shr_r := loc_r l; shr_s := loc_s l |}.
Proof. now destruct l as [| []]. Qed.

Lemma shr_fexp_spec m e l :
  0 <= m ->
  shr_fexp F.prec F.emax m e l
  = (shift m (loc_r l) (loc_s l) (fexp (Zdigits2 m + e) - e),
     if 0 <? fexp (Zdigits2 m + e) - e then fexp (Zdigits2 m + e) else e).
Proof.
  intros Hm. unfold shr_fexp. rewrite record_of_loc, shr_spec by assumption.
  fold (fexp (Zdigits2 m + e)). f_equal.
  destruct (0 <? _); [lia | reflexivity].
Qed.

(** Rounding to nearest, ties to even, of a record. *)
Definition rne (rec : shr_record) : Z :=
  round_nearest_even (shr_m rec) (loc_of_shr_record rec).

Lemma rne_spec m r s :
  rne {| shr_m := m; shr_r := r; shr_s := s |}
  = if r && (s || Z.odd m) then m + 1 else m.
Proof.
  unfold rne. rewrite <- Z.negb_even.
  destruct r, s; simpl; destruct (Z.even m); reflexivity.
Qed.

Lemma rne_bounds rec : shr_m rec <= rne rec <= shr_m rec + 1.
Proof.
  destruct rec as [m r s]. rewrite rne_spec. simpl.
  destruct (r && _); lia.
Qed.

(** [binary_round_aux] in two shifts. *)
Definition finish (s : bool) (m e : Z) : spec_float :=
  match m with
  | Z0 => S754_zero s
  | Zpos p => if e <=? 971 then S754_finite s p e else S754_infinity s
  | Zneg _ => S754_nan
  end.

Lemma bra_spec s m e l :
  0 <= m ->
  let k1 := fexp (Zdigits2 m + e) - e in
  let e1 := if 0 <? k1 then fexp (Zdigits2 m + e) else e in
  let m2 := rne (shift m (loc_r l) (loc_s l) k1) in
  let k2 := fexp (Zdigits2 m2 + e1) - e1 in
  let e3 := if 0 <? k2 then fexp (Zdigits2 m2 + e1) else e1 in
  binary_round_aux F.prec F.emax s m e l
  = finish s (m2 / 2 ^ Z.max k2 0) e3.
Proof.
  intros Hm k1 e1 m2 k2 e3. unfold binary_round_aux.
  rewrite shr_fexp_spec by assumption. fold k1 e1.
  change (round_nearest_even _ _) with m2.
  assert (Hm2 : 0 <= m2).
  { pose proof (rne_bounds (shift m (loc_r l) (loc_s l) k1)) as [H _].
    rewrite shift_m in H by assumption.
    assert (0 <= m / 2 ^ Z.max k1 0) by (apply Z.div_pos; lia). unfold m2. lia. }
  rewrite shr_fexp_spec by assumption. fold k2 e3.
  rewrite shift_m by assumption. reflexivity.
Qed.


Lemma finish_shape s m e :
  0 <= m ->
  (m = 0 /\ finish s m e = S754_zero s) \/
  (exists p, m = Zpos p /\ e <= 971 /\ finish s m e = S754_finite s p e) \/
  (0 < m /\ 971 < e /\ finish s m e = S754_infinity s).
Proof.
  intros Hm. destruct m as [| p | p]; [auto | | lia]. simpl.
  destruct (Z.leb_spec e 971); [right; left; eauto | right; right].
  repeat split; lia.
Qed.

(** What [binary_round_aux] returns for a non-negative mantissa. *)
Lemma bra_finish s m e l :
  0 <= m ->
  exists m3 e3, 0 <= m3 /\ binary_round_aux F.prec F.emax s m e l = finish s m3 e3.
Proof.
  intros Hm. rewrite bra_spec by assumption.
  eexists _, _. split; [| reflexivity].
  apply Z.div_pos; [| lia].
  match goal with |- 0 <= rne ?rec => pose proof (rne_bounds rec) as [H _] end.
  rewrite shift_m in H by assumption.
  assert (0 <= m / 2 ^ Z.max (fexp (Zdigits2 m + e) - e) 0) by (apply Z.div_pos; lia).
  lia.
Qed.

(** A value is [signed s]: zero, finite or infinite of sign [s]. *)
Definition signed (s : bool) (x : spec_float) : Prop :=
  x = S754_zero s \/ (exists m e, x = S754_finite s m e) \/ x = S754_infinity s.

Definition strictly (s : bool) (x : spec_float) : Prop :=
  (exists m e, x = S754_finite s m e) \/ x = S754_infinity s.

Lemma bra_signed s m e l :
  0 <= m -> signed s (binary_round_aux F.prec F.emax s m e l).
Proof.
  intros Hm. destruct (bra_finish s m e l Hm) as (m3 & e3 & H3 & ->).
  destruct (finish_shape s m3 e3 H3) as [[_ ->] | [(p & _ & _ & ->) | (_ & _ & ->)]];
    unfold signed; eauto.
Qed.

(** Shifting to the canonical exponent keeps a positive mantissa positive
    above the least exponent. *)
Lemma shift_keeps_positive m e :
  0 < m -> emin <= e ->
  0 < m / 2 ^ Z.max (fexp (Zdigits2 m + e) - e) 0.
Proof.
  intros Hm He. destruct m as [| p | p]; try lia.
  change (Zdigits2 (Zpos p)) with (dg p).
  pose proof (dg_bounds p) as [B1 B2]. pose proof (dg_pos p) as Hd.
  rewrite fexp_eq. unfold emin, SpecFloat.emin, F.prec, F.emax in He.
  set (k := Z.max (Z.max (dg p + e - 53) (-1074) - e) 0).
  assert (Hk : 0 <= k <= dg p - 1) by (unfold k; lia).
  assert (2 ^ k <= 2 ^ (dg p - 1)) by (apply Z.pow_le_mono_r; lia).
  assert (0 < 2 ^ k) by (apply Z.pow_pos_nonneg; lia).
  apply Z.div_str_pos. lia.
Qed.

Lemma bra_strictly s m e l :
  0 < m -> emin <= e -> strictly s (binary_round_aux F.prec F.emax s m e l).
Proof.
  intros Hm He. rewrite bra_spec by lia. cbv zeta.
  set (k1 := fexp (Zdigits2 m + e) - e).
  set (e1 := if 0 <? k1 then fexp (Zdigits2 m + e) else e).
  set (m2 := rne (shift m (loc_r l) (loc_s l) k1)).
  assert (Hm2 : 0 < m2).
  { pose proof (rne_bounds (shift m (loc_r l) (loc_s l) k1)) as [H _].
    rewrite shift_m in H by lia.
    pose proof (shift_keeps_positive m e Hm He) as H'. fold k1 in H'.
    unfold m2. lia. }
  assert (He1 : emin <= e1).
  { unfold e1. destruct (0 <? k1); [| assumption].
    rewrite fexp_eq. unfold emin, SpecFloat.emin, F.prec, F.emax. lia. }
  pose proof (shift_keeps_positive m2 e1 Hm2 He1) as H3.
  match goal with |- strictly s (finish s ?m3 ?e3) =>
    destruct (finish_shape s m3 e3 ltac:(lia))
      as [[H0 _] | [(p & _ & _ & ->) | (_ & _ & ->)]]
  end; unfold strictly; eauto. lia.
Qed.

Lemma valid_finite s m e :
  F.valid (S754_finite s m e) = true ->
  emin <= e <= 971 /\ dg m <= 53 /\ (emin < e -> dg m = 53).
Proof.
  unfold F.valid, valid_binary, bounded, canonical_mantissa.
  intros H. apply andb_true_iff in H as [H1 H2].
  apply Z.eqb_eq in H1. apply Z.leb_le in H2.
  change (SpecFloat.fexp F.prec F.emax) with fexp in H1. rewrite fexp_eq in H1.
  fold (dg m) in H1.
  unfold emin, SpecFloat.emin, F.prec, F.emax in *. lia.
Qed.


(** *** Alignment and subtraction *)

Lemma iter_xO m d : Zpos (Pos.iter xO m d) = Zpos m * 2 ^ Zpos d.
Proof.
  induction d as [| d IH] using Pos.peano_ind.
  - simpl. lia.
  - rewrite Pos.iter_succ, Pos2Z.inj_xO, IH, Pos2Z.inj_succ, Z.pow_succ_r by lia.
    lia.
Qed.

Lemma shl_align_below m e t :
  t <= e -> shl_align m e t = (fst (shl_align m e t), t)
            /\ Zpos (fst (shl_align m e t)) = Zpos m * 2 ^ (e - t).
Proof.
  intros H. unfold shl_align. destruct (t - e) as [| d | d] eqn:Hd; try lia.
  - assert (t = e) as -> by lia. rewrite Z.sub_diag. simpl. split; [reflexivity | lia].
  - simpl. rewrite iter_xO. replace (e - t) with (Zpos d) by lia. auto.
Qed.

Lemma shl_align_above m e t : e <= t -> shl_align m e t = (m, e).
Proof.
  intros H. unfold shl_align. destruct (t - e) as [| d | d] eqn:Hd; try lia;
    reflexivity.
Qed.

Lemma binary_round_strictly s m e :
  emin <= e -> strictly s (binary_round F.prec F.emax s m e).
Proof.
  intros He. unfold binary_round.
  change (SpecFloat.fexp F.prec F.emax) with fexp.
  destruct (Z.le_gt_cases e (fexp (Zpos (digits2_pos m) + e))) as [Hle | Hgt].
  - rewrite shl_align_above by assumption. apply bra_strictly; [lia | assumption].
  - destruct (shl_align_below m e (fexp (Zpos (digits2_pos m) + e)) ltac:(lia))
      as [-> _].
    apply bra_strictly; [lia |]. rewrite fexp_eq.
    unfold emin, SpecFloat.emin, F.prec, F.emax. lia.
Qed.

(** The sign of a finite difference is the sign of the difference of the
    aligned mantissas. *)
Lemma normalize_sign d e :
  emin <= e ->
  match d with
  | Z0 => binary_normalize F.prec F.emax d e false = S754_zero false
  | Zpos _ => strictly false (binary_normalize F.prec F.emax d e false)
  | Zneg _ => strictly true (binary_normalize F.prec F.emax d e false)
  end.
Proof.
  intros He. destruct d; simpl; auto using binary_round_strictly.
Qed.

Lemma strictly_signed s x : strictly s x -> signed s x.
Proof. unfold strictly, signed. tauto. Qed.

Lemma signed_not_nan s x : signed s x -> F.is_nan x = false.
Proof. intros [-> | [(m & e & ->) | ->]]; reflexivity. Qed.

(** The difference of two finite floats is never [nan]. *)
Lemma sub_not_nan x y :
  F.is_finite x = true -> F.is_finite y = true -> F.is_nan (F.sub x y) = false.
Proof.
  destruct x as [sx | sx | | sx mx ex], y as [sy | sy | | sy my ey];
    try discriminate; intros _ _; unfold F.sub; simpl.
  - now destruct sx, sy.
  - reflexivity.
  - reflexivity.
  - unfold binary_normalize. destruct (_ - _) as [| p | p]; [reflexivity | |];
      unfold binary_round;
      match goal with |- context [shl_align ?a ?b ?c] =>
        destruct (shl_align a b c) as [mz ez] end;
      eapply signed_not_nan, bra_signed; lia.
Qed.

(** Mantissas of canonical floats, aligned on the smaller exponent, are
    ordered as the exponent-mantissa pairs are. *)
Lemma aligned_lt mx ex my ey :
  F.valid (S754_finite false mx ex) = true ->
  F.valid (S754_finite false my ey) = true ->
  (ex < ey \/ (ex = ey /\ (mx < my)%positive)) ->
  Zpos mx * 2 ^ (ex - Z.min ex ey) < Zpos my * 2 ^ (ey - Z.min ex ey).
Proof.
  intros Vx Vy H.
  apply valid_finite in Vx as (Ex & Dx & Nx), Vy as (Ey & Dy & Ny).
  pose proof (dg_bounds mx) as [_ Bx]. pose proof (dg_bounds my) as [By _].
  destruct H as [Hlt | [-> Hm]].
  - rewrite Z.min_l by lia. rewrite Z.sub_diag, Z.pow_0_r.
    rewrite Ny in By by lia. change (2 ^ (53 - 1)) with 4503599627370496 in By.
    assert (2 ^ dg mx <= 2 ^ 53) by (apply Z.pow_le_mono_r; lia).
    change (2 ^ 53) with 9007199254740992 in *.
    assert (2 ^ 1 <= 2 ^ (ey - ex)) by (apply Z.pow_le_mono_r; lia).
    change (2 ^ 1) with 2 in *. nia.
  - rewrite Z.min_id, Z.sub_diag, Z.pow_0_r. lia.
Qed.

Lemma compare_finite_pos mx ex my ey :
  SFcompare (S754_finite false mx ex) (S754_finite false my ey) = Some Lt ->
  ex < ey \/ (ex = ey /\ (mx < my)%positive).
Proof.
  simpl. destruct (Z.compare_spec ex ey) as [-> | H | H]; intros Hc.
  - right. split; [reflexivity |]. now inversion Hc.
  - left. lia.
  - discriminate.
Qed.

Lemma compare_finite_neg mx ex my ey :
  SFcompare (S754_finite true mx ex) (S754_finite true my ey) = Some Lt ->
  ey < ex \/ (ex = ey /\ (my < mx)%positive).
Proof.
  simpl. destruct (Z.compare_spec ex ey) as [-> | H | H]; intros Hc.
  - right. split; [reflexivity |]. inversion Hc as [Hc'].
    change (Pos.compare_cont Eq mx my) with (mx ?= my)%positive in Hc'.
    apply Pos.gt_lt. unfold Pos.gt.
    destruct (mx ?= my)%positive; try discriminate. reflexivity.
  - discriminate.
  - left. lia.
Qed.

Lemma valid_sign s s' m e :
  F.valid (S754_finite s m e) = F.valid (S754_finite s' m e).
Proof. reflexivity. Qed.

(** For finite floats in canonical form, [x < y] makes [x - y] negative and
    not zero. *)
Lemma sub_lt_negative x y :
  F.valid x = true -> F.valid y = true ->
  F.is_finite x = true -> F.is_finite y = true ->
  F.ltb x y = true -> strictly true (F.sub x y).
Proof.
  intros Vx Vy Fx Fy. unfold F.ltb, SFltb.
  destruct (SFcompare x y) as [[] |] eqn:Hc; try discriminate. intros _.
  destruct x as [sx | sx | | sx mx ex], y as [sy | sy | | sy my ey];
    try discriminate; unfold F.sub, SFsub.
  - simpl in Hc. destruct sy; [discriminate |]. left. eauto.
  - simpl in Hc. destruct sx; [| discriminate]. left. eauto.
  - pose proof (valid_finite _ _ _ Vx) as (Ex & _).
    pose proof (valid_finite _ _ _ Vy) as (Ey & _).
    destruct (shl_align_below mx ex (Z.min ex ey) ltac:(lia)) as [_ Hx].
    destruct (shl_align_below my ey (Z.min ex ey) ltac:(lia)) as [_ Hy].
    rewrite Hx, Hy.
    pose proof (normalize_sign
                  (cond_Zopp sx (Zpos mx * 2 ^ (ex - Z.min ex ey)) -
                   cond_Zopp sy (Zpos my * 2 ^ (ey - Z.min ex ey)))
                  (Z.min ex ey) ltac:(lia)) as Hn.
    assert (Hpx : 0 < Zpos mx * 2 ^ (ex - Z.min ex ey))
      by (apply Z.mul_pos_pos; [lia | apply Z.pow_pos_nonneg; lia]).
    assert (Hpy : 0 < Zpos my * 2 ^ (ey - Z.min ex ey))
      by (apply Z.mul_pos_pos; [lia | apply Z.pow_pos_nonneg; lia]).
    match type of Hn with match ?d with _ => _ end =>
      assert (Hd : d < 0); [| destruct d; try lia; exact Hn] end.
    destruct sx, sy; unfold cond_Zopp.
    + apply compare_finite_neg in Hc.
      rewrite (valid_sign true false) in Vx, Vy.
      pose proof (aligned_lt my ey mx ex Vy Vx ltac:(lia)) as H.
      rewrite (Z.min_comm ey ex) in H. lia.
    + lia.
    + simpl in Hc. discriminate.
    + apply compare_finite_pos in Hc.
      pose proof (aligned_lt mx ex my ey Vx Vy Hc). lia.
Qed.


(** And [y < x] makes [x - y] positive and not zero. *)
Lemma sub_gt_positive x y :
  F.valid x = true -> F.valid y = true ->
  F.is_finite x = true -> F.is_finite y = true ->
  F.ltb y x = true -> strictly false (F.sub x y).
Proof.
  intros Vx Vy Fx Fy. unfold F.ltb, SFltb.
  destruct (SFcompare y x) as [[] |] eqn:Hc; try discriminate. intros _.
  destruct x as [sx | sx | | sx mx ex], y as [sy | sy | | sy my ey];
    try discriminate; unfold F.sub, SFsub.
  - simpl in Hc. destruct sy; [| discriminate]. left. eauto.
  - simpl in Hc. destruct sx; [discriminate |]. left. eauto.
  - pose proof (valid_finite _ _ _ Vx) as (Ex & _).
    pose proof (valid_finite _ _ _ Vy) as (Ey & _).
    destruct (shl_align_below mx ex (Z.min ex ey) ltac:(lia)) as [_ Hx].
    destruct (shl_align_below my ey (Z.min ex ey) ltac:(lia)) as [_ Hy].
    rewrite Hx, Hy.
    pose proof (normalize_sign
                  (cond_Zopp sx (Zpos mx * 2 ^ (ex - Z.min ex ey)) -
                   cond_Zopp sy (Zpos my * 2 ^ (ey - Z.min ex ey)))
                  (Z.min ex ey) ltac:(lia)) as Hn.
    assert (Hpx : 0 < Zpos mx * 2 ^ (ex - Z.min ex ey))
      by (apply Z.mul_pos_pos; [lia | apply Z.pow_pos_nonneg; lia]).
    assert (Hpy : 0 < Zpos my * 2 ^ (ey - Z.min ex ey))
      by (apply Z.mul_pos_pos; [lia | apply Z.pow_pos_nonneg; lia]).
    match type of Hn with match ?d with _ => _ end =>
      assert (Hd : 0 < d); [| destruct d; try lia; exact Hn] end.
    destruct sx, sy; unfold cond_Zopp.
    + apply compare_finite_neg in Hc.
      rewrite (valid_sign true false) in Vx, Vy.
      pose proof (aligned_lt mx ex my ey Vx Vy ltac:(lia)) as H. lia.
    + simpl in Hc. discriminate.
    + lia.
    + apply compare_finite_pos in Hc.
      pose proof (aligned_lt my ey mx ex Vy Vx Hc) as H.
      rewrite (Z.min_comm ey ex) in H. lia.
Qed.

(** *** Division *)

Lemma div_eucl_pair a b : Z.div_eucl a b = (a / b, a mod b).
Proof.
  unfold Z.div, Z.modulo. now destruct (Z.div_eucl a b).
Qed.

(** The quotient of finite floats has the sign of the operands' signs and
    is never [nan]. *)
Lemma div_finite_signed sx mx ex sy my ey :
  signed (xorb sx sy)
    (F.div (S754_finite sx mx ex) (S754_finite sy my ey)).
Proof.
  unfold F.div, SFdiv, SFdiv_core_binary.
  rewrite div_eucl_pair. apply bra_signed. apply Z.div_pos; [| lia].
  destruct (_ - _ - _) as [| p | p]; try lia.
  rewrite Z.shiftl_mul_pow2 by lia. apply Z.mul_nonneg_nonneg; [lia |].
  apply Z.pow_nonneg. lia.
Qed.

(** A finite float divided by itself is one. *)
Lemma div_self s m e :
  F.div (S754_finite s m e) (S754_finite s m e) = F.one.
Proof.
  unfold F.div, SFdiv, SFdiv_core_binary.
  replace (Zdigits2 (Zpos m) + e - (Zdigits2 (Zpos m) + e)) with 0 by lia.
  rewrite Z.sub_diag.
  change (Z.min (SpecFloat.fexp F.prec F.emax 0) 0) with (-53).
  change (0 - -53) with 53.
  rewrite Z.shiftl_mul_pow2 by lia. rewrite div_eucl_pair.
  rewrite Z.mul_comm, Z.div_mul, Z.mod_mul by lia.
  replace (new_location (Zpos m) 0) with loc_Exact
    by (unfold new_location; destruct (Z.even (Zpos m)); reflexivity).
  rewrite xorb_nilpotent. vm_compute. reflexivity.
Qed.


(** *** Rounding a positive integer number of units

    Every finite float is an integer number of units [2^emin]; [units x] is
    that number, and [rint X] is the number the rounding of [X] units
    has. *)

Definition canonical (m : positive) (e : Z) : Prop := fexp (dg m + e) = e.

Lemma canonical_facts m e :
  canonical m e <-> emin <= e /\ dg m <= 53 /\ (emin < e -> dg m = 53).
Proof.
  unfold canonical. rewrite fexp_eq.
  unfold emin, SpecFloat.emin, F.prec, F.emax. lia.
Qed.

Lemma valid_canonical s m e :
  F.valid (S754_finite s m e) = true -> canonical m e /\ e <= 971.
Proof.
  intros H. apply valid_finite in H. split; [apply canonical_facts |]; tauto.
Qed.

Definition units (x : spec_float) : Z :=
  match x with
  | S754_finite s m e => cond_Zopp s (Zpos m * 2 ^ (e - emin))
  | _ => 0
  end.

(** The flags after a shift, as a remainder. *)
Lemma shifted_flags X k :
  0 <= X -> 0 < k ->
  let q := X / 2 ^ k in
  let rho := X mod 2 ^ k in
  shift X false false k
  = {| shr_m := q;
       shr_r := 2 ^ (k - 1) <=? rho;
       shr_s := negb ((rho =? 0) || (rho =? 2 ^ (k - 1))) |}.
Proof.
  intros HX Hk q rho. destruct k as [| p | p]; try lia.
  cbn [shift]. destruct (Pos.to_nat p) as [| n] eqn:Hn; [lia |].
  assert (Hp : Zpos p = Z.of_nat n + 1) by lia.
  unfold shifted. unfold q, rho. rewrite Hp.
  replace (Z.of_nat (S n)) with (Z.of_nat n + 1) by lia.
  replace (Z.of_nat n + 1 - 1) with (Z.of_nat n) by lia.
  set (h := 2 ^ Z.of_nat n).
  assert (Hh : 0 < h) by (apply Z.pow_pos_nonneg; lia).
  rewrite Z.pow_add_r, Z.pow_1_r by lia. fold h.
  rewrite (Z.rem_mul_r X h 2) by lia.
  rewrite <- (Z.div_div X h 2) by lia.
  set (a := X mod h). set (b := X / h).
  assert (Ha : 0 <= a < h) by (apply Z.mod_pos_bound; lia).
  assert (Hb : 0 <= b mod 2 < 2) by (apply Z.mod_pos_bound; lia).
  rewrite (Zodd_mod b). simpl orb. rewrite orb_false_r.
  assert (Hc : b mod 2 = 0 \/ b mod 2 = 1) by lia.
  f_equal.
  - destruct Hc as [-> | ->]; simpl Z.eqb;
      match goal with |- _ = (h <=? ?t) => destruct (Z.leb_spec h t) end;
      try reflexivity; lia.
  - destruct Hc as [-> | ->];
      match goal with |- _ = negb ((?t =? 0) || _) =>
        destruct (Z.eqb_spec a 0), (Z.eqb_spec t 0), (Z.eqb_spec t h) end;
      simpl; try reflexivity; lia.
Qed.

(** Rounding up happens above the half, and at the half for an odd
    quotient. *)
Lemma rne_shift X k :
  0 <= X -> 0 < k ->
  rne (shift X false false k)
  = if (2 ^ (k - 1) <? X mod 2 ^ k)
       || ((X mod 2 ^ k =? 2 ^ (k - 1)) && Z.odd (X / 2 ^ k))
    then X / 2 ^ k + 1 else X / 2 ^ k.
Proof.
  intros HX Hk. rewrite shifted_flags, rne_spec by assumption.
  assert (0 <= X mod 2 ^ k) by (apply Z.mod_pos_bound, Z.pow_pos_nonneg; lia).
  assert (0 < 2 ^ (k - 1)) by (apply Z.pow_pos_nonneg; lia).
  destruct (Z.leb_spec (2 ^ (k - 1)) (X mod 2 ^ k)),
    (Z.ltb_spec (2 ^ (k - 1)) (X mod 2 ^ k)),
    (Z.eqb_spec (X mod 2 ^ k) 0), (Z.eqb_spec (X mod 2 ^ k) (2 ^ (k - 1)));
    simpl; try reflexivity; try lia.
Qed.

Lemma rne_shift_mono X Y k :
  0 <= X <= Y -> 0 < k ->
  rne (shift X false false k) <= rne (shift Y false false k).
Proof.
  intros HXY Hk.
  assert (Hp : 0 < 2 ^ k) by (apply Z.pow_pos_nonneg; lia).
  assert (Hq : X / 2 ^ k <= Y / 2 ^ k) by (apply Z.div_le_mono; lia).
  destruct (Z.eq_dec (X / 2 ^ k) (Y / 2 ^ k)) as [He | Hne].
  - rewrite !rne_shift by lia. rewrite <- He.
    pose proof (Z.div_mod X (2 ^ k) ltac:(lia)) as DX.
    pose proof (Z.div_mod Y (2 ^ k) ltac:(lia)) as DY.
    rewrite <- He in DY.
    assert (Hr : X mod 2 ^ k <= Y mod 2 ^ k) by lia.
    destruct (Z.ltb_spec (2 ^ (k - 1)) (X mod 2 ^ k)),
      (Z.ltb_spec (2 ^ (k - 1)) (Y mod 2 ^ k)),
      (Z.eqb_spec (X mod 2 ^ k) (2 ^ (k - 1))),
      (Z.eqb_spec (Y mod 2 ^ k) (2 ^ (k - 1))),
      (Z.odd (X / 2 ^ k)); simpl; lia.
  - pose proof (rne_bounds (shift X false false k)) as [_ BX].
    pose proof (rne_bounds (shift Y false false k)) as [BY _].
    rewrite shift_m in BX, BY by lia.
    rewrite Z.max_l in BX, BY by lia. lia.
Qed.


Lemma digits_unique X d : 2 ^ (d - 1) <= X < 2 ^ d -> 0 < X -> Zdigits2 X = d.
Proof.
  intros H HX. destruct X as [| p | p]; try lia. now apply dg_unique.
Qed.

Lemma digits_bounds X : 0 < X -> 2 ^ (Zdigits2 X - 1) <= X < 2 ^ Zdigits2 X.
Proof. intros HX. destruct X as [| p | p]; try lia. apply dg_bounds. Qed.

Lemma digits_pos X : 0 < X -> 1 <= Zdigits2 X.
Proof. intros HX. destruct X as [| p | p]; try lia. apply dg_pos. Qed.

(** The mantissa after a shift that leaves 53 digits. *)
Lemma shift_53 X :
  0 < X -> 53 < Zdigits2 X ->
  2 ^ 52 <= X / 2 ^ (Zdigits2 X - 53) < 2 ^ 53.
Proof.
  intros HX Hd. pose proof (digits_bounds X HX) as [B1 B2].
  set (k := Zdigits2 X - 53) in *.
  assert (Hk : 0 < 2 ^ k) by (apply Z.pow_pos_nonneg; lia).
  replace (Zdigits2 X - 1) with (52 + k) in B1 by (unfold k; lia).
  replace (Zdigits2 X) with (53 + k) in B2 by (unfold k; lia).
  rewrite Z.pow_add_r in B1, B2 by lia.
  split.
  - apply Z.div_le_lower_bound; lia.
  - apply Z.div_lt_upper_bound; lia.
Qed.

(** The number of units after rounding. *)
Definition rint (X : Z) : Z :=
  let k := Zdigits2 X - 53 in
  if 0 <? k then rne (shift X false false k) * 2 ^ k else X.

Lemma rne_exact X : rne (shift X false false 0) = X.
Proof. unfold shift. now rewrite rne_spec. Qed.

(** [binary_round_aux] from the outcome of its two stages. *)
Lemma bra_stages s m e l e1 m2 e3 m3 :
  0 <= m ->
  e1 = (if 0 <? fexp (Zdigits2 m + e) - e then fexp (Zdigits2 m + e) else e) ->
  m2 = rne (shift m (loc_r l) (loc_s l) (fexp (Zdigits2 m + e) - e)) ->
  e3 = (if 0 <? fexp (Zdigits2 m2 + e1) - e1 then fexp (Zdigits2 m2 + e1) else e1) ->
  m3 = m2 / 2 ^ Z.max (fexp (Zdigits2 m2 + e1) - e1) 0 ->
  binary_round_aux F.prec F.emax s m e l = finish s m3 e3.
Proof.
  intros Hm -> -> -> ->. now apply bra_spec.
Qed.

Lemma ltb_pos_true k : 0 < k -> (0 <? k) = true.
Proof. intros H. now apply Z.ltb_lt. Qed.

Lemma ltb_pos_false k : k <= 0 -> (0 <? k) = false.
Proof. intros H. now apply Z.ltb_ge. Qed.

(** Rounding a positive number of units: the result is in canonical form
    and has [rint X] units. *)
Lemma round_units s X :
  0 < X ->
  exists m e,
    binary_round_aux F.prec F.emax s X emin loc_Exact = finish s (Zpos m) e /\
    canonical m e /\ Zpos m * 2 ^ (e - emin) = rint X.
Proof.
  intros HX. pose proof (digits_pos X HX) as Hd1. unfold rint.
  assert (Hf : fexp (Zdigits2 X + emin) - emin = Z.max (Zdigits2 X - 53) 0)
    by (rewrite fexp_eq; unfold emin, SpecFloat.emin, F.prec, F.emax; lia).
  destruct (Z.le_gt_cases (Zdigits2 X) 53) as [Hle | Hgt].
  - rewrite ltb_pos_false by lia.
    destruct X as [| p | p]; try lia. exists p, emin.
    rewrite Z.sub_diag, Z.pow_0_r. repeat split; [| | lia].
    + assert (H0 : fexp (Zdigits2 (Zpos p) + emin) - emin = 0) by lia.
      apply (bra_stages s (Zpos p) emin loc_Exact emin (Zpos p)); try lia.
      * now rewrite H0.
      * rewrite H0. now rewrite rne_exact.
      * now rewrite H0.
      * rewrite H0. simpl. now rewrite Z.div_1_r.
    + apply canonical_facts. simpl in Hle. fold (dg p) in Hle. lia.
  - set (k := Zdigits2 X - 53). assert (Hk : 0 < k) by (unfold k; lia).
    rewrite ltb_pos_true by assumption.
    set (N := rne (shift X false false k)).
    pose proof (rne_bounds (shift X false false k)) as [N1 N2].
    rewrite shift_m, Z.max_l in N1, N2 by lia. fold N in N1, N2.
    pose proof (shift_53 X HX Hgt) as [S1 S2]. fold k in S1, S2.
    change (2 ^ 52) with 4503599627370496 in S1.
    change (2 ^ 53) with 9007199254740992 in S2.
    assert (Hk1 : fexp (Zdigits2 X + emin) - emin = k) by (unfold k; lia).
    assert (Hfe : fexp (Zdigits2 X + emin) = emin + k) by lia.
    destruct (Z.eq_dec N 9007199254740992) as [HN | HN].
    + assert (Hf2 : fexp (Zdigits2 N + (emin + k)) = emin + k + 1).
      { rewrite HN. change (Zdigits2 9007199254740992) with 54.
        rewrite fexp_eq. unfold emin, SpecFloat.emin, F.prec, F.emax. lia. }
      exists 4503599627370496%positive, (emin + k + 1). repeat split.
      * apply (bra_stages s X emin loc_Exact (emin + k) N); try lia.
        -- rewrite Hk1, Hfe. now rewrite ltb_pos_true.
        -- rewrite Hk1. reflexivity.
        -- rewrite Hf2. now rewrite ltb_pos_true by lia.
        -- rewrite Hf2. replace (emin + k + 1 - (emin + k)) with 1 by lia.
           rewrite HN. reflexivity.
      * apply canonical_facts. change (dg 4503599627370496) with 53.
        unfold emin, SpecFloat.emin, F.prec, F.emax. lia.
      * replace (emin + k + 1 - emin) with (k + 1) by lia.
        rewrite Z.pow_add_r, HN by lia. lia.
    + assert (HN53 : Zdigits2 N = 53).
      { apply digits_unique; [| lia].
        change (2 ^ (53 - 1)) with 4503599627370496.
        change (2 ^ 53) with 9007199254740992. lia. }
      assert (Hf2 : fexp (Zdigits2 N + (emin + k)) = emin + k).
      { rewrite HN53, fexp_eq. unfold emin, SpecFloat.emin, F.prec, F.emax. lia. }
      destruct N as [| n | n] eqn:En; try lia.
      exists n, (emin + k). repeat split.
      * apply (bra_stages s X emin loc_Exact (emin + k) (Zpos n)); try lia.
        -- rewrite Hk1, Hfe. now rewrite ltb_pos_true.
        -- rewrite Hk1. symmetry. exact En.
        -- rewrite Hf2, Z.sub_diag. reflexivity.
        -- rewrite Hf2, Z.sub_diag. simpl. now rewrite Z.div_1_r.
      * apply canonical_facts. simpl in HN53. fold (dg n) in HN53.
        unfold emin, SpecFloat.emin, F.prec, F.emax. lia.
      * replace (emin + k - emin) with k by lia. reflexivity.
Qed.

End Round.

Module RoundOrder.
Import Round.

Lemma digits_mono X Y : 0 < X <= Y -> Zdigits2 X <= Zdigits2 Y.
Proof.
  intros H. pose proof (digits_bounds X ltac:(lia)) as [B1 _].
  pose proof (digits_bounds Y ltac:(lia)) as [_ B2].
  pose proof (digits_pos Y ltac:(lia)).
  destruct (Z.le_gt_cases (Zdigits2 X) (Zdigits2 Y)) as [Hle | Hgt]; [assumption |].
  assert (2 ^ Zdigits2 Y <= 2 ^ (Zdigits2 X - 1)) by (apply Z.pow_le_mono_r; lia).
  lia.
Qed.

Lemma rint_rounded X :
  0 < X -> 53 < Zdigits2 X ->
  2 ^ (Zdigits2 X - 1) <= rint X <= 2 ^ Zdigits2 X.
Proof.
  intros HX Hd. unfold rint. rewrite ltb_pos_true by lia.
  set (k := Zdigits2 X - 53).
  pose proof (rne_bounds (shift X false false k)) as [N1 N2].
  rewrite shift_m, Z.max_l in N1, N2 by (unfold k; lia).
  pose proof (shift_53 X HX Hd) as [S1 S2]. fold k in S1, S2.
  assert (Hk : 0 < 2 ^ k) by (apply Z.pow_pos_nonneg; unfold k; lia).
  assert (E1 : 2 ^ (Zdigits2 X - 1) = 2 ^ 52 * 2 ^ k).
  { rewrite <- Z.pow_add_r by (unfold k; lia). f_equal. unfold k. lia. }
  assert (E2 : 2 ^ Zdigits2 X = 2 ^ 53 * 2 ^ k).
  { rewrite <- Z.pow_add_r by (unfold k; lia). f_equal. unfold k. lia. }
  rewrite E1, E2. clearbody k. nia.
Qed.

(** Rounding is monotone. *)
Lemma rint_mono X Y : 0 < X <= Y -> rint X <= rint Y.
Proof.
  intros H. pose proof (digits_mono X Y H) as Hd.
  destruct (Z.le_gt_cases (Zdigits2 Y) 53) as [HY | HY].
  - unfold rint. rewrite !ltb_pos_false by lia. lia.
  - pose proof (rint_rounded Y ltac:(lia) HY) as [BY _].
    destruct (Z.le_gt_cases (Zdigits2 X) 53) as [HX | HX].
    + unfold rint at 1. rewrite ltb_pos_false by lia.
      pose proof (digits_bounds X ltac:(lia)) as [_ BX].
      assert (2 ^ Zdigits2 X <= 2 ^ (Zdigits2 Y - 1))
        by (apply Z.pow_le_mono_r; lia).
      lia.
    + destruct (Z.eq_dec (Zdigits2 X) (Zdigits2 Y)) as [He | Hne].
      * unfold rint. rewrite <- He. rewrite ltb_pos_true by lia.
        apply Z.mul_le_mono_nonneg_r; [apply Z.pow_nonneg; lia |].
        apply rne_shift_mono; lia.
      * pose proof (rint_rounded X ltac:(lia) HX) as [_ BX].
        assert (2 ^ Zdigits2 X <= 2 ^ (Zdigits2 Y - 1))
          by (apply Z.pow_le_mono_r; lia).
        lia.
Qed.

Lemma digits_scaled m j : 0 <= j -> Zdigits2 (Zpos m * 2 ^ j) = dg m + j.
Proof.
  intros Hj. pose proof (dg_bounds m) as [B1 B2]. pose proof (dg_pos m).
  assert (0 < 2 ^ j) by (apply Z.pow_pos_nonneg; lia).
  apply digits_unique; [| nia].
  replace (dg m + j - 1) with (dg m - 1 + j) by lia.
  rewrite !Z.pow_add_r by lia. nia.
Qed.

(** A shift that only removes zeros is exact. *)
Lemma rne_shift_zeros M j : 0 <= M -> 0 < j -> rne (shift (M * 2 ^ j) false false j) = M.
Proof.
  intros HM Hj. assert (0 < 2 ^ j) by (apply Z.pow_pos_nonneg; lia).
  assert (0 < 2 ^ (j - 1)) by (apply Z.pow_pos_nonneg; lia).
  rewrite rne_shift by nia.
  rewrite Z.mod_mul, Z.div_mul by lia.
  destruct (Z.ltb_spec (2 ^ (j - 1)) 0); [lia |].
  destruct (Z.eqb_spec 0 (2 ^ (j - 1))); [lia |]. reflexivity.
Qed.

Lemma rne_shift_scaled M j k :
  0 <= M -> 0 <= j -> 0 < k ->
  rne (shift (M * 2 ^ j) false false (k + j)) = rne (shift M false false k).
Proof.
  intros HM Hj Hk.
  assert (Pj : 0 < 2 ^ j) by (apply Z.pow_pos_nonneg; lia).
  assert (Pk : 0 < 2 ^ k) by (apply Z.pow_pos_nonneg; lia).
  assert (Ph : 0 < 2 ^ (k - 1)) by (apply Z.pow_pos_nonneg; lia).
  rewrite !rne_shift by nia.
  replace (k + j - 1) with (k - 1 + j) by lia.
  rewrite !Z.pow_add_r by lia.
  rewrite Z.div_mul_cancel_r by lia.
  rewrite Z.mul_mod_distr_r by lia.
  assert (0 <= M mod 2 ^ k) by (apply Z.mod_pos_bound; lia).
  destruct (Z.ltb_spec (2 ^ (k - 1) * 2 ^ j) (M mod 2 ^ k * 2 ^ j)),
    (Z.ltb_spec (2 ^ (k - 1)) (M mod 2 ^ k)),
    (Z.eqb_spec (M mod 2 ^ k * 2 ^ j) (2 ^ (k - 1) * 2 ^ j)),
    (Z.eqb_spec (M mod 2 ^ k) (2 ^ (k - 1))); simpl; try reflexivity; nia.
Qed.

(** A canonical number of units is its own rounding. *)
Lemma rint_fixed m e :
  canonical m e -> rint (Zpos m * 2 ^ (e - emin)) = Zpos m * 2 ^ (e - emin).
Proof.
  intros Hc. apply canonical_facts in Hc as (He & Hd & Hn).
  unfold rint. rewrite digits_scaled by lia.
  destruct (Z.ltb_spec 0 (dg m + (e - emin) - 53)) as [Hk | Hk]; [| reflexivity].
  assert (dg m = 53) as -> by (apply Hn; pose proof (dg_pos m); lia).
  replace (53 + (e - emin) - 53) with (e - emin) by lia.
  rewrite rne_shift_zeros by lia. reflexivity.
Qed.


(** [binary_round] only depends on the number of units. *)
Lemma binary_round_scaled s M E :
  emin <= E ->
  binary_round F.prec F.emax s M E
  = binary_round_aux F.prec F.emax s (Zpos M * 2 ^ (E - emin)) emin loc_Exact.
Proof.
  intros HE. set (j := E - emin). assert (Hj : 0 <= j) by (unfold j; lia).
  set (X := Zpos M * 2 ^ j).
  assert (Pj : 0 < 2 ^ j) by (apply Z.pow_pos_nonneg; lia).
  assert (HX : 0 < X) by (unfold X; nia).
  set (t := fexp (dg M + E)).
  assert (HdX : Zdigits2 X + emin = dg M + E)
    by (unfold X; rewrite digits_scaled by lia; unfold j; lia).
  assert (Ht : emin <= t)
    by (unfold t; rewrite fexp_eq; unfold emin, SpecFloat.emin, F.prec, F.emax; lia).
  rewrite (bra_spec s X emin loc_Exact) by lia. cbv zeta.
  rewrite HdX. fold t. simpl loc_r. simpl loc_s.
  assert (He1 : (if 0 <? t - emin then t else emin) = t)
    by (destruct (Z.ltb_spec 0 (t - emin)); lia).
  rewrite He1.
  unfold binary_round. change (SpecFloat.fexp F.prec F.emax) with fexp.
  change (Zpos (digits2_pos M)) with (dg M). fold t.
  destruct (Z.le_gt_cases t E) as [Hle | Hgt].
  - pose proof (shl_align_below M E t Hle) as [Hs Hz].
    destruct (shl_align M E t) as [mz ez]. simpl fst in Hs, Hz.
    inversion Hs; subst ez; clear Hs.
    assert (Hdz : Zdigits2 (Zpos mz) + t = dg M + E).
    { rewrite Hz, digits_scaled by lia. lia. }
    assert (HXz : X = Zpos mz * 2 ^ (t - emin)).
    { rewrite Hz. unfold X, j. rewrite <- Z.mul_assoc, <- Z.pow_add_r by lia.
      do 2 f_equal. lia. }
    assert (Hm2 : rne (shift X false false (t - emin)) = Zpos mz).
    { destruct (Z.eq_dec t emin) as [Heq | Hne].
      - rewrite HXz, Heq, Z.sub_diag, Z.pow_0_r, Z.mul_1_r. apply rne_exact.
      - rewrite HXz. apply rne_shift_zeros; lia. }
    rewrite Hm2.
    apply (bra_stages s (Zpos mz) t loc_Exact t (Zpos mz));
      try reflexivity; try lia.
    + rewrite Hdz. fold t. rewrite Z.sub_diag. reflexivity.
    + rewrite Hdz. fold t. rewrite Z.sub_diag. symmetry. apply rne_exact.
  - rewrite shl_align_above by lia.
    assert (Hm2 : rne (shift X false false (t - emin))
                  = rne (shift (Zpos M) false false (t - E))).
    { unfold X. replace (t - emin) with (t - E + j) by (unfold j; lia).
      apply rne_shift_scaled; lia. }
    rewrite Hm2.
    apply (bra_stages s (Zpos M) E loc_Exact t
             (rne (shift (Zpos M) false false (t - E))));
      try reflexivity; try lia.
    change (Zdigits2 (Zpos M)) with (dg M). fold t.
    now rewrite ltb_pos_true by lia.
Qed.

Lemma binary_round_units s M E :
  emin <= E ->
  exists m e,
    binary_round F.prec F.emax s M E = finish s (Zpos m) e /\
    canonical m e /\ Zpos m * 2 ^ (e - emin) = rint (Zpos M * 2 ^ (E - emin)).
Proof.
  intros HE. rewrite binary_round_scaled by assumption.
  apply round_units.
  assert (0 < 2 ^ (E - emin)) by (apply Z.pow_pos_nonneg; lia). nia.
Qed.

(** The order of canonical floats is the order of their units. *)
Lemma canonical_lt m e m' e' :
  canonical m e -> canonical m' e' -> e < e' ->
  Zpos m * 2 ^ (e - emin) < Zpos m' * 2 ^ (e' - emin).
Proof.
  intros C C' Hlt.
  apply canonical_facts in C as (He & Hd & _), C' as (He' & _ & Hn').
  pose proof (dg_bounds m) as [_ B]. pose proof (dg_bounds m') as [B' _].
  rewrite Hn' in B' by lia. change (2 ^ (53 - 1)) with 4503599627370496 in B'.
  assert (2 ^ dg m <= 2 ^ 53) by (apply Z.pow_le_mono_r; lia).
  change (2 ^ 53) with 9007199254740992 in *.
  replace (e' - emin) with (e - emin + (e' - e)) by lia.
  rewrite Z.pow_add_r by lia.
  set (P := 2 ^ (e - emin)). set (Q := 2 ^ (e' - e)).
  assert (HP : 0 < P) by (apply Z.pow_pos_nonneg; lia).
  assert (HQ : 2 ^ 1 <= Q) by (apply Z.pow_le_mono_r; lia).
  change (2 ^ 1) with 2 in HQ.
  assert (H1 : Zpos m * P < 9007199254740992 * P) by nia.
  assert (H2 : 2 * P <= P * Q) by nia.
  assert (H3 : 4503599627370496 * (P * Q) <= Zpos m' * (P * Q)) by nia.
  lia.
Qed.

Lemma leb_canonical m e m' e' :
  canonical m e -> canonical m' e' ->
  Zpos m * 2 ^ (e - emin) <= Zpos m' * 2 ^ (e' - emin) ->
  F.leb (finish false (Zpos m) e) (finish false (Zpos m') e') = true.
Proof.
  intros C C' Hle.
  assert (Hee : e <= e').
  { destruct (Z.le_gt_cases e e'); [assumption |].
    pose proof (canonical_lt m' e' m e C' C ltac:(lia)). lia. }
  unfold finish, F.leb, SFleb.
  destruct (Z.leb_spec e 971), (Z.leb_spec e' 971); try lia; try reflexivity.
  simpl. destruct (Z.compare_spec e e') as [-> | H1 | H1]; try lia; try reflexivity.
  assert (Hp : 0 < 2 ^ (e' - emin))
    by (apply canonical_facts in C'; apply Z.pow_pos_nonneg; lia).
  assert (Hm : (m <= m')%positive) by nia.
  change (Pos.compare_cont Eq m m') with (m ?= m')%positive.
  apply Pos.compare_le_iff in Hm.
  destruct (m ?= m')%positive; try reflexivity. contradiction.
Qed.


(** *** Subtraction in units *)

Lemma finish_finite s m e : e <= 971 -> finish s (Zpos m) e = S754_finite s m e.
Proof. intros H. unfold finish. now destruct (Z.leb_spec e 971); [| lia]. Qed.

Lemma units_aligned s m e ez :
  emin <= ez <= e ->
  cond_Zopp s (Zpos m * 2 ^ (e - ez)) * 2 ^ (ez - emin)
  = cond_Zopp s (Zpos m * 2 ^ (e - emin)).
Proof.
  intros H. replace (e - emin) with (e - ez + (ez - emin)) by lia.
  rewrite Z.pow_add_r by lia. destruct s; unfold cond_Zopp; ring.
Qed.

(** A positive difference of finite floats is the rounding of the
    difference of their units. *)
Lemma sub_units x y :
  F.valid x = true -> F.valid y = true ->
  F.is_finite x = true -> F.is_finite y = true ->
  units y < units x ->
  exists m e,
    F.sub x y = finish false (Zpos m) e /\ canonical m e /\
    Zpos m * 2 ^ (e - emin) = rint (units x - units y).
Proof.
  intros Vx Vy Fx Fy Hu.
  destruct x as [sx | sx | | sx mx ex], y as [sy | sy | | sy my ey];
    try discriminate; unfold units in *; try lia.
  - apply valid_canonical in Vy as [Cy Ey].
    assert (0 < 2 ^ (ey - emin))
      by (apply canonical_facts in Cy; apply Z.pow_pos_nonneg; lia).
    destruct sy; unfold cond_Zopp in *; [| nia].
    exists my, ey. repeat split; [| assumption |].
    + rewrite finish_finite by assumption. reflexivity.
    + rewrite <- (rint_fixed my ey Cy) at 1. f_equal. lia.
  - apply valid_canonical in Vx as [Cx Ex].
    assert (0 < 2 ^ (ex - emin))
      by (apply canonical_facts in Cx; apply Z.pow_pos_nonneg; lia).
    destruct sx; unfold cond_Zopp in *; [nia |].
    exists mx, ex. repeat split; [| assumption |].
    + rewrite finish_finite by assumption. reflexivity.
    + rewrite <- (rint_fixed mx ex Cx) at 1. f_equal. lia.
  - pose proof (valid_finite _ _ _ Vx) as (Ex & _).
    pose proof (valid_finite _ _ _ Vy) as (Ey & _).
    unfold F.sub, SFsub.
    destruct (shl_align_below mx ex (Z.min ex ey) ltac:(lia)) as [_ Hx].
    destruct (shl_align_below my ey (Z.min ex ey) ltac:(lia)) as [_ Hy].
    rewrite Hx, Hy.
    set (D := cond_Zopp sx (Zpos mx * 2 ^ (ex - Z.min ex ey)) -
              cond_Zopp sy (Zpos my * 2 ^ (ey - Z.min ex ey))).
    assert (HD : D * 2 ^ (Z.min ex ey - emin)
                 = cond_Zopp sx (Zpos mx * 2 ^ (ex - emin)) -
                   cond_Zopp sy (Zpos my * 2 ^ (ey - emin))).
    { unfold D. rewrite Z.mul_sub_distr_r, !units_aligned by lia. reflexivity. }
    assert (HP : 0 < 2 ^ (Z.min ex ey - emin)) by (apply Z.pow_pos_nonneg; lia).
    destruct D as [| p | p]; try nia.
    simpl binary_normalize.
    destruct (binary_round_units false p (Z.min ex ey) ltac:(lia))
      as (m & e & Hr & Hc & Hv).
    exists m, e. repeat split; auto. rewrite Hv, HD. reflexivity.
Qed.

(** [x < y] on canonical finite floats is the order of their units. *)
Lemma ltb_units x y :
  F.valid x = true -> F.valid y = true ->
  F.is_finite x = true -> F.is_finite y = true ->
  F.ltb x y = true -> units x < units y.
Proof.
  intros Vx Vy Fx Fy. unfold F.ltb, SFltb.
  destruct (SFcompare x y) as [[] |] eqn:Hc; try discriminate. intros _.
  destruct x as [sx | sx | | sx mx ex], y as [sy | sy | | sy my ey];
    try discriminate; unfold units.
  - simpl in Hc. destruct sy; [discriminate |].
    apply valid_canonical in Vy as [Cy _]. apply canonical_facts in Cy.
    assert (0 < 2 ^ (ey - emin)) by (apply Z.pow_pos_nonneg; lia).
    unfold cond_Zopp. nia.
  - simpl in Hc. destruct sx; [| discriminate].
    apply valid_canonical in Vx as [Cx _]. apply canonical_facts in Cx.
    assert (0 < 2 ^ (ex - emin)) by (apply Z.pow_pos_nonneg; lia).
    unfold cond_Zopp. nia.
  - apply valid_canonical in Vx as [Cx _], Vy as [Cy _].
    assert (Px : 0 < 2 ^ (ex - emin))
      by (apply canonical_facts in Cx; apply Z.pow_pos_nonneg; lia).
    assert (Py : 0 < 2 ^ (ey - emin))
      by (apply canonical_facts in Cy; apply Z.pow_pos_nonneg; lia).
    destruct sx, sy; unfold cond_Zopp.
    + apply compare_finite_neg in Hc as [Hlt | [-> Hm]].
      * pose proof (canonical_lt my ey mx ex Cy Cx Hlt). lia.
      * nia.
    + nia.
    + simpl in Hc. discriminate.
    + apply compare_finite_pos in Hc as [Hlt | [-> Hm]].
      * pose proof (canonical_lt mx ex my ey Cx Cy Hlt). lia.
      * nia.
Qed.

(** Subtracting the same float is monotone. *)
Lemma sub_mono v hi lo :
  F.valid v = true -> F.valid hi = true -> F.valid lo = true ->
  F.is_finite v = true -> F.is_finite hi = true -> F.is_finite lo = true ->
  F.ltb lo hi = true -> F.ltb hi v = true ->
  exists md ed mn en,
    F.sub hi lo = finish false (Zpos md) ed /\
    F.sub v lo = finish false (Zpos mn) en /\
    canonical md ed /\ canonical mn en /\
    Zpos md * 2 ^ (ed - emin) <= Zpos mn * 2 ^ (en - emin).
Proof.
  intros Vv Vh Vl Fv Fh Fl Hlh Hhv.
  pose proof (ltb_units lo hi Vl Vh Fl Fh Hlh) as U1.
  pose proof (ltb_units hi v Vh Vv Fh Fv Hhv) as U2.
  destruct (sub_units hi lo Vh Vl Fh Fl U1) as (md & ed & Hd & Cd & Vd).
  destruct (sub_units v lo Vv Vl Fv Fl ltac:(lia)) as (mn & en & Hn & Cn & Vn).
  exists md, ed, mn, en. repeat split; auto.
  rewrite Vd, Vn. apply rint_mono. lia.
Qed.

End RoundOrder.

Module RoundBounds.
Import Round RoundOrder.

Lemma leb_one_finish m e :
  0 < m -> -52 < e \/ (e = -52 /\ 2 ^ 52 <= m) ->
  F.leb F.one (finish false m e) = true.
Proof.
  intros Hm He. destruct m as [| p | p]; try lia.
  unfold finish. destruct (Z.leb_spec e 971); [| reflexivity].
  change F.one with (S754_finite false 4503599627370496 (-52)).
  unfold F.leb, SFleb, SFcompare.
  destruct (Z.compare_spec (-52) e) as [<- | H1 | H1].
  - destruct He as [He | [_ He]]; [lia |].
    change (2 ^ 52) with (Zpos 4503599627370496) in He.
    change (Pos.compare_cont Eq 4503599627370496 p)
      with (4503599627370496 ?= p)%positive.
    assert (Hp : (4503599627370496 <= p)%positive) by lia.
    apply Pos.compare_le_iff in Hp.
    destruct (4503599627370496 ?= p)%positive; try reflexivity. contradiction.
  - reflexivity.
  - lia.
Qed.

Lemma digits_ge X d : 0 < X -> 2 ^ (d - 1) <= X -> d <= Zdigits2 X.
Proof.
  intros HX H. pose proof (digits_bounds X HX) as [_ B].
  destruct (Z.le_gt_cases d (Zdigits2 X)) as [Hle | Hgt]; [assumption |].
  pose proof (digits_pos X HX).
  assert (2 ^ Zdigits2 X <= 2 ^ (d - 1)) by (apply Z.pow_le_mono_r; lia). lia.
Qed.

(** Rounding a value of magnitude at least one gives at least one. *)
Lemma bra_lower M E l :
  0 < M -> 1 <= Zdigits2 M + E ->
  F.leb F.one (binary_round_aux F.prec F.emax false M E l) = true.
Proof.
  intros HM Hmag. rewrite bra_spec by lia. cbv zeta.
  set (d := Zdigits2 M) in *.
  assert (Hf1 : fexp (d + E) = d + E - 53) by (rewrite fexp_eq; lia).
  rewrite Hf1. replace (d + E - 53 - E) with (d - 53) by lia.
  set (m2 := rne (shift M (loc_r l) (loc_s l) (d - 53))).
  set (e1 := if 0 <? d - 53 then d + E - 53 else E).
  pose proof (rne_bounds (shift M (loc_r l) (loc_s l) (d - 53))) as [N1 N2].
  rewrite shift_m in N1, N2 by lia. fold m2 in N1, N2.
  pose proof (digits_bounds M HM) as [B1 B2]. fold d in B1, B2.
  pose proof (digits_pos M HM) as Hd1. fold d in Hd1.
  (* the first stage *)
  assert (Hs1 : 0 < m2 /\ 1 <= Zdigits2 m2 + e1 /\
                (-52 < e1 \/ (e1 = -52 /\ 2 ^ 52 <= m2))).
  { unfold e1. destruct (Z.ltb_spec 0 (d - 53)) as [Hk | Hk].
    - pose proof (shift_53 M HM ltac:(fold d; lia)) as [S1 S2]. fold d in S1, S2.
      rewrite Z.max_l in N1 by lia.
      change (2 ^ 52) with 4503599627370496 in *.
      assert (H53 : 53 <= Zdigits2 m2)
        by (apply digits_ge; [lia | change (2 ^ (53 - 1)) with 4503599627370496; lia]).
      repeat split; try lia.
    - rewrite Z.max_r, Z.pow_0_r, Z.div_1_r in N1 by lia.
      assert (Hd2 : d <= Zdigits2 m2) by (apply digits_ge; lia).
      repeat split; try lia.
      destruct (Z.eq_dec E (-52)) as [-> | Hne]; [right | left; lia].
      split; [reflexivity |]. assert (d = 53) as Hd53 by lia.
      rewrite Hd53 in B1. change (2 ^ (53 - 1)) with (2 ^ 52) in B1. lia. }
  destruct Hs1 as (Hm2 & Hmag2 & Hlow).
  set (d2 := Zdigits2 m2) in *.
  assert (Hf2 : fexp (d2 + e1) = d2 + e1 - 53) by (rewrite fexp_eq; lia).
  rewrite Hf2. replace (d2 + e1 - 53 - e1) with (d2 - 53) by lia.
  apply leb_one_finish.
  - destruct (Z.le_gt_cases (d2 - 53) 0) as [Hk | Hk].
    + rewrite Z.max_r, Z.pow_0_r, Z.div_1_r by lia. assumption.
    + rewrite Z.max_l by lia.
      pose proof (shift_53 m2 Hm2 ltac:(fold d2; lia)) as [S1 _]. fold d2 in S1.
      change (2 ^ 52) with 4503599627370496 in S1. lia.
  - destruct (Z.ltb_spec 0 (d2 - 53)) as [Hk | Hk].
    + rewrite Z.max_l by lia.
      pose proof (shift_53 m2 Hm2 ltac:(fold d2; lia)) as [S1 _]. fold d2 in S1.
      destruct (Z.eq_dec (d2 + e1 - 53) (-52)); [right; split; assumption | left; lia].
    + rewrite Z.max_r, Z.pow_0_r, Z.div_1_r by lia. assumption.
Qed.


(** A quotient of canonical floats whose numerator is not smaller is at
    least one. *)
Lemma div_ge_one mn en md ed :
  canonical mn en -> canonical md ed ->
  Zpos md * 2 ^ (ed - emin) <= Zpos mn * 2 ^ (en - emin) ->
  F.leb F.one (F.div (finish false (Zpos mn) en) (S754_finite false md ed)) = true.
Proof.
  intros Cn Cd Hv. unfold finish.
  destruct (Z.leb_spec en 971) as [Hen | Hen]; [| reflexivity].
  assert (Hee : ed <= en).
  { destruct (Z.le_gt_cases ed en); [assumption |].
    pose proof (canonical_lt mn en md ed Cn Cd ltac:(lia)). lia. }
  pose proof Cn as Cn'. pose proof Cd as Cd'.
  apply canonical_facts in Cn' as (Hn1 & Hn2 & Hn3), Cd' as (Hd1 & Hd2 & Hd3).
  assert (Hq : Zpos md <= Zpos mn * 2 ^ (en - ed)).
  { replace (en - emin) with (en - ed + (ed - emin)) in Hv by lia.
    rewrite Z.pow_add_r in Hv by lia.
    assert (0 < 2 ^ (ed - emin)) by (apply Z.pow_pos_nonneg; lia). nia. }
  unfold F.div, SFdiv, SFdiv_core_binary. rewrite div_eucl_pair.
  change (Zdigits2 (Zpos mn)) with (dg mn). change (Zdigits2 (Zpos md)) with (dg md).
  change (SpecFloat.fexp F.prec F.emax) with fexp.
  set (delta := dg mn + en - (dg md + ed)).
  set (e' := Z.min (fexp delta) (en - ed)).
  set (s := en - ed - e').
  assert (Hs : 0 <= s) by (unfold s, e'; lia).
  set (m' := match s with
             | 0 => Zpos mn
             | Zpos _ => Z.shiftl (Zpos mn) s
             | Zneg _ => 0
             end).
  assert (Hm' : m' = Zpos mn * 2 ^ s).
  { unfold m'. destruct s as [| p | p] eqn:Es; try lia.
    now rewrite Z.shiftl_mul_pow2 by lia. }
  pose proof (dg_bounds mn) as [Bn1 Bn2]. pose proof (dg_bounds md) as [Bd1 Bd2].
  pose proof (dg_pos mn). pose proof (dg_pos md).
  simpl xorb.
  destruct (Z.le_gt_cases e' 0) as [He' | He'].
  - assert (Hlow : 2 ^ (- e') <= m' / Zpos md).
    { apply Z.div_le_lower_bound; [lia |]. rewrite Hm'.
      replace s with (en - ed + - e') by (unfold s; lia).
      rewrite Z.pow_add_r by lia.
      assert (0 < 2 ^ (- e')) by (apply Z.pow_pos_nonneg; lia). nia. }
    assert (0 < 2 ^ (- e')) by (apply Z.pow_pos_nonneg; lia).
    apply bra_lower; [lia |].
    assert (- e' + 1 <= Zdigits2 (m' / Zpos md)).
    { apply digits_ge; [lia |]. replace (- e' + 1 - 1) with (- e') by lia.
      assumption. }
    lia.
  - assert (Hfd : fexp delta = delta - 53)
      by (unfold e' in He'; rewrite fexp_eq in *; lia).
    assert (Hs2 : 53 - dg mn + dg md <= s)
      by (unfold s, e'; rewrite Hfd; unfold delta; lia).
    assert (Hlow : 1 <= m' / Zpos md).
    { apply Z.div_le_lower_bound; [lia |]. rewrite Hm', Z.mul_1_r.
      assert (2 ^ dg md <= 2 ^ (dg mn - 1 + s)) by (apply Z.pow_le_mono_r; lia).
      rewrite Z.pow_add_r in * by lia.
      assert (0 < 2 ^ s) by (apply Z.pow_pos_nonneg; lia). nia. }
    apply bra_lower; [lia |].
    pose proof (digits_pos (m' / Zpos md) ltac:(lia)). lia.
Qed.

(** *** Multiplication by 255 *)

Lemma two_hundred_fifty_five :
  F.of_Z 255 = S754_finite false 8972014882652160 (-45).
Proof. reflexivity. Qed.

(** A product strictly below 255 rounds to at most 255. *)
Lemma bra_below_255 M E :
  0 < M -> E <= 0 -> M < 255 * 2 ^ (- E) ->
  exists m3 e3,
    binary_round_aux F.prec F.emax false M E loc_Exact = finish false m3 e3 /\
    0 <= m3 /\ e3 <= 0 /\ m3 <= 255 * 2 ^ (- e3).
Proof.
  intros HM HE Hlt. rewrite bra_spec by lia. cbv zeta. simpl loc_r. simpl loc_s.
  eexists _, _. split; [reflexivity |].
  set (d := Zdigits2 M).
  pose proof (digits_bounds M HM) as [B1 B2]. fold d in B1, B2.
  pose proof (digits_pos M HM) as Hd1. fold d in Hd1.
  assert (PE : 0 < 2 ^ (- E)) by (apply Z.pow_pos_nonneg; lia).
  assert (Hmag : d + E <= 8).
  { destruct (Z.le_gt_cases (d + E) 8) as [Hle | Hgt]; [assumption |].
    assert (2 ^ (8 - E) <= 2 ^ (d - 1)) by (apply Z.pow_le_mono_r; lia).
    replace (8 - E) with (8 + - E) in * by lia.
    rewrite Z.pow_add_r in * by lia. change (2 ^ 8) with 256 in *. nia. }
  set (t := fexp (d + E)).
  assert (Ht : t <= -45) by (unfold t; rewrite fexp_eq; lia).
  set (m2 := rne (shift M false false (t - E))).
  set (e1 := if 0 <? t - E then t else E).
  assert (Hm2 : 0 <= m2 /\ e1 <= 0 /\ m2 <= 255 * 2 ^ (- e1)).
  { unfold e1, m2. destruct (Z.ltb_spec 0 (t - E)) as [Hk | Hk].
    - pose proof (rne_bounds (shift M false false (t - E))) as [N1 N2].
      rewrite shift_m, Z.max_l in N1, N2 by lia.
      assert (Pk : 0 < 2 ^ (t - E)) by (apply Z.pow_pos_nonneg; lia).
      assert (0 <= M / 2 ^ (t - E)) by (apply Z.div_pos; lia).
      assert (Hq : M / 2 ^ (t - E) < 255 * 2 ^ (- t)).
      { apply Z.div_lt_upper_bound; [lia |].
        replace (- E) with (t - E + - t) in Hlt by lia.
        rewrite Z.pow_add_r in Hlt by lia. lia. }
      repeat split; lia.
    - replace (shift M false false (t - E))
        with {| shr_m := M; shr_r := false; shr_s := false |}
        by (unfold shift; destruct (t - E); try reflexivity; lia).
      rewrite rne_spec. cbn [andb]. repeat split; lia. }
  destruct Hm2 as (Hm2 & He1 & Hb2).
  set (d2 := Zdigits2 m2). set (t2 := fexp (d2 + e1)).
  destruct (Z.ltb_spec 0 (t2 - e1)) as [Hk | Hk].
  - rewrite Z.max_l by lia.
    assert (Pk : 0 < 2 ^ (t2 - e1)) by (apply Z.pow_pos_nonneg; lia).
    assert (P1 : 0 < 2 ^ (- e1)) by (apply Z.pow_pos_nonneg; lia).
    destruct (Z.eq_dec m2 0) as [H0 | H0].
    { assert (Ht2 : t2 <= 0) by (unfold t2, d2; rewrite H0, fexp_eq; simpl Zdigits2; lia).
      assert (0 < 2 ^ (- t2)) by (apply Z.pow_pos_nonneg; lia).
      rewrite H0, Z.div_0_l by lia. repeat split; lia. }
    assert (Hm2' : 0 < m2) by lia.
    pose proof (digits_bounds m2 Hm2') as [C1 C2]. fold d2 in C1, C2.
    pose proof (digits_pos m2 Hm2') as Hd2. fold d2 in Hd2.
    assert (Hmag2 : d2 + e1 <= 9).
    { destruct (Z.le_gt_cases (d2 + e1) 9) as [Hle | Hgt]; [assumption |].
      assert (2 ^ (9 - e1) <= 2 ^ (d2 - 1)) by (apply Z.pow_le_mono_r; lia).
      replace (9 - e1) with (9 + - e1) in * by lia.
      rewrite Z.pow_add_r in * by lia. change (2 ^ 9) with 512 in *. nia. }
    assert (Ht2 : t2 <= -44) by (unfold t2; rewrite fexp_eq; lia).
    repeat split.
    + apply Z.div_pos; lia.
    + lia.
    + apply Z.div_le_upper_bound; [lia |].
      replace (- e1) with (t2 - e1 + - t2) in Hb2 by lia.
      rewrite Z.pow_add_r in Hb2 by lia. lia.
  - rewrite Z.max_r, Z.pow_0_r, Z.div_1_r by lia. repeat split; assumption.
Qed.

End RoundBounds.

(** ** The normalization *)

Module Clamp.
Import Round RoundOrder RoundBounds FloatFacts.

Lemma clamp_eq q :
  clamp q = if F.ltb q F.zero then VInt 0
            else if F.ltb F.one q then VInt 1 else VFloat q.
Proof.
  unfold clamp, py_max, py_min, num_lt.
  change (as_float (VFloat q)) with q.
  change (as_float (VInt 0)) with F.zero.
  change (as_float (VInt 1)) with F.one.
  destruct (F.ltb q F.zero); [reflexivity |].
  change (as_float (VFloat q)) with q. reflexivity.
Qed.

Lemma clamp_in_unit q : F.is_nan q = false -> in_unit (clamp q) = true.
Proof.
  intros Hq. rewrite clamp_eq.
  destruct (F.ltb q F.zero) eqn:H0; [reflexivity |].
  destruct (F.ltb F.one q) eqn:H1; [reflexivity |].
  unfold in_unit. change (as_float (VFloat q)) with q.
  change (as_float (VInt 0)) with F.zero. change (as_float (VInt 1)) with F.one.
  rewrite (not_ltb_leb q F.zero Hq eq_refl H0).
  now rewrite (not_ltb_leb F.one q eq_refl Hq H1).
Qed.

Lemma clamp_negative q : signed true q -> num_eq (clamp q) (VInt 0) = true.
Proof.
  rewrite clamp_eq. intros [-> | [(m & e & ->) | ->]]; reflexivity.
Qed.

Lemma clamp_zero s : num_eq (clamp (S754_zero s)) (VInt 0) = true.
Proof. now destruct s. Qed.

Lemma clamp_one : clamp F.one = VFloat F.one.
Proof. reflexivity. Qed.

Lemma clamp_above q : F.leb F.one q = true -> num_eq (clamp q) (VInt 1) = true.
Proof.
  intros H1. rewrite clamp_eq.
  assert (H0 : F.ltb q F.zero = false).
  { destruct q as [s | s | | s m e]; try reflexivity; try discriminate;
      destruct s; try reflexivity; discriminate. }
  rewrite H0. destruct (F.ltb F.one q) eqn:H2; [reflexivity |].
  unfold num_eq. change (as_float (VFloat q)) with q.
  change (as_float (VInt 1)) with F.one.
  unfold F.leb, SFleb in H1. unfold F.ltb, SFltb in H2. unfold F.eqb, SFeqb.
  destruct (SFcompare F.one q) as [c |] eqn:Hc; [| discriminate].
  rewrite (compare_antisym _ _ _ Hc). destruct c; try discriminate. reflexivity.
Qed.

End Clamp.

Module Normalize.
Import Round RoundOrder RoundBounds FloatFacts Clamp.

Lemma normalize_eq lo hi v :
  F.is_zero (F.sub hi lo) = false ->
  normalize lo hi (VFloat v) = Ok (clamp (F.div (F.sub v lo) (F.sub hi lo))).
Proof.
  intros Hz. unfold normalize, sub_float, truediv. cbn [bind]. now rewrite Hz.
Qed.

(** A finite difference has finite operands. *)
Lemma sub_finite_operands x y :
  F.is_finite (F.sub x y) = true ->
  F.is_finite x = true /\ F.is_finite y = true.
Proof.
  destruct x as [sx | sx | | sx mx ex], y as [sy | sy | | sy my ey];
    intros H; try (split; reflexivity);
    try (destruct sx; discriminate H); try (destruct sy; discriminate H);
    try (destruct sx, sy; discriminate H); discriminate H.
Qed.

(** A quotient by a finite float that is not zero is [nan] only if the
    dividend is. *)
Lemma div_not_nan n s m e :
  F.is_nan n = false -> F.is_nan (F.div n (S754_finite s m e)) = false.
Proof.
  destruct n as [sn | sn | | sn mn en]; try discriminate; intros _;
    try reflexivity.
  eapply signed_not_nan, div_finite_signed.
Qed.

(** Floats that compare equal are both zero or the same float. *)
Lemma eqb_cases x y :
  F.eqb x y = true -> (F.is_zero x = true /\ F.is_zero y = true) \/ x = y.
Proof.
  unfold F.eqb, SFeqb.
  destruct x as [sx | sx | | sx mx ex], y as [sy | sy | | sy my ey];
    simpl; try discriminate; auto;
    try (destruct sx; discriminate); try (destruct sy; discriminate).
  - destruct sx, sy; try discriminate; auto.
  - intros H. right.
    assert (sx = sy /\ ex = ey /\ mx = my) as (-> & -> & ->); [| reflexivity].
    destruct sx, sy; try discriminate;
      destruct (ex ?= ey)%Z eqn:Hz; try discriminate;
      apply Z.compare_eq in Hz;
      destruct (Pos.compare_cont Eq mx my) eqn:Hm; try discriminate;
      apply Pos.compare_eq in Hm; auto.
Qed.

(** The difference with a finite float that is not zero does not see the
    sign of a zero. *)
Lemma sub_zero_sign s s' sy my ey :
  F.sub (S754_zero s) (S754_finite sy my ey)
  = F.sub (S754_zero s') (S754_finite sy my ey).
Proof. reflexivity. Qed.

Lemma leb_cases x y :
  F.leb x y = true -> F.ltb x y = true \/ F.eqb x y = true.
Proof.
  unfold F.leb, F.ltb, F.eqb, SFleb, SFltb, SFeqb.
  destruct (SFcompare x y) as [[] |]; auto.
Qed.

Lemma eqb_sym x y : F.eqb x y = true -> F.eqb y x = true.
Proof.
  unfold F.eqb, SFeqb. destruct (SFcompare x y) as [c |] eqn:Hc; [| discriminate].
  rewrite (compare_antisym _ _ _ Hc). now destruct c.
Qed.

Lemma bounds_finite lo hi :
  F.is_finite (F.sub hi lo) = true ->
  F.is_finite hi = true /\ F.is_finite lo = true.
Proof. apply sub_finite_operands. Qed.

Lemma range_positive lo hi :
  F.valid lo = true -> F.valid hi = true -> F.ltb lo hi = true ->
  F.is_finite (F.sub hi lo) = true ->
  exists md ed, F.sub hi lo = S754_finite false md ed.
Proof.
  intros Vlo Vhi Hlt Hfin. destruct (bounds_finite lo hi Hfin) as [Fh Fl].
  destruct (sub_gt_positive hi lo Vhi Vlo Fh Fl Hlt) as [(m & e & H) | H].
  - eauto.
  - rewrite H in Hfin. discriminate.
Qed.

Lemma normalize_clamp lo hi v :
  F.valid lo = true -> F.valid hi = true -> F.ltb lo hi = true ->
  F.is_finite (F.sub hi lo) = true ->
  normalize lo hi (VFloat v) = Ok (clamp (F.div (F.sub v lo) (F.sub hi lo))).
Proof.
  intros Vlo Vhi Hlt Hfin. apply normalize_eq.
  destruct (range_positive lo hi Vlo Vhi Hlt Hfin) as (md & ed & ->).
  reflexivity.
Qed.

Lemma quotient_not_nan lo hi v :
  F.valid lo = true -> F.valid hi = true -> F.ltb lo hi = true ->
  F.is_finite (F.sub hi lo) = true ->
  F.is_nan v = false ->
  F.is_nan (F.div (F.sub v lo) (F.sub hi lo)) = false.
Proof.
  intros Vlo Vhi Hlt Hfin Nv. destruct (bounds_finite lo hi Hfin) as [Fh Fl].
  destruct (range_positive lo hi Vlo Vhi Hlt Hfin) as (md & ed & ->).
  apply div_not_nan.
  destruct (F.is_finite v) eqn:Fv.
  - now apply sub_not_nan.
  - destruct v as [s | s | | s m e]; try discriminate.
    destruct lo as [sl | sl | | sl ml el]; try discriminate; reflexivity.
Qed.

Lemma below_is_zero lo hi v :
  F.valid lo = true -> F.valid hi = true -> F.ltb lo hi = true ->
  F.is_finite (F.sub hi lo) = true ->
  F.valid v = true -> F.leb v lo = true ->
  num_eq (clamp (F.div (F.sub v lo) (F.sub hi lo))) (VInt 0) = true.
Proof.
  intros Vlo Vhi Hlt Hfin Vv Hle. destruct (bounds_finite lo hi Hfin) as [Fh Fl].
  destruct (range_positive lo hi Vlo Vhi Hlt Hfin) as (md & ed & ->).
  destruct (F.is_finite v) eqn:Fv.
  - apply leb_cases in Hle as [Hl | He].
    + apply clamp_negative.
      destruct (sub_lt_negative v lo Vv Vlo Fv Fl Hl) as [(m & e & ->) | ->].
      * apply (div_finite_signed true m e false md ed).
      * right. right. reflexivity.
    + apply eqb_sym in He.
      pose proof (sub_eq_zero lo v Fl He) as Hz.
      destruct (F.sub v lo) as [s | | |]; try discriminate. apply clamp_zero.
  - destruct v as [s | s | | s m e]; try discriminate.
    destruct s.
    + destruct lo as [sl | sl | | sl ml el]; try discriminate; reflexivity.
    + destruct lo as [sl | sl | | sl ml el]; try discriminate;
        destruct sl; discriminate.
Qed.

Lemma above_is_one lo hi v :
  F.valid lo = true -> F.valid hi = true -> F.ltb lo hi = true ->
  F.is_finite (F.sub hi lo) = true ->
  F.valid v = true -> F.leb hi v = true ->
  num_eq (clamp (F.div (F.sub v lo) (F.sub hi lo))) (VInt 1) = true.
Proof.
  intros Vlo Vhi Hlt Hfin Vv Hle. destruct (bounds_finite lo hi Hfin) as [Fh Fl].
  destruct (range_positive lo hi Vlo Vhi Hlt Hfin) as (md0 & ed0 & Hr).
  destruct (F.is_finite v) eqn:Fv.
  - apply leb_cases in Hle as [Hl | He].
    + destruct (sub_mono v hi lo Vv Vhi Vlo Fv Fh Fl Hlt Hl)
        as (md & ed & mn & en & Hd & Hn & Cd & Cn & Hmn).
      rewrite Hn, Hd. rewrite Hd in Hfin. unfold finish in Hfin |- * at 2.
      destruct (ed <=? 971); [| discriminate].
      apply clamp_above. now apply div_ge_one.
    + assert (Hs : F.sub v lo = F.sub hi lo).
      { apply eqb_cases in He as [[Zh Zv] | ->]; [| reflexivity].
        destruct hi as [sh | | |]; try discriminate.
        destruct v as [sv | | |]; try discriminate.
        destruct lo as [sl | sl | | sl ml el]; try discriminate.
        reflexivity. }
      rewrite Hs, Hr, div_self. reflexivity.
  - rewrite Hr. destruct v as [s | s | | s m e]; try discriminate.
    + destruct s.
      * destruct hi as [sh | sh | | sh mh eh]; try discriminate;
          destruct sh; discriminate.
      * destruct lo as [sl | sl | | sl ml el]; try discriminate; reflexivity.
    + destruct hi; discriminate.
Qed.


End Normalize.

(** ** Colour strings *)

Module ColourFacts.
Import Round RoundOrder RoundBounds Colour.

Lemma to_upper_cons c s :
  Str.to_upper (String c s) = String (Str.upper c) (Str.to_upper s).
Proof. reflexivity. Qed.

Lemma to_upper_app a b :
  Str.to_upper (a ++ b) = Str.to_upper a ++ Str.to_upper b.
Proof.
  induction a as [| c a IH]; [reflexivity |].
  change (String c a ++ b) with (String c (a ++ b)).
  rewrite !to_upper_cons, IH. reflexivity.
Qed.

Lemma format_byte_all :
  forallb (fun n => String.eqb (Str.to_upper (Str.format_02x (Z.of_nat n)))
                               (byte (Z.of_nat n)))
          (seq 0 256) = true.
Proof. vm_compute. reflexivity. Qed.

(** [{z:02x}] in upper case is the byte [z] as two hexadecimal digits. *)
Lemma format_byte z :
  0 <= z <= 255 -> Str.to_upper (Str.format_02x z) = byte z.
Proof.
  intros Hz. pose proof format_byte_all as H.
  rewrite forallb_forall in H.
  specialize (H (Z.to_nat z)). rewrite Z2Nat.id in H by lia.
  apply String.eqb_eq, H, in_seq. lia.
Qed.

Lemma hex_upper_all :
  forallb (fun n => is_upper_hex (hex_upper (Z.of_nat n))) (seq 0 16) = true.
Proof. vm_compute. reflexivity. Qed.

Lemma hex_upper_ok d : 0 <= d < 16 -> is_upper_hex (hex_upper d) = true.
Proof.
  intros Hd. pose proof hex_upper_all as H.
  rewrite forallb_forall in H.
  specialize (H (Z.to_nat d)). rewrite Z2Nat.id in H by lia.
  apply H, in_seq. lia.
Qed.

Lemma byte_upper_hex z :
  0 <= z <= 255 -> forallb is_upper_hex (Str.chars (byte z)) = true.
Proof.
  intros Hz. unfold byte, Str.chars. cbn [list_ascii_of_string forallb].
  rewrite !hex_upper_ok; [reflexivity | |].
  - apply Z.mod_pos_bound. lia.
  - split; [apply Z.div_pos; lia | apply Z.div_lt_upper_bound; lia].
Qed.

Lemma chars_app a b : Str.chars (a ++ b) = (Str.chars a ++ Str.chars b)%list.
Proof.
  unfold Str.chars. induction a as [| c a IH]; [reflexivity |].
  cbn [append list_ascii_of_string]. now rewrite IH.
Qed.

Lemma leb_finite_pos m e m' e' :
  F.leb (S754_finite false m e) (S754_finite false m' e') = true ->
  e < e' \/ (e = e' /\ Zpos m <= Zpos m').
Proof.
  unfold F.leb, SFleb, SFcompare.
  destruct (Z.compare_spec e e') as [-> | H | H]; intros Hc.
  - right. split; [reflexivity |].
    change (Pos.compare_cont Eq m m') with (m ?= m')%positive in Hc.
    apply Pos2Z.pos_le_pos.
    unfold Pos.le. destruct (m ?= m')%positive; discriminate.
  - left. assumption.
  - discriminate.
Qed.

(** The integer part of [x * 255] for [x] in the unit interval is a byte. *)
Lemma trunc_mul_unit x :
  unit_float x = true ->
  exists z, F.trunc (F.mul x (F.of_Z 255)) = Ok z /\ 0 <= z <= 255.
Proof.
  unfold unit_float. intros H.
  apply andb_true_iff in H as [H H1]. apply andb_true_iff in H as [Hv H0].
  destruct x as [s | s | | s m e]; try discriminate.
  - exists 0. split; [reflexivity | lia].
  - destruct s; discriminate.
  - destruct s; [discriminate |].
    apply valid_canonical in Hv as [Hc _]. apply canonical_facts in Hc.
    pose proof (dg_bounds m) as [B1 B2].
    assert (Hm : Zpos m < 2 ^ 53).
    { assert (2 ^ dg m <= 2 ^ 53) by (apply Z.pow_le_mono_r; lia). lia. }
    change F.one with (S754_finite false 4503599627370496 (-52)) in H1.
    apply leb_finite_pos in H1 as [He | [He Hle]].
    + unfold F.mul, SFmul. rewrite two_hundred_fifty_five. cbn [xorb].
      destruct (bra_below_255 (Zpos (m * 8972014882652160)) (e + -45))
        as (m3 & e3 & -> & Hm3 & He3 & Hb); try lia.
      { replace (- (e + -45)) with (98 + (- e - 53)) by lia.
        rewrite Z.pow_add_r by lia.
        assert (0 < 2 ^ (- e - 53)) by (apply Z.pow_pos_nonneg; lia).
        set (P := 2 ^ (- e - 53)) in *. clearbody P.
        change (2 ^ 98) with 316912650057057350374175801344.
        change (2 ^ 53) with 9007199254740992 in Hm.
        rewrite Pos2Z.inj_mul. lia. }
      unfold finish. destruct m3 as [| p | p]; try lia.
      * exists 0. split; [reflexivity | lia].
      * destruct (Z.leb_spec e3 971); [| lia].
        unfold F.trunc. destruct e3 as [| q | q]; try lia.
        -- exists (Zpos p). split; [reflexivity |]. simpl in Hb. lia.
        -- exists (Z.shiftr (Zpos p) (Zpos q)). split; [reflexivity |].
           rewrite Z.shiftr_div_pow2 by lia.
           change (- Zneg q) with (Zpos q) in Hb.
           assert (0 < 2 ^ Zpos q) by (apply Z.pow_pos_nonneg; lia).
           split; [apply Z.div_pos; lia |].
           apply Z.div_le_upper_bound; lia.
    + assert (Hd : dg m = 53)
        by (unfold emin, SpecFloat.emin, F.prec, F.emax in Hc; lia).
      rewrite Hd in B1. change (2 ^ (53 - 1)) with 4503599627370496 in B1.
      assert (Em : m = 4503599627370496%positive)
        by (apply Pos2Z.inj, Z.le_antisymm; assumption).
      rewrite Em, He. exists 255. split; [vm_compute; reflexivity | lia].
Qed.

End ColourFacts.

(** * The claims *)

(** ** Description parsing *)

(** C6 (as the code has it). The description of the specification's example
    parses to the timestamp ["2024-01-01 12:00:00"], the dose rate [0.15]
    and the count rate [25.3] as floats, and the accuracy as the string of
    digits ["5"], which [int] reads as the integer [5]. *)
Theorem parse_description_example :
  parse_description
    (VStr "<b>2024-01-01 12:00:00</b></br>0.15 µSv/h</br>25.3 cps</br>Accuracy: ±5 m</br>")
  = Ok {| f_datetime := VStr "2024-01-01 12:00:00";
          f_usvh := VFloat (F.of_decimal false 15 (-2));
          f_cps := VFloat (F.of_decimal false 253 (-1));
          f_accuracy := VStr "5" |}
  /\ py_int (VStr "5") = Ok 5.
Proof. split; vm_compute; reflexivity. Qed.

(** C6 as stated fails: the accuracy the parser returns is not the
    integer [5]. *)
Lemma parse_description_accuracy_not_int :
  parse_description
    (VStr "<b>2024-01-01 12:00:00</b></br>0.15 µSv/h</br>25.3 cps</br>Accuracy: ±5 m</br>")
  <> Ok {| f_datetime := VStr "2024-01-01 12:00:00";
           f_usvh := VFloat (F.of_decimal false 15 (-2));
           f_cps := VFloat (F.of_decimal false 253 (-1));
           f_accuracy := VInt 5 |}.
Proof. vm_compute. discriminate. Qed.



(** ** Extraction *)

(** C10. When a placemark of the input has no [styleUrl] or no
    [description] child, the extraction raises [AttributeError], the run
    prints the error and writes no file. *)
Theorem missing_child_aborts (E : env) (a : args) (root document p : Xml.element) :
  accepted E a = true ->
  read_kml_content E (input_file a) = Ok root ->
  Xml.child root "Document" = Ok document ->
  In p (Xml.findall_descendants document "Placemark") ->
  Xml.find_child p "styleUrl" = None \/ Xml.find_child p "description" = None ->
  process_kml E (input_file a) (arg_min a) (arg_max a) (arg_cmap a) (arg_alpha a)
  = Raise AttributeError
  /\ main E a = [Opened (input_file a); Printed (ProcessingError AttributeError)]
  /\ existsb is_write (main E a) = false.
Proof.
  intros Ha Hroot Hdoc Hin Hmiss.
  assert (Hp : process_kml E (input_file a) (arg_min a) (arg_max a)
                 (arg_cmap a) (arg_alpha a) = Raise AttributeError).
  { unfold process_kml. rewrite Hroot. simpl. rewrite Hdoc. simpl.
    destruct (Xml.child document "name") as [nm | e] eqn:Hn; simpl;
      [| now rewrite (Run.child_raises _ _ _ Hn)].
    destruct (Xml.child document "description") as [ds | e] eqn:Hd; simpl;
      [| now rewrite (Run.child_raises _ _ _ Hd)].
    rewrite (Pipeline.mapM_extract_raises _ p Hin
               (Pipeline.extract_placemark_missing p Hmiss)).
    reflexivity. }
  split; [exact Hp |].
  rewrite (Run.main_process_raises _ _ _ Ha Hp). split; reflexivity.
Qed.

Lemma missing_child_aborts_witness :
  main (Sample.world Sample.track_no_style) Sample.defaults
  = [Opened "track"; Printed (ProcessingError AttributeError)].
Proof.
  refine (proj1 (proj2 (missing_child_aborts
            (Sample.world Sample.track_no_style) Sample.defaults
            Sample.track_no_style
            (Sample.el "Document" [] None
               (Sample.el "name" [] (Some "Track") [] ::
                Sample.el "description" [] (Some "Points: 2/2") [] ::
                [Sample.el "Placemark" [("id", "1")] None
                   [Sample.el "description" [] (Some Sample.reading) [];
                    Sample.el "Point" [] None
                      [Sample.el "coordinates" [] (Some "12.5,45.6,100") []]]]))
            (Sample.el "Placemark" [("id", "1")] None
               [Sample.el "description" [] (Some Sample.reading) [];
                Sample.el "Point" [] None
                  [Sample.el "coordinates" [] (Some "12.5,45.6,100") []]])
            _ _ _ _ _))).
  - reflexivity.
  - reflexivity.
  - reflexivity.
  - simpl. left. reflexivity.
  - left. reflexivity.
Defined.

(** ** The output placemarks *)







(** C8. In the document a run writes, the coordinates of every placemark
    are the text [{longitude},{latitude},0], where longitude and latitude
    are the floats read from the first two comma-separated fields of the
    input placemark's coordinates, whatever follows them; so the altitude
    written is always 0, and ["12.5,45.6,100"] becomes ["12.5,45.6,0"]. *)
Theorem coordinates_rewritten (E : env) (a : args) (doc : Xml.element) :
  written (main E a) = Some doc ->
  (exists root document,
     read_kml_content E (input_file a) = Ok root /\
     Xml.child root "Document" = Ok document /\
     Forall2
       (fun p pm =>
          exists s c0 c1 rest longitude latitude,
            Kml.text_at p ["Point"; "coordinates"] = Some s /\
            Str.split "," s = c0 :: c1 :: rest /\
            Py.float_of_str c0 = Ok longitude /\
            Py.float_of_str c1 = Ok latitude /\
            Kml.point_coordinates pm
            = Some (Py.repr_float longitude ++ "," ++
                    Py.repr_float latitude ++ ",0"))
       (Xml.findall_descendants document "Placemark") (Kml.placemarks doc))
  /\ coordinates_text (VStr "12.5,45.6,100") = Ok "12.5,45.6,0".
Proof.
  intros H. split; [| vm_compute; reflexivity].
  apply Run.written_run in H as (root & document & df & Hr & Hd & Hrows & Hw).
  exists root, document. repeat split; auto.
  pose proof (Pipeline.Forall2_compose _ _ _ _ _ Hrows Hw) as H.
  eapply Pipeline.Forall2_impl; [| exact H].
  intros p pm (r & (f & _ & _ & Hco & _) & Hpm).
  destruct (Pipeline.wp_coords _ _ Hpm) as (c & Hc & Hpt).
  destruct (r_coordinates r) as [| s | |]; try discriminate Hc.
  apply Frame.kept_str in Hco.
  destruct (Kml.text_at p ["Point"; "coordinates"]) as [s' |]; [| discriminate].
  injection Hco as ->. unfold coordinates_text in Hc.
  simpl in Hc. destruct (Str.split "," s) as [| c0 [| c1 rest]] eqn:Hs;
    [discriminate | |].
  { apply bind_ok in Hc as (lon & _ & Hc). discriminate. }
  apply bind_ok in Hc as (lon & Hlon & Hc).
  apply bind_ok in Hc as (lat & Hlat & Hc). inversion Hc; subst c.
  exists s, c0, c1, rest, lon, lat. repeat split; assumption.
Qed.

Lemma coordinates_rewritten_witness :
  coordinates_text (VStr "12.5,45.6,100") = Ok "12.5,45.6,0".
Proof.
  assert (H : exists doc,
             written (main (Sample.world Sample.track_one) Sample.defaults)
             = Some doc)
    by (vm_compute; eexists; reflexivity).
  destruct H as (doc & H).
  exact (proj2 (coordinates_rewritten (Sample.world Sample.track_one)
                  Sample.defaults doc H)).
Defined.



(** ** Absent dose rates and equal bounds *)


Lemma normalize_none lo hi : normalize lo hi VNone = Raise TypeError.
Proof. reflexivity. Qed.

















(** * Further properties *)

(** ** Normalization *)

Lemma eqb_leb x y : F.eqb x y = true -> F.leb x y = true.
Proof.
  unfold F.eqb, F.leb, SFeqb, SFleb. now destruct (SFcompare x y) as [[] |].
Qed.


(** X1. For bounds [min_val < max_val] whose difference is finite and a
    dose rate that is a number, the normalization returns a number of the
    unit interval; it is zero ([== 0]) for a dose rate at or below
    [min_val] and one ([== 1]) for a dose rate at or above [max_val]. *)
Theorem normalize_unit_interval (min_val max_val v : F.float) :
  F.valid min_val = true -> F.valid max_val = true -> F.valid v = true ->
  F.is_nan v = false ->
  F.ltb min_val max_val = true ->
  F.is_finite (F.sub max_val min_val) = true ->
  exists r,
    normalize min_val max_val (VFloat v) = Ok r /\
    in_unit r = true /\
    (F.eqb v min_val = true -> num_eq r (VInt 0) = true) /\
    (F.eqb v max_val = true -> num_eq r (VInt 1) = true) /\
    (F.ltb v min_val = true -> num_eq r (VInt 0) = true) /\
    (F.ltb max_val v = true -> num_eq r (VInt 1) = true).
Proof.
  intros Vlo Vhi Vv Nv Hlt Hfin.
  exists (clamp (F.div (F.sub v min_val) (F.sub max_val min_val))).
  split; [now apply Normalize.normalize_clamp |].
  split; [now apply Clamp.clamp_in_unit, Normalize.quotient_not_nan |].
  repeat split; intros H.
  - apply Normalize.below_is_zero; auto using Normalize.eqb_sym. now apply eqb_leb.
  - apply Normalize.above_is_one; auto.
    now apply eqb_leb, Normalize.eqb_sym.
  - apply Normalize.below_is_zero; auto. now apply FloatFacts.ltb_leb.
  - apply Normalize.above_is_one; auto. now apply FloatFacts.ltb_leb.
Qed.

Lemma normalize_unit_interval_witness :
  exists r,
    normalize (F.of_decimal false 5 (-2)) (F.of_decimal false 5 (-1))
      (VFloat (F.of_decimal false 7 (-1))) = Ok r /\
    in_unit r = true /\
    (F.eqb (F.of_decimal false 7 (-1)) (F.of_decimal false 5 (-2)) = true ->
     num_eq r (VInt 0) = true) /\
    (F.eqb (F.of_decimal false 7 (-1)) (F.of_decimal false 5 (-1)) = true ->
     num_eq r (VInt 1) = true) /\
    (F.ltb (F.of_decimal false 7 (-1)) (F.of_decimal false 5 (-2)) = true ->
     num_eq r (VInt 0) = true) /\
    (F.ltb (F.of_decimal false 5 (-1)) (F.of_decimal false 7 (-1)) = true ->
     num_eq r (VInt 1) = true).
Proof.
  apply (normalize_unit_interval (F.of_decimal false 5 (-2))
           (F.of_decimal false 5 (-1)) (F.of_decimal false 7 (-1)));
    vm_compute; reflexivity.
Defined.

(** ** Colour strings *)

(** X2. For a known colour map whose red, green and blue at [v] are in the
    unit interval and an opacity in the unit interval, [get_color] returns
    eight upper-case hexadecimal digits: the bytes [int(alpha * 255)],
    [int(b * 255)], [int(g * 255)] and [int(r * 255)], in this order, each
    between 0 and 255; the fourth channel of the colour map is not used. *)
Theorem get_color_bytes (E : env) (v : value) (cmap_name : string)
    (alpha : F.float) (cmap : value -> colour) (r g b a : F.float) :
  get_cmap E cmap_name = Some cmap ->
  cmap v = (r, g, b, a) ->
  Colour.unit_float alpha = true ->
  Colour.unit_float r = true ->
  Colour.unit_float g = true ->
  Colour.unit_float b = true ->
  exists ia ib ig ir s,
    F.trunc (F.mul alpha (F.of_Z 255)) = Ok ia /\ 0 <= ia <= 255 /\
    F.trunc (F.mul b (F.of_Z 255)) = Ok ib /\ 0 <= ib <= 255 /\
    F.trunc (F.mul g (F.of_Z 255)) = Ok ig /\ 0 <= ig <= 255 /\
    F.trunc (F.mul r (F.of_Z 255)) = Ok ir /\ 0 <= ir <= 255 /\
    get_color E v cmap_name alpha = Ok s /\
    s = Colour.byte ia ++ Colour.byte ib ++ Colour.byte ig ++ Colour.byte ir /\
    String.length s = 8%nat /\
    forallb Colour.is_upper_hex (Str.chars s) = true.
Proof.
  intros Hcm Hv Ha Hr Hg Hb.
  destruct (ColourFacts.trunc_mul_unit alpha Ha) as (ia & Hia & Ba).
  destruct (ColourFacts.trunc_mul_unit b Hb) as (ib & Hib & Bb).
  destruct (ColourFacts.trunc_mul_unit g Hg) as (ig & Hig & Bg).
  destruct (ColourFacts.trunc_mul_unit r Hr) as (ir & Hir & Br).
  exists ia, ib, ig, ir,
    (Colour.byte ia ++ Colour.byte ib ++ Colour.byte ig ++ Colour.byte ir).
  split; [exact Hia |]. split; [exact Ba |].
  split; [exact Hib |]. split; [exact Bb |].
  split; [exact Hig |]. split; [exact Bg |].
  split; [exact Hir |]. split; [exact Br |].
  split; [| split; [reflexivity | split; [reflexivity |]]].
  - unfold get_color. rewrite Hcm, Hv, Hia, Hib, Hig, Hir. cbn [bind].
    rewrite !ColourFacts.to_upper_app, !ColourFacts.format_byte by assumption.
    reflexivity.
  - rewrite !ColourFacts.chars_app, !forallb_app,
      !ColourFacts.byte_upper_hex by assumption.
    reflexivity.
Qed.

Lemma get_color_bytes_witness :
  exists ia ib ig ir s,
    F.trunc (F.mul (F.of_decimal false 8 (-1)) (F.of_Z 255)) = Ok ia /\
    0 <= ia <= 255 /\
    F.trunc (F.mul F.zero (F.of_Z 255)) = Ok ib /\ 0 <= ib <= 255 /\
    F.trunc (F.mul F.zero (F.of_Z 255)) = Ok ig /\ 0 <= ig <= 255 /\
    F.trunc (F.mul F.one (F.of_Z 255)) = Ok ir /\ 0 <= ir <= 255 /\
    get_color (Sample.world Sample.track_one) (VFloat F.one) "two_tone"
      (F.of_decimal false 8 (-1)) = Ok s /\
    s = Colour.byte ia ++ Colour.byte ib ++ Colour.byte ig ++ Colour.byte ir /\
    String.length s = 8%nat /\
    forallb Colour.is_upper_hex (Str.chars s) = true.
Proof.
  apply (get_color_bytes (Sample.world Sample.track_one) (VFloat F.one)
           "two_tone" (F.of_decimal false 8 (-1)) Sample.two_tone
           F.one F.zero F.zero F.one);
    [reflexivity | vm_compute; reflexivity ..].
Defined.

Module RunFacts.
Import Pipeline Run.

Lemma mapM_raises_first {A B : Type} (f : A -> result B) (l : list A) (e : exn) :
  l <> [] -> (forall x, In x l -> f x = Raise e) -> mapM f l = Raise e.
Proof.
  destruct l as [| x l]; [congruence |]. intros _ H. simpl.
  now rewrite (H x (or_introl eq_refl)).
Qed.

Lemma get_color_unknown E v cm al :
  get_cmap E cm = None -> get_color E v cm al = Raise ValueError.
Proof. unfold get_color. now intros ->. Qed.

(** The frame of a successful [process_kml] has a row. *)
Lemma processed_some E path lo hi cm al df root document dicts parsed :
  processed E path lo hi cm al df root document dicts parsed -> df <> [].
Proof.
  intros H Hdf. pose proof (pr_ids _ _ _ _ _ _ _ _ _ _ _ H) as Hid.
  pose proof (pr_some _ _ _ _ _ _ _ _ _ _ _ H) as Hne.
  subst df. apply (f_equal (@List.length value)) in Hid.
  rewrite Frame.infer_column_length, !length_map in Hid.
  destruct dicts; [congruence | discriminate].
Qed.

Lemma process_kml_unknown_map E path lo hi cm al :
  get_cmap E cm = None -> is_ok (process_kml E path lo hi cm al) = false.
Proof.
  intros Hcm.
  destruct (process_kml E path lo hi cm al) as [[[df nm] ds] | e] eqn:Hp;
    [| reflexivity].
  apply process_kml_ok in Hp as (root & document & dicts & parsed & Hp).
  pose proof (processed_some _ _ _ _ _ _ _ _ _ _ _ Hp) as Hne.
  destruct (pr_colors _ _ _ _ _ _ _ _ _ _ _ Hp) as (colors & Hc & _).
  rewrite (mapM_raises_first _ _ ValueError) in Hc; [discriminate | |].
  - destruct df; [congruence | discriminate].
  - intros x _. now apply get_color_unknown.
Qed.

Lemma read_kmz E path entries :
  lower_suffix E path = ".kmz" ->
  zip_entries E path = Ok entries ->
  read_kml_content E path
  = match find (ends_with ".kml") (map fst entries) with
    | None => Raise ValueError
    | Some kml_filename =>
        kml_content <- zip_member entries kml_filename ;;
        xml_parse E kml_content
    end.
Proof.
  unfold read_kml_content. intros -> ->. reflexivity.
Qed.

Lemma forallb_map {A B : Type} (f : B -> bool) (g : A -> B) (l : list A) :
  forallb f (map g l) = forallb (fun x => f (g x)) l.
Proof. induction l as [| x l IH]; simpl; [reflexivity | now rewrite IH]. Qed.


Lemma find_none_forallb {A : Type} (f : A -> bool) (l : list A) :
  forallb (fun x => negb (f x)) l = true -> find f l = None.
Proof.
  induction l as [| x l IH]; simpl; [reflexivity |].
  intros H. apply andb_true_iff in H as [Hx Hl].
  apply negb_true_iff in Hx. rewrite Hx. auto.
Qed.


(** Steps of [process_kml] up to the extraction. *)
Lemma process_kml_header E path lo hi cm al root document nm ds :
  read_kml_content E path = Ok root ->
  Xml.child root "Document" = Ok document ->
  Xml.child document "name" = Ok nm ->
  Xml.child document "description" = Ok ds ->
  process_kml E path lo hi cm al =
  (placemarks <- mapM extract_placemark
                   (Xml.findall_descendants document "Placemark") ;;
   descriptions <- description_column E placemarks ;;
   parsed <- mapM parse_description descriptions ;;
   let infer := Pandas.infer_column (infer_string E) in
   let dt := infer (map f_datetime parsed) in
   let us := infer (map f_usvh parsed) in
   let cp := infer (map f_cps parsed) in
   let ac := infer (map f_accuracy parsed) in
   normalized <- mapM (normalize lo hi) us ;;
   let nm' := infer normalized in
   colors <- mapM (fun x => get_color E x cm al) nm' ;;
   let co := infer (map VStr colors) in
   Ok (zip_rows (record_column E p_id placemarks)
         (record_column E p_style_url placemarks)
         (record_column E p_coordinates placemarks)
         (record_column E p_description placemarks)
         dt us cp ac nm' co, nm, ds)).
Proof.
  intros Hr Hd Hn Hs. unfold process_kml.
  rewrite Hr. cbn [bind]. rewrite Hd. cbn [bind]. rewrite Hn. cbn [bind].
  rewrite Hs. cbn [bind]. reflexivity.
Qed.

Lemma child_none e name :
  Xml.find_child e name = None -> Xml.child e name = Raise AttributeError.
Proof. unfold Xml.child. now intros ->. Qed.

Lemma extract_placemark_no_coordinates p :
  no_coordinates p -> extract_placemark p = Raise AttributeError.
Proof.
  intros H. destruct (extract_placemark p) as [d | e] eqn:Hd.
  - exfalso. unfold extract_placemark in Hd.
    apply bind_ok in Hd as (st & _ & Hd).
    apply bind_ok in Hd as (pt & Hpt & Hd).
    apply bind_ok in Hd as (co & Hco & _).
    apply child_ok in Hpt, Hco.
    destruct H as [H | (pt' & H1 & H2)]; congruence.
  - now rewrite (extract_placemark_raises _ _ Hd).
Qed.

End RunFacts.

(** ** Runs that stop *)

(** X3. With a colour map name that [matplotlib] does not know, no run
    writes a file: a run that gets as far as reading its input stops with
    a printed error. *)
Theorem unknown_colour_map_aborts (E : env) (a : args) :
  accepted E a = true ->
  get_cmap E (arg_cmap a) = None ->
  written (main E a) = None /\
  exists e, main E a = [Opened (input_file a); Printed (ProcessingError e)].
Proof.
  intros Ha Hcm.
  assert (Hw : written (main E a) = None).
  { apply Pipeline.main_not_written. intros df name descr Hp.
    pose proof (RunFacts.process_kml_unknown_map E (input_file a) (arg_min a)
                  (arg_max a) (arg_cmap a) (arg_alpha a) Hcm) as H.
    rewrite Hp in H. discriminate. }
  split; [exact Hw | exact (Run.main_aborted E a Ha Hw)].
Qed.

Lemma unknown_colour_map_aborts_witness :
  written (main (Sample.world Sample.track_one) Cases.unknown_map) = None /\
  exists e, main (Sample.world Sample.track_one) Cases.unknown_map
            = [Opened "track"; Printed (ProcessingError e)].
Proof.
  apply (unknown_colour_map_aborts (Sample.world Sample.track_one)
           Cases.unknown_map); reflexivity.
Defined.

(** X4. For an input whose suffix is [.kmz] in any case, an archive none of
    whose entries has a name ending in [.kml] (in lower case) makes the run
    stop with [ValueError]; nothing is written. *)
Theorem kmz_without_kml_aborts (E : env) (a : args)
    (entries : list (string * string)) :
  accepted E a = true ->
  lower_suffix E (input_file a) = ".kmz" ->
  zip_entries E (input_file a) = Ok entries ->
  forallb (fun e => negb (ends_with ".kml" (fst e))) entries = true ->
  read_kml_content E (input_file a) = Raise ValueError /\
  main E a = [Opened (input_file a); Printed (ProcessingError ValueError)].
Proof.
  intros Ha Hs Hz Hn.
  assert (Hr : read_kml_content E (input_file a) = Raise ValueError).
  { rewrite (RunFacts.read_kmz _ _ _ Hs Hz).
    rewrite (RunFacts.find_none_forallb (ends_with ".kml") (map fst entries));
      [reflexivity |].
    now rewrite RunFacts.forallb_map. }
  split; [exact Hr |].
  apply Run.main_process_raises; [exact Ha |].
  unfold process_kml. now rewrite Hr.
Qed.

Lemma kmz_without_kml_aborts_witness :
  read_kml_content
    (Cases.archive [("notes.txt", "x"); ("DOC.KML", "y")] Sample.track_one)
    "track" = Raise ValueError /\
  main (Cases.archive [("notes.txt", "x"); ("DOC.KML", "y")] Sample.track_one)
       Sample.defaults
  = [Opened "track"; Printed (ProcessingError ValueError)].
Proof.
  apply (kmz_without_kml_aborts
           (Cases.archive [("notes.txt", "x"); ("DOC.KML", "y")] Sample.track_one)
           Sample.defaults [("notes.txt", "x"); ("DOC.KML", "y")]);
    reflexivity.
Defined.



(** X6. An input in which no [Placemark] without namespace stands below
    the [Document] gives an empty frame, whose [description] column does
    not exist: the run stops with [KeyError] and writes nothing. *)
Theorem no_placemark_aborts (E : env) (a : args)
    (root document nm ds : Xml.element) :
  accepted E a = true ->
  read_kml_content E (input_file a) = Ok root ->
  Xml.child root "Document" = Ok document ->
  Xml.child document "name" = Ok nm ->
  Xml.child document "description" = Ok ds ->
  Xml.findall_descendants document "Placemark" = [] ->
  main E a = [Opened (input_file a); Printed (ProcessingError KeyError)].
Proof.
  intros Ha Hr Hd Hn Hs He.
  apply Run.main_process_raises; [exact Ha |].
  rewrite (RunFacts.process_kml_header _ _ _ _ _ _ _ _ _ _ Hr Hd Hn Hs).
  rewrite He. reflexivity.
Qed.

Lemma no_placemark_aborts_witness :
  main (Sample.world (Sample.document [])) Sample.defaults
  = [Opened "track"; Printed (ProcessingError KeyError)].
Proof.
  apply (no_placemark_aborts (Sample.world (Sample.document [])) Sample.defaults
           (Sample.document [])
           (Sample.el "Document" [] None
              [Sample.el "name" [] (Some "Track") [];
               Sample.el "description" [] (Some "Points: 2/2") []])
           (Sample.el "name" [] (Some "Track") [])
           (Sample.el "description" [] (Some "Points: 2/2") []));
    reflexivity.
Defined.

(** X7. An input whose root has no [Document], whose [Document] has no
    [name] or no [description], or one of whose placemarks has no [Point]
    or no [coordinates] in its [Point], makes the run stop with
    [AttributeError]; nothing is written. *)
Theorem missing_structure_aborts (E : env) (a : args) (root : Xml.element) :
  accepted E a = true ->
  read_kml_content E (input_file a) = Ok root ->
  (Xml.find_child root "Document" = None \/
   exists document,
     Xml.find_child root "Document" = Some document /\
     (Xml.find_child document "name" = None \/
      Xml.find_child document "description" = None \/
      exists p, In p (Xml.findall_descendants document "Placemark") /\
                no_coordinates p)) ->
  main E a = [Opened (input_file a); Printed (ProcessingError AttributeError)].
Proof.
  intros Ha Hr H.
  apply Run.main_process_raises; [exact Ha |].
  unfold process_kml. rewrite Hr. cbn [bind].
  destruct H as [H | (document & Hd & H)].
  - now rewrite (RunFacts.child_none _ _ H).
  - unfold Xml.child at 1. rewrite Hd. cbn [bind].
    destruct (Xml.child document "name") as [nm | e] eqn:Hn; cbn [bind];
      [| now rewrite (Run.child_raises _ _ _ Hn)].
    unfold Xml.child at 1. rewrite Hd. cbn [bind].
    destruct (Xml.child document "description") as [ds | e] eqn:Hs; cbn [bind];
      [| now rewrite (Run.child_raises _ _ _ Hs)].
    unfold Xml.child at 1. rewrite Hd. cbn [bind].
    destruct H as [H | [H | (p & Hin & Hp)]].
    + rewrite (RunFacts.child_none _ _ H) in Hn. discriminate.
    + rewrite (RunFacts.child_none _ _ H) in Hs. discriminate.
    + rewrite (Pipeline.mapM_extract_raises _ p Hin
                 (RunFacts.extract_placemark_no_coordinates p Hp)).
      reflexivity.
Qed.

Lemma missing_structure_aborts_witness :
  main (Sample.world Cases.track_no_point) Sample.defaults
  = [Opened "track"; Printed (ProcessingError AttributeError)].
Proof.
  apply (missing_structure_aborts (Sample.world Cases.track_no_point)
           Sample.defaults Cases.track_no_point); [reflexivity | reflexivity |].
  right.
  exists (Sample.el "Document" [] None
            [Sample.el "name" [] (Some "Track") [];
             Sample.el "description" [] (Some "Points: 2/2") [];
             Sample.el "Placemark" [("id", "1")] None
               [Sample.el "styleUrl" [] (Some "#s") [];
                Sample.el "description" [] (Some Sample.reading) []]]).
  split; [reflexivity |]. right. right.
  exists (Sample.el "Placemark" [("id", "1")] None
            [Sample.el "styleUrl" [] (Some "#s") [];
             Sample.el "description" [] (Some Sample.reading) []]).
  split; [left; reflexivity | left; reflexivity].
Defined.

Module WriterFacts.
Import Pipeline Run.

Lemma fold_append_elem pms : forall t a x cs,
  fold_left Xml.append pms (Xml.Elem t a x cs) = Xml.Elem t a x (cs ++ pms)%list.
Proof.
  induction pms as [| pm pms IH]; intros t a x cs; simpl.
  - now rewrite app_nil_r.
  - rewrite IH. now rewrite <- app_assoc.
Qed.

(** The document the writer returns. *)
Lemma create_kml_structure E df name descr doc :
  create_kml_from_dataframe E df name descr = Ok doc ->
  exists pms,
    mapM placemark_of_row df = Ok pms /\
    Kml.placemarks doc = pms /\
    Xml.find_child doc "Document"
    = Some (KML "Document" [] None
              (header E "name" name (now E) ::
               header E "description" descr
                 ("Points: " ++ Str.of_Z (Z.of_nat (List.length df)) ++ "/"
                  ++ Str.of_Z (Z.of_nat (List.length df))) :: pms)).
Proof.
  unfold create_kml_from_dataframe. intros H.
  apply bind_ok in H as (pms & Hpms & H).
  set (h1 := header E "name" name (now E)) in *.
  set (h2 := header E "description" descr
               ("Points: " ++ Str.of_Z (Z.of_nat (List.length df)) ++ "/"
                ++ Str.of_Z (Z.of_nat (List.length df)))) in *.
  assert (N1 : Kml.is_placemark h1 = false)
    by (apply header_not_placemark; discriminate).
  assert (N2 : Kml.is_placemark h2 = false)
    by (apply header_not_placemark; discriminate).
  clearbody h1 h2.
  unfold KML at 2 in H. rewrite fold_append_elem in H.
  inversion H; subst doc; clear H.
  exists pms. split; [exact Hpms |].
  assert (Hf : Forall2 written_placemark df pms).
  { pose proof (mapM_ok_forall2 _ _ _ Hpms) as Hf.
    clear - Hf. induction Hf; constructor; auto using placemark_of_row_ok. }
  split; [| reflexivity].
  unfold Kml.placemarks.
  change (Xml.find_child
            (KML "kml" [] None
               [Xml.Elem {| Xml.ns := kml_ns; Xml.local := "Document" |} [] None
                  ([h1; h2] ++ pms)]) "Document")
    with (Some (Xml.Elem {| Xml.ns := kml_ns; Xml.local := "Document" |} [] None
                  ([h1; h2] ++ pms))).
  assert (Hp : filter Kml.is_placemark pms = pms).
  { apply filter_all.
    clear - Hf. induction Hf as [| r pm df pms Hr _ IH]; constructor; auto.
    unfold Kml.is_placemark. now rewrite (wp_tag _ _ Hr). }
  change (filter Kml.is_placemark (h1 :: h2 :: pms) = pms).
  change (filter Kml.is_placemark (h1 :: h2 :: pms))
    with (if Kml.is_placemark h1 then h1 :: filter Kml.is_placemark (h2 :: pms)
          else filter Kml.is_placemark (h2 :: pms)).
  rewrite N1.
  change (filter Kml.is_placemark (h2 :: pms))
    with (if Kml.is_placemark h2 then h2 :: filter Kml.is_placemark pms
          else filter Kml.is_placemark pms).
  rewrite N2. exact Hp.
Qed.

End WriterFacts.

Module TraceFacts.
Import Pipeline Run WriterFacts.

(** The title elements [process_kml] returns. *)
Lemma process_kml_titles E path lo hi cm al df nm ds :
  process_kml E path lo hi cm al = Ok (df, nm, ds) ->
  exists root document,
    read_kml_content E path = Ok root /\
    Xml.child root "Document" = Ok document /\
    Xml.child document "name" = Ok nm /\
    Xml.child document "description" = Ok ds.
Proof.
  unfold process_kml. intros H.
  apply bind_ok in H as (root & Hroot & H).
  apply bind_ok in H as (document & Hdoc & H).
  apply bind_ok in H as (nm' & Hnm & H).
  rewrite Hdoc in H. cbn [bind] in H.
  apply bind_ok in H as (ds' & Hds & H).
  cbn [bind] in H.
  apply bind_ok in H as (dicts & _ & H).
  apply bind_ok in H as (descs & _ & H).
  apply bind_ok in H as (parsed & _ & H).
  apply bind_ok in H as (normalized & _ & H).
  apply bind_ok in H as (colors & _ & H).
  inversion H; subst. exists root, document. auto.
Qed.

(** The only traces with a write. *)
Lemma main_write E a p doc :
  In (Wrote p doc) (main E a) ->
  main E a = [Opened (input_file a); Wrote p doc] /\
  convert E a = Ok (p, doc).
Proof.
  unfold main.
  destruct (negb (path_exists E (input_file a)));
    [intros [H | []]; discriminate |].
  destruct (negb _); [intros [H | []]; discriminate |].
  destruct (convert E a) as [[out kml] | e];
    [destruct (writable E out) |];
    intros [H | [H | []]]; try discriminate.
  inversion H; subst. auto.
Qed.

End TraceFacts.

(** ** Where the output goes *)

(** X8. A run that writes a file writes exactly one, after opening the
    input, and prints nothing. The file is the [--output] path when that
    has a suffix, the [--output] path with the suffix [.kml] when it has
    none, and without [--output] (or with an empty one) the input path
    with [_processed] added to its stem and the suffix [.kml]. *)
Theorem written_path (E : env) (a : args) (p : string) (doc : Xml.element) :
  In (Wrote p doc) (main E a) ->
  main E a = [Opened (input_file a); Wrote p doc] /\
  (forall out, arg_output a = Some out -> out <> "" ->
     path_suffix E out <> "" -> p = out) /\
  (forall out, arg_output a = Some out -> out <> "" ->
     path_suffix E out = "" -> with_suffix E out ".kml" = Ok p) /\
  (arg_output a = None \/ arg_output a = Some "" ->
   exists q,
     with_stem E (input_file a) (path_stem E (input_file a) ++ "_processed")
     = Ok q /\
     with_suffix E q ".kml" = Ok p).
Proof.
  intros H. apply TraceFacts.main_write in H as [Hm Hc].
  split; [exact Hm |].
  unfold convert in Hc.
  apply bind_ok in Hc as ([[df name] descr] & _ & Hc).
  apply bind_ok in Hc as (o & Ho & Hc).
  apply bind_ok in Hc as (k & _ & Hc). inversion Hc; subst o k; clear Hc.
  repeat split.
  - intros out Hout Hne Hs. rewrite Hout in Ho.
    destruct out as [| c o]; [congruence |].
    apply String.eqb_neq in Hs. rewrite Hs in Ho. congruence.
  - intros out Hout Hne Hs. rewrite Hout in Ho.
    destruct out as [| c o]; [congruence |].
    rewrite Hs in Ho. exact Ho.
  - intros Hout.
    assert (Ho' : (q <- with_stem E (input_file a)
                         (path_stem E (input_file a) ++ "_processed") ;;
                   with_suffix E q ".kml") = Ok p)
      by (destruct Hout as [Hout | Hout]; rewrite Hout in Ho; exact Ho).
    apply bind_ok in Ho' as (q & Hq & Hp). eauto.
Qed.

Lemma written_path_witness :
  exists doc,
    main (Cases.plain Sample.track_one) Cases.with_output
    = [Opened "track"; Wrote "out.kml" doc] /\
    (forall out, arg_output Cases.with_output = Some out -> out <> "" ->
       path_suffix (Cases.plain Sample.track_one) out <> "" -> "out.kml" = out) /\
    (forall out, arg_output Cases.with_output = Some out -> out <> "" ->
       path_suffix (Cases.plain Sample.track_one) out = "" ->
       with_suffix (Cases.plain Sample.track_one) out ".kml" = Ok "out.kml") /\
    (arg_output Cases.with_output = None \/
     arg_output Cases.with_output = Some "" ->
     exists q,
       with_stem (Cases.plain Sample.track_one) "track"
         (path_stem (Cases.plain Sample.track_one) "track" ++ "_processed")
       = Ok q /\
       with_suffix (Cases.plain Sample.track_one) q ".kml" = Ok "out.kml").
Proof.
  assert (H : exists doc,
             main (Cases.plain Sample.track_one) Cases.with_output
             = [Opened "track"; Wrote "out.kml" doc])
    by (vm_compute; eexists; reflexivity).
  destruct H as (doc & H). exists doc.
  apply (written_path (Cases.plain Sample.track_one) Cases.with_output
           "out.kml" doc).
  rewrite H. right. left. reflexivity.
Defined.

(** ** The head of the output document *)

(** X9. The [Document] of a written file holds a [name], a [description]
    and then the placemarks, nothing else. A title element of the input
    that is true is put inside the new element as a child (its text is not
    copied); for a title that is false the [name] is the time of the run
    and the [description] is [Points: n/n], with [n] the number of
    placemarks written. *)
Theorem written_header (E : env) (a : args) (doc : Xml.element) :
  written (main E a) = Some doc ->
  exists root document nm ds D,
    read_kml_content E (input_file a) = Ok root /\
    Xml.child root "Document" = Ok document /\
    Xml.child document "name" = Ok nm /\
    Xml.child document "description" = Ok ds /\
    Xml.find_child doc "Document" = Some D /\
    Xml.children_of D =
    (if truthy E nm then KML "name" [] None [nm]
     else KML "name" [] (Some (now E)) []) ::
    (if truthy E ds then KML "description" [] None [ds]
     else KML "description" []
            (Some ("Points: "
                   ++ Str.of_Z (Z.of_nat (List.length (Kml.placemarks doc)))
                   ++ "/"
                   ++ Str.of_Z (Z.of_nat (List.length (Kml.placemarks doc)))))
            []) ::
    Kml.placemarks doc.
Proof.
  intros H. apply Pipeline.main_written in H as (df & nm & ds & Hp & Hc).
  apply TraceFacts.process_kml_titles in Hp as (root & document & Hr & Hd & Hn & Hs).
  apply WriterFacts.create_kml_structure in Hc as (pms & Hpms & Hk & Hf).
  apply mapM_ok_length in Hpms.
  eexists root, document, nm, ds, _.
  repeat split; try eassumption.
  rewrite Hk, Hpms. reflexivity.
Qed.

Lemma written_header_witness :
  exists root document nm ds D,
    read_kml_content (Cases.plain Cases.track_untitled) "track" = Ok root /\
    Xml.child root "Document" = Ok document /\
    Xml.child document "name" = Ok nm /\
    Xml.child document "description" = Ok ds /\
    Xml.find_child
      (match written (main (Cases.plain Cases.track_untitled) Sample.defaults) with
       | Some doc => doc
       | None => Sample.track_one
       end) "Document" = Some D /\
    Xml.children_of D =
    (if truthy (Cases.plain Cases.track_untitled) nm
     then KML "name" [] None [nm]
     else KML "name" [] (Some (now (Cases.plain Cases.track_untitled))) []) ::
    (if truthy (Cases.plain Cases.track_untitled) ds
     then KML "description" [] None [ds]
     else KML "description" []
            (Some ("Points: "
                   ++ Str.of_Z (Z.of_nat (List.length (Kml.placemarks
                        (match written (main (Cases.plain Cases.track_untitled)
                                          Sample.defaults) with
                         | Some doc => doc
                         | None => Sample.track_one
                         end))))
                   ++ "/"
                   ++ Str.of_Z (Z.of_nat (List.length (Kml.placemarks
                        (match written (main (Cases.plain Cases.track_untitled)
                                          Sample.defaults) with
                         | Some doc => doc
                         | None => Sample.track_one
                         end))))))
            []) ::
    Kml.placemarks
      (match written (main (Cases.plain Cases.track_untitled) Sample.defaults) with
       | Some doc => doc
       | None => Sample.track_one
       end).
Proof.
  assert (H : exists doc,
             written (main (Cases.plain Cases.track_untitled) Sample.defaults)
             = Some doc)
    by (vm_compute; eexists; reflexivity).
  destruct H as (doc & H). rewrite H.
  exact (written_header (Cases.plain Cases.track_untitled) Sample.defaults doc H).
Defined.

Module RowFacts.
Import Pipeline Run WriterFacts.

Lemma Forall2_diag {A : Type} (R : A -> A -> Prop) (l : list A) :
  Forall2 R l l -> Forall (fun x => R x x) l.
Proof.
  induction l as [| x l IH]; intros H; inversion H; subst; constructor; auto.
Qed.

Lemma Forall2_and_r {A B : Type} (R : A -> B -> Prop) (P : B -> Prop) l1 l2 :
  Forall2 R l1 l2 -> Forall P l2 -> Forall2 (fun a b => R a b /\ P b) l1 l2.
Proof.
  induction 1 as [| a b l1 l2 Hab _ IH]; intros HP; inversion HP; subst;
    constructor; auto.
Qed.

Lemma Forall2_and_l {A B : Type} (R : A -> B -> Prop) (P : A -> Prop) l1 l2 :
  Forall2 R l1 l2 -> Forall P l1 -> Forall2 (fun a b => P a /\ R a b) l1 l2.
Proof.
  induction 1 as [| a b l1 l2 Hab _ IH]; intros HP; inversion HP; subst;
    constructor; auto.
Qed.

(** Row by row: the normalized value is the normalization of the row's
    dose rate, as it is or as a float, and the colour is the colour of the
    normalized value. *)
Definition coloured (E : env) (lo hi : F.float) (cm : string) (al : F.float)
    (r : row) : Prop :=
  exists n c,
    normalize lo hi (r_usvh r) = Ok n /\
    (r_usvh_normalized r = n \/ r_usvh_normalized r = Pandas.to_float64 n) /\
    get_color E (r_usvh_normalized r) cm al = Ok c /\
    r_color r = VStr c.

Lemma processed_coloured E path lo hi cm al df root document dicts parsed :
  processed E path lo hi cm al df root document dicts parsed ->
  Forall (coloured E lo hi cm al) df.
Proof.
  intros H.
  destruct (pr_normalized _ _ _ _ _ _ _ _ _ _ _ H) as (normalized & Hn & Hnm).
  destruct (pr_colors _ _ _ _ _ _ _ _ _ _ _ H) as (colors & Hc & Hcl).
  apply mapM_ok_forall2, Forall2_map_l in Hn.
  apply mapM_ok_forall2, Forall2_map_l in Hc.
  pose proof (Frame.infer_column_cells (infer_string E) normalized) as Hcells.
  rewrite <- Hnm in Hcells. apply Forall2_map_r in Hcells.
  pose proof (Forall2_compose _ _ _ _ _ Hn Hcells) as H1.
  assert (Hcl' : Forall2 (fun c r => r_color r = VStr c) colors df).
  { symmetry in Hcl. apply Forall2_maps in Hcl.
    clear - Hcl. induction Hcl; constructor; auto. }
  pose proof (Forall2_compose _ _ _ _ _ Hc Hcl') as H2.
  pose proof (Forall2_diag _ _ (Forall2_conj _ _ _ _ H1 H2)) as H3.
  eapply Forall_impl; [| exact H3].
  intros r ((n & Hrn & Hrc) & (c & Hgc & Hcc)). exists n, c. auto.
Qed.

(** The style of a placemark the writer builds. *)
Lemma placemark_style r pm :
  placemark_of_row r = Ok pm ->
  Kml.text_at pm ["Style"; "IconStyle"; "scale"] = Some "0.8" /\
  Kml.text_at pm ["Style"; "IconStyle"; "Icon"; "href"] = Some icon_href.
Proof.
  unfold placemark_of_row. intros H.
  apply bind_ok in H as (u & _ & H).
  apply bind_ok in H as (c & _ & H).
  apply bind_ok in H as (n & _ & H).
  apply bind_ok in H as (co & _ & H).
  inversion H; subst pm; clear H.
  destruct (r_color r); split; reflexivity.
Qed.

Lemma of_chars_chars s : Str.of_chars (Str.chars s) = s.
Proof. apply string_of_list_ascii_of_string. Qed.

Lemma split_chars_no_sep sep l :
  forallb (fun c => negb (Ascii.eqb c sep)) l = true ->
  Str.split_chars sep l = [l].
Proof.
  induction l as [| c l IH]; simpl; [reflexivity |].
  intros H. apply andb_true_iff in H as [Hc Hl].
  apply negb_true_iff in Hc. rewrite Hc, (IH Hl). reflexivity.
Qed.

(** The coordinates of a text without comma: after the longitude is read
    there is no latitude. *)
Lemma coordinates_text_one_part s :
  forallb (fun c => negb (Ascii.eqb c ",")) (Str.chars s) = true ->
  coordinates_text (VStr s)
  = match Py.float_of_str s with
    | Ok _ => Raise IndexError
    | Raise e => Raise e
    end.
Proof.
  intros H. unfold coordinates_text, Str.split.
  rewrite (split_chars_no_sep _ _ H). cbn [map]. rewrite of_chars_chars.
  destruct (Py.float_of_str s); reflexivity.
Qed.

End RowFacts.

(** ** The colour of each placemark *)

(** X10. In a written file every placemark keeps the colour of its own
    reading: its [Style/IconStyle/color] is the string [get_color] returns
    for the normalization of the dose rate parsed from the description of
    the input placemark at the same place (the normalized value as the
    lambda returns it, or turned into a float by the column); the scale is
    [0.8] and the icon is the fixed one. *)
Theorem written_colours (E : env) (a : args) (doc : Xml.element) :
  written (main E a) = Some doc ->
  exists root document,
    read_kml_content E (input_file a) = Ok root /\
    Xml.child root "Document" = Ok document /\
    Forall2
      (fun p pm =>
         exists d f u n c,
           Kml.text_at p ["description"] = Some d /\
           parse_description (VStr d) = Ok f /\
           f_usvh f = VFloat u /\
           normalize (arg_min a) (arg_max a) (VFloat u) = Ok n /\
           (get_color E n (arg_cmap a) (arg_alpha a) = Ok c \/
            get_color E (Pandas.to_float64 n) (arg_cmap a) (arg_alpha a) = Ok c) /\
           Kml.icon_color pm = Some c /\
           Kml.text_at pm ["Style"; "IconStyle"; "scale"] = Some "0.8" /\
           Kml.text_at pm ["Style"; "IconStyle"; "Icon"; "href"]
           = Some icon_href)
      (Xml.findall_descendants document "Placemark") (Kml.placemarks doc).
Proof.
  intros H. apply Pipeline.main_written in H as (df & nm & ds & Hp & Hc).
  apply Pipeline.process_kml_ok in Hp as (root & document & dicts & parsed & Hp).
  exists root, document.
  split; [exact (Pipeline.pr_read _ _ _ _ _ _ _ _ _ _ _ Hp) |].
  split; [exact (Pipeline.pr_document _ _ _ _ _ _ _ _ _ _ _ Hp) |].
  pose proof (Pipeline.processed_rows _ _ _ _ _ _ _ _ _ _ _ Hp) as Hrows.
  pose proof (RowFacts.processed_coloured _ _ _ _ _ _ _ _ _ _ _ Hp) as Hcol.
  apply WriterFacts.create_kml_structure in Hc as (pms & Hpms & -> & _).
  apply mapM_ok_forall2 in Hpms.
  pose proof (RowFacts.Forall2_and_r _ _ _ _ Hrows Hcol) as H1.
  pose proof (Pipeline.Forall2_compose _ _ _ _ _ H1 Hpms) as H2.
  eapply Pipeline.Forall2_impl; [| exact H2].
  intros p pm (r & (Hrow & n & c & Hn & Hnm & Hgc & Hrc) & Hpm).
  pose proof (Pipeline.placemark_of_row_ok _ _ Hpm) as Hw.
  destruct (Run.written_row_parsed _ _ _ Hrow Hw)
    as (d & ts & u & cp & acc & k & Hd & Hf & _ & _ & Hu & _ & _).
  destruct (RowFacts.placemark_style _ _ Hpm) as [Hs Hh].
  eexists d, _, u, n, c.
  split; [exact Hd |]. split; [exact Hf |]. split; [reflexivity |].
  rewrite Hu in Hn. split; [exact Hn |].
  split; [destruct Hnm as [<- | <-]; auto |].
  split; [| split; assumption].
  rewrite (Pipeline.wp_color _ _ Hw), Hrc. reflexivity.
Qed.

Lemma written_colours_witness :
  exists root document,
    read_kml_content (Sample.world Sample.track_one) "track" = Ok root /\
    Xml.child root "Document" = Ok document /\
    Forall2
      (fun p pm =>
         exists d f u n c,
           Kml.text_at p ["description"] = Some d /\
           parse_description (VStr d) = Ok f /\
           f_usvh f = VFloat u /\
           normalize (arg_min Sample.defaults) (arg_max Sample.defaults)
             (VFloat u) = Ok n /\
           (get_color (Sample.world Sample.track_one) n
              (arg_cmap Sample.defaults) (arg_alpha Sample.defaults) = Ok c \/
            get_color (Sample.world Sample.track_one) (Pandas.to_float64 n)
              (arg_cmap Sample.defaults) (arg_alpha Sample.defaults) = Ok c) /\
           Kml.icon_color pm = Some c /\
           Kml.text_at pm ["Style"; "IconStyle"; "scale"] = Some "0.8" /\
           Kml.text_at pm ["Style"; "IconStyle"; "Icon"; "href"]
           = Some icon_href)
      (Xml.findall_descendants document "Placemark")
      (Kml.placemarks
         (match written (main (Sample.world Sample.track_one) Sample.defaults) with
          | Some doc => doc
          | None => Sample.track_one
          end)).
Proof.
  assert (H : exists doc,
             written (main (Sample.world Sample.track_one) Sample.defaults)
             = Some doc)
    by (vm_compute; eexists; reflexivity).
  destruct H as (doc & H). rewrite H.
  exact (written_colours (Sample.world Sample.track_one) Sample.defaults doc H).
Defined.

(** ** Coordinates *)

(** X11. An input with a placemark whose coordinates are missing as text
    or hold no comma is never converted: [float(coords[1])] has nothing to
    read, the run prints an error and writes no file. *)
Theorem coordinates_without_comma_abort (E : env) (a : args)
    (root document p : Xml.element) :
  accepted E a = true ->
  read_kml_content E (input_file a) = Ok root ->
  Xml.child root "Document" = Ok document ->
  In p (Xml.findall_descendants document "Placemark") ->
  (Kml.text_at p ["Point"; "coordinates"] = None \/
   exists s, Kml.text_at p ["Point"; "coordinates"] = Some s /\
             forallb (fun c => negb (Ascii.eqb c ",")) (Str.chars s) = true) ->
  written (main E a) = None /\
  exists e, main E a = [Opened (input_file a); Printed (ProcessingError e)].
Proof.
  intros Ha Hr Hd Hin Hco.
  assert (Hw : written (main E a) = None).
  { destruct (written (main E a)) as [doc |] eqn:Hw; [exfalso | reflexivity].
    apply Run.written_run in Hw as (root' & document' & df & Hr' & Hd' & Hrows & Hpm).
    rewrite Hr in Hr'. inversion Hr'; subst root'.
    rewrite Hd in Hd'. inversion Hd'; subst document'.
    destruct (Pipeline.Forall2_in_l _ _ _ _ Hrows Hin) as (r & Hr_in & Hrow).
    destruct (Pipeline.Forall2_in_l _ _ _ _ Hpm Hr_in) as (pm & _ & Hwp).
    destruct Hrow as (f & _ & _ & Hrc & _).
    destruct (Pipeline.wp_coords _ _ Hwp) as (c & Hc & _).
    destruct (r_coordinates r) as [| s0 | |]; try discriminate Hc.
    apply Frame.kept_str in Hrc.
    destruct Hco as [Hnone | (s & Hs & Hcomma)].
    - rewrite Hnone in Hrc. discriminate.
    - rewrite Hs in Hrc. injection Hrc as <-.
      rewrite (RowFacts.coordinates_text_one_part _ Hcomma) in Hc.
      destruct (Py.float_of_str s); discriminate. }
  split; [exact Hw | exact (Run.main_aborted E a Ha Hw)].
Qed.

Lemma coordinates_without_comma_abort_witness :
  written (main (Sample.world Cases.track_one_coordinate) Sample.defaults) = None /\
  exists e, main (Sample.world Cases.track_one_coordinate) Sample.defaults
            = [Opened "track"; Printed (ProcessingError e)].
Proof.
  apply (coordinates_without_comma_abort
           (Sample.world Cases.track_one_coordinate) Sample.defaults
           Cases.track_one_coordinate
           (Sample.el "Document" [] None
              [Sample.el "name" [] (Some "Track") [];
               Sample.el "description" [] (Some "Points: 2/2") [];
               Sample.placemark [("id", "7")] "12.5" Sample.reading])
           (Sample.placemark [("id", "7")] "12.5" Sample.reading));
    [reflexivity | reflexivity | reflexivity | left; reflexivity |].
  right. exists "12.5". split; reflexivity.
Defined.

Module Matching.
Import Re.

Section Runs.
Context {R : Type}.
Implicit Types k : @cont R.

Lemma run_seq r1 r2 k s caps :
  run (Seq r1 r2) k s caps = run r1 (run r2 k) s caps.
Proof. reflexivity. Qed.

Lemma run_lit l k s caps : run (lit l) k (l ++ s)%list caps = k s caps.
Proof.
  revert k; induction l as [| c l IH]; intros k; [reflexivity |].
  cbn [lit app]. rewrite run_seq. cbn [run atom_match].
  rewrite N.eqb_refl. apply IH.
Qed.

Lemma run_lit_mismatch c l k c' s caps :
  (c' =? c)%N = false -> run (lit (c :: l)) k (c' :: s) caps = None.
Proof.
  intros H. cbn [lit]. rewrite run_seq. cbn [run atom_match]. now rewrite H.
Qed.

(** [.*?] in front of a continuation that wants a [<]: over a text
    without [<] and without line feed nothing shorter than the whole text
    is taken. *)
Lemma lazy_star_until k ts rest caps r :
  (forall c s caps', (c =? 60)%N = false -> k (c :: s) caps' = None) ->
  forallb (fun x => negb (x =? 60)%N) ts = true ->
  forallb (fun x => negb (x =? newline)%N) ts = true ->
  k rest caps = Some r ->
  lazy_star ADot k (ts ++ rest)%list caps = Some r.
Proof.
  intros Hk. induction ts as [| c ts IH]; intros H1 H2 Hr.
  - destruct rest; simpl; now rewrite Hr.
  - cbn [forallb] in H1, H2.
    apply andb_true_iff in H1 as [Hc1 H1]. apply andb_true_iff in H2 as [Hc2 H2].
    apply negb_true_iff in Hc1.
    cbn [app lazy_star]. rewrite (Hk c _ caps Hc1).
    cbn [atom_match]. rewrite Hc2. now apply IH.
Qed.

(** [a*] takes every character of a text of the class when the character
    after it is not of the class. *)
Lemma greedy_star_all a k u rest caps r :
  forallb (atom_match a) u = true ->
  match rest with c :: _ => atom_match a c = false | [] => True end ->
  k rest caps = Some r ->
  greedy_star a k (u ++ rest)%list caps = Some r.
Proof.
  intros Hu Hrest Hr. induction u as [| c u IH].
  - destruct rest as [| c rest]; simpl; [exact Hr |]. now rewrite Hrest.
  - cbn [forallb] in Hu. apply andb_true_iff in Hu as [Hc Hu].
    cbn [app greedy_star]. rewrite Hc, (IH Hu). reflexivity.
Qed.

Lemma run_group_lazy k ts rest caps r :
  (forall c s caps', (c =? 60)%N = false -> k (c :: s) caps' = None) ->
  forallb (fun x => negb (x =? 60)%N) ts = true ->
  forallb (fun x => negb (x =? newline)%N) ts = true ->
  k rest (caps ++ [Str.of_codepoints ts])%list = Some r ->
  run (Group (LazyStar ADot)) k (ts ++ rest)%list caps = Some r.
Proof.
  intros Hk H1 H2 Hr. cbn [run].
  apply lazy_star_until; auto.
  now rewrite ReFacts.consumed_app.
Qed.

Lemma run_group_plus p k u rest caps r :
  u <> [] ->
  forallb p u = true ->
  match rest with c :: _ => p c = false | [] => True end ->
  k rest (caps ++ [Str.of_codepoints u])%list = Some r ->
  run (Group (Plus (AClass p))) k (u ++ rest)%list caps = Some r.
Proof.
  intros Hne Hu Hrest Hr. destruct u as [| c u]; [congruence |].
  cbn [forallb] in Hu. apply andb_true_iff in Hu as [Hc Hu].
  cbn [run app atom_match]. rewrite Hc.
  apply (greedy_star_all (AClass p)); auto.
  change (c :: (u ++ rest)%list) with ((c :: u) ++ rest)%list.
  now rewrite ReFacts.consumed_app.
Qed.

End Runs.

(** *** The characters of a text put together *)

Lemma codepoints_app_fresh a b :
  Utf8Facts.fresh (Str.chars b) ->
  Str.codepoints (a ++ b) = (Str.codepoints a ++ Str.codepoints b)%list.
Proof.
  intros H. unfold Str.codepoints. rewrite ColourFacts.chars_app.
  now apply Utf8Facts.decode_app.
Qed.

Lemma codepoints_app_valid a b :
  forallb Unicode.scalar (Str.codepoints a) = true ->
  Str.codepoints (a ++ b) = (Str.codepoints a ++ Str.codepoints b)%list.
Proof.
  intros H. unfold Str.codepoints. rewrite ColourFacts.chars_app.
  now apply Utf8Facts.decode_app_valid.
Qed.

(** The text of the characters of a text is the text. *)
Lemma of_codepoints_codepoints s : Str.of_codepoints (Str.codepoints s) = s.
Proof.
  unfold Str.of_codepoints, Str.codepoints. rewrite Utf8Facts.encode_decode.
  apply RowFacts.of_chars_chars.
Qed.

Lemma codepoints_formatted pre ts u c a post :
  Str.codepoints (formatted pre ts u c a post)
  = (Str.codepoints pre ++ Str.codepoints "<b>" ++ Str.codepoints ts ++
     Str.codepoints "</b></br>" ++ Str.codepoints u ++
     Str.codepoints " µSv/h</br>" ++ Str.codepoints c ++
     Str.codepoints " cps</br>Accuracy: ±" ++ Str.codepoints a ++
     Str.codepoints " m</br>" ++ Str.codepoints post)%list.
Proof.
  unfold formatted.
  rewrite (codepoints_app_fresh pre) by reflexivity.
  rewrite (codepoints_app_valid "<b>") by reflexivity.
  rewrite (codepoints_app_fresh ts) by reflexivity.
  rewrite (codepoints_app_valid "</b></br>") by reflexivity.
  rewrite (codepoints_app_fresh u) by reflexivity.
  rewrite (codepoints_app_valid " µSv/h</br>") by reflexivity.
  rewrite (codepoints_app_fresh c) by reflexivity.
  rewrite (codepoints_app_valid " cps</br>Accuracy: ±") by reflexivity.
  rewrite (codepoints_app_fresh a) by reflexivity.
  rewrite (codepoints_app_valid " m</br>") by reflexivity.
  reflexivity.
Qed.

(** *** ASCII texts *)

Lemma codepoints_ascii s :
  Str.is_ascii (Str.chars s) = true ->
  Str.codepoints s = map Str.code (Str.chars s).
Proof. intros H. unfold Str.codepoints. now apply Utf8Facts.decode_ascii. Qed.

Lemma digit_ascii b : Str.is_digit b = true -> (Str.code b <? 128)%N = true.
Proof.
  unfold Str.is_digit. intros H. apply andb_true_iff in H as [_ H].
  apply N.leb_le in H. apply N.ltb_lt. lia.
Qed.

Lemma digit_or_dot_ascii b : digit_or_dot b = true -> (Str.code b <? 128)%N = true.
Proof.
  unfold digit_or_dot. intros H. apply orb_true_iff in H as [H | H].
  - now apply digit_ascii.
  - apply Ascii.eqb_eq in H. now subst b.
Qed.

(** An ASCII digit is a decimal digit. *)
Lemma digit_decimal b : Str.is_digit b = true -> Re.class_d (Str.code b) = true.
Proof.
  intros H. pose proof (digit_ascii _ H) as Ha. apply N.ltb_lt in Ha.
  unfold class_d, Unicode.is_decimal.
  rewrite (Utf8Facts.ascii_decimal _ Ha). unfold Utf8Facts.ascii_digit.
  unfold Str.is_digit in H. now rewrite H.
Qed.

Lemma digit_or_dot_class b :
  digit_or_dot b = true -> Re.class_d_dot (Str.code b) = true.
Proof.
  unfold digit_or_dot, class_d_dot. intros H.
  apply orb_true_iff in H as [H | H].
  - now rewrite (digit_decimal _ H).
  - apply Ascii.eqb_eq in H. subst b. apply orb_true_r.
Qed.

Lemma forallb_impl {A : Type} (p q : A -> bool) l :
  (forall x, p x = true -> q x = true) -> forallb p l = true -> forallb q l = true.
Proof.
  intros Hpq. rewrite !forallb_forall. auto.
Qed.

Lemma chars_nonempty s : String.eqb s "" = false -> Str.chars s <> [].
Proof. destruct s; [discriminate | discriminate]. Qed.

(** A token of ASCII characters of a class, as characters of the class of
    the pattern. *)
Lemma token_codepoints (p : ascii -> bool) (q : N -> bool) s :
  (forall b, p b = true -> (Str.code b <? 128)%N = true) ->
  (forall b, p b = true -> q (Str.code b) = true) ->
  token p s = true ->
  Str.codepoints s <> [] /\ forallb q (Str.codepoints s) = true.
Proof.
  intros Hascii Hq H. unfold token in H. apply andb_true_iff in H as [H1 H2].
  apply negb_true_iff, chars_nonempty in H1.
  rewrite codepoints_ascii by (exact (forallb_impl _ _ _ Hascii H2)).
  split.
  - destruct (Str.chars s); [congruence | discriminate].
  - rewrite RunFacts.forallb_map. exact (forallb_impl _ _ _ Hq H2).
Qed.

Lemma no_angle_codepoints s :
  no_angle s = true -> forallb (fun x => negb (x =? 60)%N) (Str.codepoints s) = true.
Proof. intros H. exact (Utf8Facts.decode_without "<"%char _ eq_refl H). Qed.

Lemma one_line_codepoints s :
  one_line s = true ->
  forallb (fun x => negb (x =? newline)%N) (Str.codepoints s) = true.
Proof.
  intros H. exact (Utf8Facts.decode_without (ascii_of_N newline) _ eq_refl H).
Qed.

(** The pattern against a description of the expected form, from its
    first character. *)
Lemma run_pattern ts u c a post :
  no_angle ts = true -> one_line ts = true ->
  token digit_or_dot u = true -> token digit_or_dot c = true ->
  token Str.is_digit a = true ->
  run pattern (fun _ caps => Some caps)
    (Str.codepoints (formatted "" ts u c a post)) []
  = Some [ts; u; c; a].
Proof.
  intros Hts1 Hts2 Hu Hc Ha.
  apply no_angle_codepoints in Hts1. apply one_line_codepoints in Hts2.
  apply (token_codepoints _ Re.class_d_dot _ digit_or_dot_ascii digit_or_dot_class)
    in Hu as [Hu0 Hu], Hc as [Hc0 Hc].
  apply (token_codepoints _ Re.class_d _ digit_ascii digit_decimal) in Ha as [Ha0 Ha].
  rewrite codepoints_formatted.
  change (Str.codepoints "") with (@nil N). cbn [app].
  unfold pattern. cbv beta zeta.
  rewrite run_seq, run_lit, run_seq.
  apply run_group_lazy; auto.
  { intros x s caps' Hx. rewrite run_seq.
    apply run_lit_mismatch. exact Hx. }
  rewrite run_seq, run_lit, run_seq.
  apply run_group_plus; auto; [reflexivity |].
  rewrite run_seq, run_lit, run_seq.
  apply run_group_plus; auto; [reflexivity |].
  rewrite run_seq, run_lit, run_seq.
  apply run_group_plus; auto; [reflexivity |].
  rewrite run_lit. cbn [app].
  now rewrite !of_codepoints_codepoints.
Qed.

Lemma search_chars_skip pre s :
  forallb (fun x => negb (x =? 60)%N) pre = true ->
  search_chars pattern (pre ++ s)%list = search_chars pattern s.
Proof.
  induction pre as [| x pre IH]; [reflexivity |].
  cbn [forallb]. intros H. apply andb_true_iff in H as [Hx H].
  apply negb_true_iff in Hx.
  cbn [app search_chars].
  assert (Hnone : run pattern (fun _ caps => Some caps) (x :: (pre ++ s)%list) []
                  = None).
  { unfold pattern. cbv beta zeta. rewrite run_seq.
    apply run_lit_mismatch. exact Hx. }
  rewrite Hnone. now apply IH.
Qed.

Lemma search_formatted pre ts u c a post :
  no_angle pre = true ->
  no_angle ts = true -> one_line ts = true ->
  token digit_or_dot u = true -> token digit_or_dot c = true ->
  token Str.is_digit a = true ->
  Re.search pattern (formatted pre ts u c a post) = Some [ts; u; c; a].
Proof.
  intros Hpre Hts1 Hts2 Hu Hc Ha. unfold Re.search.
  change (formatted pre ts u c a post)
    with (pre ++ formatted "" ts u c a post).
  rewrite codepoints_app_fresh by reflexivity.
  rewrite (search_chars_skip _ _ (no_angle_codepoints _ Hpre)).
  pose proof (run_pattern ts u c a post Hts1 Hts2 Hu Hc Ha) as H.
  destruct (Str.codepoints (formatted "" ts u c a post)) as [| x s] eqn:Hs.
  - cbn [search_chars]. now rewrite H.
  - cbn [search_chars]. now rewrite H.
Qed.

End Matching.

(** ** Descriptions of the expected form *)

(** X12. On a description of the form
    [<b>ts</b></br>u µSv/h</br>c cps</br>Accuracy: ±a m</br>], with any
    text around it that has no [<] before it, where [ts] is one line
    without [<], [u] and [c] are made of digits and dots and [a] of
    digits, [parse_description] returns [ts], [float(u)], [float(c)] and
    [a] as they stand; when [float] refuses [u] or [c] (as it does for
    [1.2.3]), its [ValueError] leaves [parse_description]. *)
Theorem parse_description_formatted (pre ts u c a post : string) :
  no_angle pre = true ->
  no_angle ts = true -> one_line ts = true ->
  token digit_or_dot u = true -> token digit_or_dot c = true ->
  token Str.is_digit a = true ->
  parse_description (VStr (formatted pre ts u c a post))
  = (x <- Py.float_of_str u ;;
     y <- Py.float_of_str c ;;
     Ok {| f_datetime := VStr ts; f_usvh := VFloat x;
           f_cps := VFloat y; f_accuracy := VStr a |}).
Proof.
  intros Hpre Hts1 Hts2 Hu Hc Ha. unfold parse_description.
  rewrite (Matching.search_formatted pre ts u c a post Hpre Hts1 Hts2 Hu Hc Ha).
  reflexivity.
Qed.

Lemma parse_description_formatted_witness :
  parse_description
    (VStr (formatted "Track 1: " "2024-01-01 12:00:00" "0.15" "25.3" "5" " end"))
  = (x <- Py.float_of_str "0.15" ;;
     y <- Py.float_of_str "25.3" ;;
     Ok {| f_datetime := VStr "2024-01-01 12:00:00"; f_usvh := VFloat x;
           f_cps := VFloat y; f_accuracy := VStr "5" |}).
Proof.
  apply (parse_description_formatted "Track 1: " "2024-01-01 12:00:00"
           "0.15" "25.3" "5" " end"); reflexivity.
Defined.

(** ** Rounding gives floats in canonical form *)

Module RoundValid.
Import Round RoundOrder RoundBounds.

Lemma valid_finish s m e :
  0 <= m -> (0 < m -> fexp (Zdigits2 m + e) = e) ->
  F.valid (finish s m e) = true.
Proof.
  intros Hm Hc. unfold finish. destruct m as [| p | p]; [reflexivity | | lia].
  destruct (Z.leb_spec e 971) as [He | He]; [| reflexivity].
  unfold F.valid, valid_binary, bounded, canonical_mantissa.
  change (SpecFloat.fexp F.prec F.emax) with fexp.
  change (Zpos (digits2_pos p)) with (Zdigits2 (Zpos p)).
  rewrite (Hc ltac:(lia)), Z.eqb_refl.
  apply Z.leb_le. unfold F.emax, F.prec. lia.
Qed.

Lemma digits_le_53 X : 0 <= X < 2 ^ 53 -> Zdigits2 X <= 53.
Proof.
  intros [H0 H1]. destruct (Z.eq_dec X 0) as [-> | Hne]; [simpl; lia |].
  pose proof (digits_bounds X ltac:(lia)) as [B1 B2].
  destruct (Z.le_gt_cases (Zdigits2 X) 53) as [H | H]; [assumption |].
  assert (2 ^ 53 <= 2 ^ (Zdigits2 X - 1)) by (apply Z.pow_le_mono_r; lia). lia.
Qed.

(** The outcome of [binary_round_aux] on a mantissa at or below its
    canonical exponent is a valid float. *)
Lemma bra_valid s m e l :
  0 <= m -> e <= fexp (Zdigits2 m + e) ->
  F.valid (binary_round_aux F.prec F.emax s m e l) = true.
Proof.
  intros Hm He.
  set (d := Zdigits2 m) in *. set (t := fexp (d + e)) in *.
  set (k1 := t - e). assert (Hk1 : 0 <= k1) by (unfold k1; lia).
  assert (Ht : t = Z.max (d + e - 53) (-1074)) by (unfold t; apply fexp_eq).
  set (M1 := m / 2 ^ k1).
  assert (P1 : 0 < 2 ^ k1) by (apply Z.pow_pos_nonneg; lia).
  assert (HM0 : 0 <= M1) by (apply Z.div_pos; lia).
  assert (Hd0 : 0 <= d).
  { unfold d. destruct m as [| p | p]; simpl; lia. }
  assert (HMlt : M1 < 2 ^ 53).
  { apply Z.div_lt_upper_bound; [lia |].
    destruct (Z.eq_dec m 0) as [-> | Hne].
    - assert (0 < 2 ^ 53) by (apply Z.pow_pos_nonneg; lia). lia.
    - pose proof (digits_bounds m ltac:(lia)) as [_ B2]. fold d in B2.
      assert (2 ^ d <= 2 ^ (k1 + 53)) by (apply Z.pow_le_mono_r; unfold k1; lia).
      rewrite Z.pow_add_r in * by lia. lia. }
  assert (HMge : -1074 < t -> 2 ^ 52 <= M1).
  { intros Hgt. assert (Hk : k1 = d - 53) by (unfold k1; lia).
    assert (Hmpos : 0 < m).
    { destruct (Z.eq_dec m 0) as [E0 | Hne]; [| lia].
      exfalso. unfold d in *. rewrite E0 in *. simpl in *. lia. }
    pose proof (digits_bounds m Hmpos) as [B1 _]. fold d in B1.
    apply Z.div_le_lower_bound; [lia |].
    replace (d - 1) with (k1 + 52) in B1 by lia.
    rewrite Z.pow_add_r in B1 by lia. lia. }
  set (m2 := rne (shift m (loc_r l) (loc_s l) k1)).
  assert (Hm2 : M1 <= m2 <= M1 + 1).
  { unfold m2. pose proof (rne_bounds (shift m (loc_r l) (loc_s l) k1)) as H.
    rewrite shift_m in H by assumption.
    rewrite Z.max_l in H by lia. exact H. }
  assert (He1 : (if 0 <? k1 then t else e) = t).
  { destruct (Z.ltb_spec 0 k1); [reflexivity | unfold k1 in *; lia]. }
  change (2 ^ 53) with 9007199254740992 in HMlt.
  change (2 ^ 52) with 4503599627370496 in HMge.
  destruct (Z.eq_dec m2 9007199254740992) as [E2 | N2].
  - assert (Hf2 : fexp (Zdigits2 m2 + t) = t + 1).
    { rewrite E2. change (Zdigits2 9007199254740992) with 54.
      rewrite fexp_eq. lia. }
    rewrite (bra_stages s m e l t m2 (t + 1) 4503599627370496);
      try assumption.
    + apply valid_finish; [lia |]. intros _.
      change (Zdigits2 4503599627370496) with 53. rewrite fexp_eq. lia.
    + fold d. fold t. fold k1. symmetry. exact He1.
    + reflexivity.
    + rewrite Hf2. now rewrite ltb_pos_true by lia.
    + rewrite Hf2. replace (t + 1 - t) with 1 by lia. rewrite E2. reflexivity.
  - assert (Hlt2 : 0 <= m2 < 9007199254740992) by lia.
    assert (Hd2 : Zdigits2 m2 <= 53) by (apply digits_le_53; exact Hlt2).
    assert (Hd2' : -1074 < t -> Zdigits2 m2 = 53).
    { intros Hgt. specialize (HMge Hgt).
      assert (53 <= Zdigits2 m2)
        by (apply digits_ge; [lia | change (2 ^ (53 - 1)) with 4503599627370496; lia]).
      lia. }
    assert (Hf2 : fexp (Zdigits2 m2 + t) = t).
    { rewrite fexp_eq. destruct (Z.eq_dec t (-1074)) as [E | N]; [lia |].
      rewrite Hd2' by lia. lia. }
    rewrite (bra_stages s m e l t m2 t m2); try assumption.
    + apply valid_finish; [lia | intros _; exact Hf2].
    + fold d. fold t. fold k1. symmetry. exact He1.
    + reflexivity.
    + rewrite Hf2, Z.sub_diag. reflexivity.
    + rewrite Hf2, Z.sub_diag. simpl. now rewrite Z.div_1_r.
Qed.

Lemma binary_round_valid s m e :
  F.valid (binary_round F.prec F.emax s m e) = true.
Proof.
  unfold binary_round.
  change (SpecFloat.fexp F.prec F.emax) with fexp.
  set (t := fexp (Zpos (digits2_pos m) + e)).
  destruct (Z.le_gt_cases e t) as [Hle | Hgt].
  - rewrite shl_align_above by assumption. apply bra_valid; [lia |].
    exact Hle.
  - pose proof (shl_align_below m e t ltac:(lia)) as [Ha Hb].
    destruct (shl_align m e t) as [mz ez]. simpl fst in Ha, Hb.
    inversion Ha; subst ez. apply bra_valid; [lia |].
    rewrite Hb, digits_scaled by lia.
    replace (dg m + (e - t) + t) with (dg m + e) by lia.
    change (dg m) with (Zpos (digits2_pos m)). fold t. lia.
Qed.

Lemma pow_lt_exponent a b : 2 ^ a < 2 ^ b -> 0 <= b -> a < b.
Proof.
  intros H Hb. destruct (Z.lt_ge_cases a b) as [Hlt | Hge]; [assumption |].
  assert (2 ^ b <= 2 ^ a) by (apply Z.pow_le_mono_r; lia). lia.
Qed.

(** The quotient of two finite floats, whatever their mantissas, is a
    valid float. *)
Lemma div_valid sx mx ex sy my ey :
  F.valid (F.div (S754_finite sx mx ex) (S754_finite sy my ey)) = true.
Proof.
  unfold F.div, SFdiv, SFdiv_core_binary. rewrite div_eucl_pair.
  change (Zdigits2 (Zpos mx)) with (dg mx). change (Zdigits2 (Zpos my)) with (dg my).
  change (SpecFloat.fexp F.prec F.emax) with fexp.
  set (delta := dg mx + ex - (dg my + ey)).
  set (e' := Z.min (fexp delta) (ex - ey)).
  set (s := ex - ey - e').
  assert (Hs : 0 <= s) by (unfold s, e'; lia).
  set (m' := match s with
             | 0 => Zpos mx
             | Zpos _ => Z.shiftl (Zpos mx) s
             | Zneg _ => 0
             end).
  assert (Hm' : m' = Zpos mx * 2 ^ s).
  { unfold m'. destruct s as [| p | p] eqn:Es; try lia.
    now rewrite Z.shiftl_mul_pow2 by lia. }
  pose proof (dg_bounds mx) as [Bx1 Bx2]. pose proof (dg_bounds my) as [By1 By2].
  pose proof (dg_pos mx) as Dx. pose proof (dg_pos my) as Dy.
  assert (Ps : 0 < 2 ^ s) by (apply Z.pow_pos_nonneg; lia).
  assert (Hlow : 2 ^ (dg mx - 1 + s) <= m').
  { rewrite Hm', Z.pow_add_r by lia. nia. }
  assert (Hq0 : 0 <= m' / Zpos my) by (apply Z.div_pos; lia).
  assert (Hfe : e' <= fexp delta) by (unfold e'; lia).
  rewrite fexp_eq in Hfe.
  apply bra_valid; [exact Hq0 |].
  rewrite fexp_eq.
  destruct (Z.eq_dec (m' / Zpos my) 0) as [E0 | N0].
  - rewrite E0. change (Zdigits2 0) with 0.
    apply Z.div_small_iff in E0; [| lia].
    destruct E0 as [E0 | E0]; [| lia].
    assert (Hlt : 2 ^ (dg mx - 1 + s) < 2 ^ dg my) by lia.
    apply pow_lt_exponent in Hlt; [| lia].
    unfold s, delta in *. lia.
  - assert (Hq : 0 < m' / Zpos my) by lia.
    pose proof (digits_pos _ Hq) as D1.
    assert (Hd : dg mx + s - dg my <= Zdigits2 (m' / Zpos my)).
    { destruct (Z.le_gt_cases (dg mx + s - dg my) 1) as [Hsmall | Hbig]; [lia |].
      apply digits_ge; [exact Hq |].
      apply Z.div_le_lower_bound; [lia |].
      assert (E : dg mx - 1 + s = dg mx + s - dg my - 1 + dg my) by lia.
      rewrite E, Z.pow_add_r in Hlow by lia.
      assert (0 < 2 ^ (dg mx + s - dg my - 1)) by (apply Z.pow_pos_nonneg; lia).
      nia. }
    unfold s, delta in *. lia.
Qed.

Lemma of_decimal_valid s m e : F.valid (F.of_decimal s m e) = true.
Proof.
  unfold F.of_decimal. destruct m as [| p]; [reflexivity |].
  destruct e as [| k | k].
  - apply binary_round_valid.
  - apply binary_round_valid.
  - apply div_valid.
Qed.

Lemma of_decimal_signed s m e : signed s (F.of_decimal s m e).
Proof.
  unfold F.of_decimal. destruct m as [| p]; [left; reflexivity |].
  assert (He : emin <= 0) by (unfold emin, SpecFloat.emin, F.prec, F.emax; lia).
  destruct e as [| k | k].
  - apply strictly_signed, binary_round_strictly. exact He.
  - apply strictly_signed, binary_round_strictly. exact He.
  - pose proof (div_finite_signed s p 0 false (Pos.pow 10 k) 0) as H.
    rewrite xorb_false_r in H. exact H.
Qed.

Lemma signed_nonnegative x : signed false x -> F.leb F.zero x = true.
Proof. intros [-> | [(m & e & ->) | ->]]; reflexivity. Qed.

End RoundValid.

(** ** Numerals of digits and dots *)

Module Numerals.
Import Round RoundValid.

(** Whatever [float] returns is a valid float. *)
Lemma float_of_str_valid s x : Py.float_of_str s = Ok x -> F.valid x = true.
Proof.
  unfold Py.float_of_str.
  destruct (Py.drop_underscores None (Str.strip (Py.ascii_text s))) as [l |];
    [| discriminate].
  destruct (Py.take_sign l) as [neg l'].
  destruct (Py.parse_decimal l') as [[m e] |].
  - intros [= <-]. apply of_decimal_valid.
  - unfold Py.parse_inf_nan.
    destruct (_ || _); [intros [= <-]; reflexivity |].
    destruct (String.eqb _ "nan"); [intros [= <-]; reflexivity | discriminate].
Qed.

Lemma lstrip_forallb p l : forallb p l = true -> forallb p (Str.lstrip l) = true.
Proof.
  induction l as [| c l IH]; simpl; [auto |].
  intros H. destruct (Str.is_space c); [| exact H].
  apply andb_true_iff in H as [_ H]. auto.
Qed.

Lemma rev_forallb {A : Type} (p : A -> bool) l :
  forallb p l = true -> forallb p (rev l) = true.
Proof.
  rewrite !forallb_forall. intros H x Hx. apply H. now apply in_rev.
Qed.

Lemma strip_forallb p l : forallb p l = true -> forallb p (Str.strip l) = true.
Proof.
  intros H. unfold Str.strip.
  auto using lstrip_forallb, rev_forallb.
Qed.

Lemma drop_underscores_forallb p l : forall prev l',
  forallb p l = true -> Py.drop_underscores prev l = Some l' ->
  forallb p l' = true.
Proof.
  induction l as [| c l IH]; intros prev l' H; simpl.
  - destruct prev as [a |]; [| intros [= <-]; reflexivity].
    destruct (Ascii.eqb a "_") eqn:Ea.
    + apply Ascii.eqb_eq in Ea. subst a. discriminate.
    + intros Hd.
      assert (l' = []) as ->; [| reflexivity].
      destruct a as [[] [] [] [] [] [] [] []]; try discriminate; congruence.
  - cbn [forallb] in H. apply andb_true_iff in H as [Hc H].
    assert (Hcons : forall q, option_map (cons c) (Py.drop_underscores q l) = Some l' ->
                              forallb p l' = true).
    { intros q Hq. destruct (Py.drop_underscores q l) as [r |] eqn:Hr;
        [| discriminate].
      inversion Hq; subst l'. cbn [forallb]. rewrite Hc. eapply IH; eauto. }
    destruct (Ascii.eqb c "_").
    + destruct prev as [a |]; [| discriminate].
      destruct (Str.is_digit a); [| discriminate]. eapply IH; eauto.
    + destruct prev as [a |]; [| apply Hcons].
      destruct (Ascii.eqb a "_") eqn:Ea.
      * apply Ascii.eqb_eq in Ea. subst a.
        destruct (Str.is_digit c); [apply Hcons | discriminate].
      * intros Hd. apply (Hcons (Some c)).
        destruct a as [[] [] [] [] [] [] [] []]; try discriminate; exact Hd.
Qed.

Lemma take_sign_number l :
  forallb digit_or_dot l = true -> Py.take_sign l = (false, l).
Proof.
  destruct l as [| c l]; [reflexivity |]. cbn [forallb].
  intros H. apply andb_true_iff in H as [Hc _].
  destruct c as [[] [] [] [] [] [] [] []]; try discriminate; reflexivity.
Qed.

Lemma parse_inf_nan_number neg l :
  forallb digit_or_dot l = true -> Py.parse_inf_nan neg l = None.
Proof.
  destruct l as [| c l]; [reflexivity |]. cbn [forallb].
  intros H. apply andb_true_iff in H as [Hc _].
  destruct c as [[] [] [] [] [] [] [] []]; try discriminate; reflexivity.
Qed.

(** *** Decimal digits of any script *)

Lemma decimal_run c d :
  Unicode.decimal c = Some d ->
  exists s, In s Unicode.digit_runs /\ (s <= c < s + 10)%N /\ d = (c - s)%N.
Proof.
  unfold Unicode.decimal.
  destruct (find _ Unicode.digit_runs) as [s |] eqn:Hf; [| discriminate].
  intros [= <-]. apply find_some in Hf as [Hin Hc].
  apply andb_true_iff in Hc as [H1 H2].
  apply N.leb_le in H1. apply N.ltb_lt in H2. exists s. auto.
Qed.

Lemma decimal_below_ten c d : Unicode.decimal c = Some d -> (d < 10)%N.
Proof. intros H. apply decimal_run in H as (s & _ & Hc & ->). lia. Qed.

Lemma runs_scalar :
  forallb (fun s => (s + 10 <=? 0xD800) || ((0xE000 <=? s) && (s + 10 <=? 0x110000)))%N
          Unicode.digit_runs = true.
Proof. vm_compute. reflexivity. Qed.

(** A decimal digit is a character of a well-formed text. *)
Lemma decimal_scalar c d : Unicode.decimal c = Some d -> Unicode.scalar c = true.
Proof.
  intros H. apply decimal_run in H as (s & Hin & Hc & _).
  pose proof runs_scalar as Hr. rewrite forallb_forall in Hr.
  specialize (Hr s Hin). unfold Unicode.scalar.
  apply orb_true_iff in Hr as [Hr | Hr].
  - apply N.leb_le in Hr. apply orb_true_iff. left. apply N.ltb_lt. lia.
  - apply andb_true_iff in Hr as [H1 H2]. apply N.leb_le in H1, H2.
    apply orb_true_iff. right. apply andb_true_iff.
    split; [apply N.leb_le | apply N.ltb_lt]; lia.
Qed.

Lemma spaces_not_decimal :
  forallb (fun c => negb (Unicode.is_decimal c)) Unicode.spaces = true.
Proof. vm_compute. reflexivity. Qed.

(** No white space is a decimal digit. *)
Lemma decimal_not_space c d :
  Unicode.decimal c = Some d -> Unicode.is_space c = false.
Proof.
  intros H. destruct (Unicode.is_space c) eqn:Hs; [| reflexivity].
  unfold Unicode.is_space in Hs. apply existsb_exists in Hs as (x & Hx & Hcx).
  apply N.eqb_eq in Hcx. subst x.
  pose proof spaces_not_decimal as Hn. rewrite forallb_forall in Hn.
  specialize (Hn c Hx). unfold Unicode.is_decimal in Hn. now rewrite H in Hn.
Qed.

Lemma class_d_scalar c : Re.class_d c = true -> Unicode.scalar c = true.
Proof.
  unfold Re.class_d, Unicode.is_decimal.
  destruct (Unicode.decimal c) as [d |] eqn:Hd; [| discriminate].
  intros _. exact (decimal_scalar _ _ Hd).
Qed.

Lemma class_d_dot_scalar c : Re.class_d_dot c = true -> Unicode.scalar c = true.
Proof.
  unfold Re.class_d_dot. intros H. apply orb_true_iff in H as [H | H].
  - now apply class_d_scalar.
  - apply N.eqb_eq in H. now subst c.
Qed.

(** The characters of the text of a run of digits, or of digits and dots,
    are the run. *)
Lemma codepoints_of_codepoints l :
  forallb Unicode.scalar l = true -> Str.codepoints (Str.of_codepoints l) = l.
Proof.
  intros H. unfold Str.codepoints, Str.of_codepoints, Str.chars, Str.of_chars.
  rewrite list_ascii_of_string_of_list_ascii.
  now apply Utf8Facts.decode_encode.
Qed.

Lemma forallb_imp {A : Type} (p q : A -> bool) l :
  (forall x, p x = true -> q x = true) -> forallb p l = true -> forallb q l = true.
Proof. intros Hpq. rewrite !forallb_forall. auto. Qed.

Lemma codepoints_digits l :
  forallb Re.class_d l = true -> Str.codepoints (Str.of_codepoints l) = l.
Proof.
  intros H. apply codepoints_of_codepoints.
  exact (forallb_imp _ _ _ class_d_scalar H).
Qed.

Lemma codepoints_number l :
  forallb Re.class_d_dot l = true -> Str.codepoints (Str.of_codepoints l) = l.
Proof.
  intros H. apply codepoints_of_codepoints.
  exact (forallb_imp _ _ _ class_d_dot_scalar H).
Qed.

(** An ASCII character of the class [[\d.]] is an ASCII digit or a dot. *)
Lemma class_d_dot_ascii c :
  (c < 128)%N -> Re.class_d_dot c = true -> digit_or_dot (ascii_of_N c) = true.
Proof.
  intros Hc. unfold Re.class_d_dot, Re.class_d, Unicode.is_decimal, digit_or_dot,
    Str.is_digit, Str.code.
  rewrite (Utf8Facts.ascii_decimal _ Hc). unfold Utf8Facts.ascii_digit.
  rewrite N_ascii_embedding by lia.
  destruct ((48 <=? c) && (c <=? 57))%N; [reflexivity |].
  cbn [orb]. intros H. apply N.eqb_eq in H. now subst c.
Qed.

Lemma digit_of_value d :
  (d < 10)%N -> digit_or_dot (ascii_of_N (48 + d)) = true.
Proof.
  intros Hd. unfold digit_or_dot, Str.is_digit, Str.code.
  rewrite N_ascii_embedding by lia.
  replace (48 <=? 48 + d)%N with true by (symmetry; apply N.leb_le; lia).
  replace (48 + d <=? 57)%N with true by (symmetry; apply N.leb_le; lia).
  reflexivity.
Qed.

Lemma transform_number l :
  forallb Re.class_d_dot l = true -> forallb digit_or_dot (Py.transform l) = true.
Proof.
  induction l as [| c l IH]; [reflexivity |]. cbn [forallb Py.transform].
  intros H. apply andb_true_iff in H as [Hc H]. specialize (IH H).
  destruct (N.ltb_spec c 127).
  - cbn [forallb]. rewrite IH, class_d_dot_ascii; [reflexivity | lia | exact Hc].
  - assert (Hd : exists d, Unicode.decimal c = Some d).
    { unfold Re.class_d_dot, Re.class_d, Unicode.is_decimal in Hc.
      destruct (Unicode.decimal c) as [d |]; [eauto |].
      cbn [orb] in Hc. apply N.eqb_eq in Hc. lia. }
    destruct Hd as (d & Hd).
    rewrite (decimal_not_space _ _ Hd), Hd. cbn [forallb].
    now rewrite IH, (digit_of_value _ (decimal_below_ten _ _ Hd)).
Qed.

(** What [float] reads of a text of decimal digits and dots is a text of
    ASCII digits and dots. *)
Lemma ascii_text_number s :
  forallb Re.class_d_dot (Str.codepoints s) = true ->
  forallb digit_or_dot (Py.ascii_text s) = true.
Proof.
  intros H. unfold Py.ascii_text.
  destruct (Str.is_ascii (Str.chars s)) eqn:Ha; [| now apply transform_number].
  unfold Str.codepoints in H. rewrite (Utf8Facts.decode_ascii _ Ha) in H.
  unfold Str.is_ascii in Ha. rewrite forallb_forall in *.
  intros b Hb. specialize (Ha b Hb). apply N.ltb_lt in Ha.
  specialize (H (Str.code b) (in_map Str.code _ _ Hb)).
  rewrite <- (ascii_N_embedding b). now apply class_d_dot_ascii.
Qed.

(** [float] of a string of digits and dots is a number that is not
    negative. *)
Lemma float_of_str_number s x :
  forallb Re.class_d_dot (Str.codepoints s) = true ->
  Py.float_of_str s = Ok x ->
  F.valid x = true /\ F.leb F.zero x = true.
Proof.
  intros Hs Hx. split; [exact (float_of_str_valid _ _ Hx) |].
  apply ascii_text_number in Hs.
  unfold Py.float_of_str in Hx.
  destruct (Py.drop_underscores None (Str.strip (Py.ascii_text s))) as [l |] eqn:Hl;
    [| discriminate].
  assert (Hd : forallb digit_or_dot l = true)
    by (eapply drop_underscores_forallb; [apply strip_forallb; exact Hs | exact Hl]).
  rewrite (take_sign_number _ Hd) in Hx.
  destruct (Py.parse_decimal l) as [[m e] |].
  - inversion Hx. apply signed_nonnegative, of_decimal_signed.
  - rewrite (parse_inf_nan_number _ _ Hd) in Hx. discriminate.
Qed.

Lemma chars_of_chars l : Str.chars (Str.of_chars l) = l.
Proof. apply list_ascii_of_string_of_list_ascii. Qed.

End Numerals.

(** ** What a parsed description holds *)

(** X13. Whatever the description, the dose rate and the count rate that
    [parse_description] returns are valid floats that are not negative and
    not [nan] (possibly [inf], for a numeral too large), and the accuracy
    is a non-empty string of decimal digits, ASCII ones or those of any
    other script; a [nan] in the frame can only stand for a description
    that did not match. *)
Theorem parsed_rates_are_numbers (d : string) (f : fields) :
  parse_description (VStr d) = Ok f ->
  f = no_fields \/
  exists ts u c a,
    f = {| f_datetime := VStr ts; f_usvh := VFloat u;
           f_cps := VFloat c; f_accuracy := VStr a |} /\
    F.valid u = true /\ F.leb F.zero u = true /\
    F.valid c = true /\ F.leb F.zero c = true /\
    text_token Re.class_d a = true.
Proof.
  unfold parse_description.
  destruct (Re.search pattern d) as [m |] eqn:Hm; [| intros [= <-]; now left].
  intros H. right.
  unfold Re.search in Hm.
  apply ReFacts.search_chars_sound in Hm as (pre & w & post & _ & Hw).
  apply Description.denotes_pattern in Hw
    as (ts & u & c & a & (_ & _ & [Hu0 Hu] & [Hc0 Hc] & [Ha0 Ha]) & ->).
  unfold Re.group in H. cbn [nth Nat.sub] in H.
  apply bind_ok in H as (x & Hx & H). apply bind_ok in H as (y & Hy & H).
  inversion H; subst f; clear H.
  apply Numerals.float_of_str_number in Hx as [Vx Px];
    [| now rewrite Numerals.codepoints_number].
  apply Numerals.float_of_str_number in Hy as [Vy Py];
    [| now rewrite Numerals.codepoints_number].
  exists (Str.of_codepoints ts), x, y, (Str.of_codepoints a).
  repeat split; auto.
  unfold text_token. rewrite (Numerals.codepoints_digits _ Ha), Ha, andb_true_r.
  apply negb_true_iff, String.eqb_neq. intros He.
  apply (f_equal Str.codepoints) in He.
  rewrite (Numerals.codepoints_digits _ Ha) in He. now apply Ha0.
Qed.

Lemma parsed_rates_are_numbers_witness :
  exists f,
    parse_description (VStr Sample.reading) = Ok f /\
    (f = no_fields \/
     exists ts u c a,
       f = {| f_datetime := VStr ts; f_usvh := VFloat u;
              f_cps := VFloat c; f_accuracy := VStr a |} /\
       F.valid u = true /\ F.leb F.zero u = true /\
       F.valid c = true /\ F.leb F.zero c = true /\
       text_token Re.class_d a = true).
Proof.
  assert (H : exists f, parse_description (VStr Sample.reading) = Ok f)
    by (vm_compute; eexists; reflexivity).
  destruct H as (f & H). exists f. split; [exact H |].
  exact (parsed_rates_are_numbers Sample.reading f H).
Defined.

Module ColourRun.
Import Pipeline Run.

Lemma get_color_hex E v cm al cmap :
  get_cmap E cm = Some cmap ->
  unit_channels (cmap v) = true ->
  Colour.unit_float al = true ->
  exists s, get_color E v cm al = Ok s /\ is_colour_string s = true.
Proof.
  intros Hcm Hv Ha. unfold unit_channels in Hv.
  destruct (cmap v) as [[[r g] b] a] eqn:Hc.
  apply andb_true_iff in Hv as [Hv Hb]. apply andb_true_iff in Hv as [Hr Hg].
  destruct (ColourFacts.trunc_mul_unit al Ha) as (ia & Hia & Ba).
  destruct (ColourFacts.trunc_mul_unit b Hb) as (ib & Hib & Bb).
  destruct (ColourFacts.trunc_mul_unit g Hg) as (ig & Hig & Bg).
  destruct (ColourFacts.trunc_mul_unit r Hr) as (ir & Hir & Br).
  exists (Colour.byte ia ++ Colour.byte ib ++ Colour.byte ig ++ Colour.byte ir).
  split.
  - unfold get_color. rewrite Hcm, Hc, Hia, Hib, Hig, Hir. cbn [bind].
    rewrite !ColourFacts.to_upper_app, !ColourFacts.format_byte by assumption.
    reflexivity.
  - unfold is_colour_string.
    rewrite !ColourFacts.chars_app, !forallb_app,
      !ColourFacts.byte_upper_hex by assumption.
    reflexivity.
Qed.

Lemma nonnegative_not_nan x : F.leb F.zero x = true -> F.is_nan x = false.
Proof. destruct x; [reflexivity | reflexivity | discriminate | reflexivity]. Qed.

(** A parsed dose rate is a number. *)
Lemma parsed_usvh_number d ts u c a :
  parse_description (VStr d)
  = Ok {| f_datetime := VStr ts; f_usvh := VFloat u;
          f_cps := VFloat c; f_accuracy := VStr a |} ->
  F.valid u = true /\ F.is_nan u = false.
Proof.
  unfold parse_description.
  destruct (Re.search pattern d) as [m |] eqn:Hm; [| discriminate].
  intros H. unfold Re.search in Hm.
  apply ReFacts.search_chars_sound in Hm as (pre & w & post & _ & Hw).
  apply Description.denotes_pattern in Hw
    as (ts' & u' & c' & a' & (_ & _ & [_ Hu] & _ & _) & ->).
  unfold Re.group in H. cbn [nth Nat.sub] in H.
  apply bind_ok in H as (x & Hx & H). apply bind_ok in H as (y & _ & H).
  inversion H; subst.
  apply Numerals.float_of_str_number in Hx as [Vx Px];
    [| now rewrite Numerals.codepoints_number].
  split; [exact Vx | now apply nonnegative_not_nan].
Qed.

Lemma in_unit_float64 q :
  in_unit (Pandas.to_float64 (clamp q)) = in_unit (clamp q).
Proof.
  rewrite Clamp.clamp_eq.
  destruct (F.ltb q F.zero); [reflexivity |].
  destruct (F.ltb F.one q); reflexivity.
Qed.

Lemma Forall2_right {A B : Type} (R : A -> B -> Prop) (P : B -> Prop) l1 l2 :
  (forall a b, R a b -> P b) -> Forall2 R l1 l2 -> Forall P l2.
Proof. induction 2; constructor; eauto. Qed.

End ColourRun.

(** ** Colours of a whole run *)

(** X14. When the bounds are valid floats with [min < max] and a finite
    difference, the opacity is in the unit interval and the colour map
    takes numbers of the unit interval to channels of the unit interval,
    every placemark of a written file has a colour of eight upper-case
    hexadecimal digits: no dose rate of the input, however far outside
    the bounds, gives anything else. *)
Theorem written_colour_format (E : env) (a : args) (doc : Xml.element)
    (cmap : value -> colour) :
  written (main E a) = Some doc ->
  F.valid (arg_min a) = true -> F.valid (arg_max a) = true ->
  F.ltb (arg_min a) (arg_max a) = true ->
  F.is_finite (F.sub (arg_max a) (arg_min a)) = true ->
  Colour.unit_float (arg_alpha a) = true ->
  get_cmap E (arg_cmap a) = Some cmap ->
  (forall v, in_unit v = true -> unit_channels (cmap v) = true) ->
  Forall (fun pm => exists s, Kml.icon_color pm = Some s /\
                              is_colour_string s = true)
         (Kml.placemarks doc).
Proof.
  intros H Vlo Vhi Hlt Hfin Hal Hcm Hmap.
  apply Pipeline.main_written in H as (df & nm & ds & Hp & Hc).
  apply Pipeline.process_kml_ok in Hp as (root & document & dicts & parsed & Hp).
  pose proof (Pipeline.processed_rows _ _ _ _ _ _ _ _ _ _ _ Hp) as Hrows.
  pose proof (RowFacts.processed_coloured _ _ _ _ _ _ _ _ _ _ _ Hp) as Hcol.
  apply WriterFacts.create_kml_structure in Hc as (pms & Hpms & -> & _).
  apply mapM_ok_forall2 in Hpms.
  pose proof (Pipeline.Forall2_compose _ _ _ _ _
                (RowFacts.Forall2_and_r _ _ _ _ Hrows Hcol) Hpms) as H2.
  eapply ColourRun.Forall2_right; [| exact H2].
  intros p pm (r & (Hrow & n & c & Hn & Hnm & Hgc & Hrc) & Hpm).
  pose proof (Pipeline.placemark_of_row_ok _ _ Hpm) as Hw.
  destruct (Run.written_row_parsed _ _ _ Hrow Hw)
    as (d & ts & u & cp & acc & k & _ & Hf & _ & _ & Hu & _ & _).
  destruct (ColourRun.parsed_usvh_number _ _ _ _ _ Hf) as [Vu Nu].
  rewrite Hu, (Normalize.normalize_clamp _ _ u Vlo Vhi Hlt Hfin) in Hn.
  inversion Hn; subst n; clear Hn.
  assert (Hin : in_unit (r_usvh_normalized r) = true).
  { pose proof (Clamp.clamp_in_unit _
                  (Normalize.quotient_not_nan _ _ u Vlo Vhi Hlt Hfin Nu)) as Hq.
    destruct Hnm as [-> | ->]; [exact Hq |].
    now rewrite ColourRun.in_unit_float64. }
  destruct (ColourRun.get_color_hex E _ _ _ cmap Hcm (Hmap _ Hin) Hal)
    as (s & Hs & Hfmt).
  rewrite Hgc in Hs. inversion Hs; subst s.
  exists c. split; [| exact Hfmt].
  rewrite (Pipeline.wp_color _ _ Hw), Hrc. reflexivity.
Qed.

Lemma written_colour_format_witness :
  Forall (fun pm => exists s, Kml.icon_color pm = Some s /\
                              is_colour_string s = true)
         (Kml.placemarks
            (match written (main (Sample.world Sample.track_one) Sample.defaults) with
             | Some doc => doc
             | None => Sample.track_one
             end)).
Proof.
  assert (H : exists doc,
             written (main (Sample.world Sample.track_one) Sample.defaults)
             = Some doc)
    by (vm_compute; eexists; reflexivity).
  destruct H as (doc & H). rewrite H.
  apply (written_colour_format (Sample.world Sample.track_one) Sample.defaults
           doc Sample.two_tone H);
    [vm_compute; reflexivity | vm_compute; reflexivity | vm_compute; reflexivity
    | vm_compute; reflexivity | vm_compute; reflexivity | reflexivity |].
  intros v _. unfold Sample.two_tone.
  destruct (F.ltb (as_float v) (F.of_decimal false 5 (-1))); reflexivity.
Defined.

Module Formats.
Import Round RoundValid.

Lemma of_uint_digits d : forallb Str.is_digit (Str.chars (Str.of_uint d)) = true.
Proof. induction d; simpl; auto. Qed.

Lemma of_uint_empty d : Str.of_uint d = "" -> d = Decimal.Nil.
Proof. destruct d; simpl; congruence. Qed.

Lemma of_N_token n : token Str.is_digit (Str.of_N n) = true.
Proof.
  unfold token, Str.of_N. rewrite of_uint_digits, andb_true_r.
  apply negb_true_iff, String.eqb_neq. intros H. apply of_uint_empty in H.
  pose proof (DecimalN.Unsigned.of_to n) as Hn. rewrite H in Hn.
  destruct n; [discriminate H | discriminate Hn].
Qed.

Definition padded (p : nat) (k : nat) : bool :=
  let z := Str.zfill p (Str.of_N (N.of_nat k)) in
  token Str.is_digit z && (String.length z =? p)%nat.

Lemma padded_two : forallb (padded 2) (seq 0 100) = true.
Proof. vm_compute. reflexivity. Qed.

Lemma padded_one : forallb (padded 1) (seq 0 10) = true.
Proof. vm_compute. reflexivity. Qed.

Lemma zfill_two k :
  (k < 100)%N ->
  token Str.is_digit (Str.zfill 2 (Str.of_N k)) = true /\
  String.length (Str.zfill 2 (Str.of_N k)) = 2%nat.
Proof.
  intros Hk. pose proof padded_two as H. rewrite forallb_forall in H.
  specialize (H (N.to_nat k)). unfold padded in H.
  rewrite N2Nat.id in H.
  assert (Hin : In (N.to_nat k) (seq 0 100)) by (apply in_seq; lia).
  apply H, andb_true_iff in Hin as [H1 H2].
  split; [exact H1 | now apply Nat.eqb_eq].
Qed.

Lemma zfill_one k :
  (k < 10)%N ->
  token Str.is_digit (Str.zfill 1 (Str.of_N k)) = true /\
  String.length (Str.zfill 1 (Str.of_N k)) = 1%nat.
Proof.
  intros Hk. pose proof padded_one as H. rewrite forallb_forall in H.
  specialize (H (N.to_nat k)). unfold padded in H.
  rewrite N2Nat.id in H.
  assert (Hin : In (N.to_nat k) (seq 0 10)) by (apply in_seq; lia).
  apply H, andb_true_iff in Hin as [H1 H2].
  split; [exact H1 | now apply Nat.eqb_eq].
Qed.

Lemma fixed_two n : fixed_point 2 (Py.fixed n 2).
Proof.
  right. unfold Py.fixed.
  exists (Str.of_N (n / 100)), (Str.zfill 2 (Str.of_N (n mod 100))).
  destruct (zfill_two (n mod 100)) as [H1 H2];
    [apply N.mod_lt; discriminate |].
  repeat split; auto using of_N_token.
Qed.

Lemma fixed_one n : fixed_point 1 (Py.fixed n 1).
Proof.
  right. unfold Py.fixed.
  exists (Str.of_N (n / 10)), (Str.zfill 1 (Str.of_N (n mod 10))).
  destruct (zfill_one (n mod 10)) as [H1 H2];
    [apply N.mod_lt; discriminate |].
  repeat split; auto using of_N_token.
Qed.

(** [{x:.2f}] and [{x:.1f}] of a float that is not negative. *)
Lemma format_two x : signed false x -> fixed_point 2 (Py.format_f 2 x).
Proof.
  intros [-> | [(m & e & ->) | ->]]; [apply fixed_two | apply fixed_two |].
  left. reflexivity.
Qed.

Lemma format_one x : signed false x -> fixed_point 1 (Py.format_f 1 x).
Proof.
  intros [-> | [(m & e & ->) | ->]]; [apply fixed_one | apply fixed_one |].
  left. reflexivity.
Qed.

(** [float] of a string of digits and dots has no sign. *)
Lemma float_of_str_signed s x :
  forallb Re.class_d_dot (Str.codepoints s) = true ->
  Py.float_of_str s = Ok x -> signed false x.
Proof.
  intros Hs Hx. apply Numerals.ascii_text_number in Hs.
  unfold Py.float_of_str in Hx.
  destruct (Py.drop_underscores None (Str.strip (Py.ascii_text s))) as [l |] eqn:Hl;
    [| discriminate].
  assert (Hd : forallb digit_or_dot l = true)
    by (eapply Numerals.drop_underscores_forallb;
        [apply Numerals.strip_forallb; exact Hs | exact Hl]).
  rewrite (Numerals.take_sign_number _ Hd) in Hx.
  destruct (Py.parse_decimal l) as [[m e] |].
  - inversion Hx. apply of_decimal_signed.
  - rewrite (Numerals.parse_inf_nan_number _ _ Hd) in Hx. discriminate.
Qed.

Lemma parsed_signed d ts u c a :
  parse_description (VStr d)
  = Ok {| f_datetime := VStr ts; f_usvh := VFloat u;
          f_cps := VFloat c; f_accuracy := VStr a |} ->
  signed false u /\ signed false c.
Proof.
  unfold parse_description.
  destruct (Re.search pattern d) as [m |] eqn:Hm; [| discriminate].
  intros H. unfold Re.search in Hm.
  apply ReFacts.search_chars_sound in Hm as (pre & w & post & _ & Hw).
  apply Description.denotes_pattern in Hw
    as (ts' & u' & c' & a' & (_ & _ & [_ Hu] & [_ Hc] & _) & ->).
  unfold Re.group in H. cbn [nth Nat.sub] in H.
  apply bind_ok in H as (x & Hx & H). apply bind_ok in H as (y & Hy & H).
  inversion H; subst.
  split; eapply float_of_str_signed; eauto;
    now rewrite Numerals.codepoints_number.
Qed.

End Formats.

(** ** The numbers of the output *)

(** X15. In a written file the [µSv/h] value of every placemark is a
    numeral with exactly two digits after the point and the [cps] value
    one with exactly one, with at least one digit before the point and no
    sign, or the text [inf] for a reading too large for a float. *)
Theorem written_rates_format (E : env) (a : args) (doc : Xml.element) :
  written (main E a) = Some doc ->
  Forall
    (fun pm =>
       exists us cs,
         nth_error (Kml.extended_data pm) 1
         = Some (Kml.data_tag, Some "µSv/h", Some us) /\
         fixed_point 2 us /\
         nth_error (Kml.extended_data pm) 2
         = Some (Kml.data_tag, Some "cps", Some cs) /\
         fixed_point 1 cs)
    (Kml.placemarks doc).
Proof.
  intros H.
  apply Run.written_run in H as (root & document & df & _ & _ & Hrows & Hw).
  pose proof (Pipeline.Forall2_compose _ _ _ _ _ Hrows Hw) as H.
  eapply ColourRun.Forall2_right; [| exact H].
  intros p pm (r & Hrow & Hpm).
  destruct (Run.written_row_parsed _ _ _ Hrow Hpm)
    as (d & ts & u & c & acc & k & _ & Hf & _ & _ & Hu & Hc & _).
  destruct (Formats.parsed_signed _ _ _ _ _ Hf) as [Su Sc].
  destruct (Pipeline.wp_usvh _ _ Hpm) as (us & Hus & Nus).
  destruct (Pipeline.wp_cps _ _ Hpm) as (cs & Hcs & Ncs).
  rewrite Hu in Hus. rewrite Hc in Hcs. cbn [format_fixed] in Hus, Hcs.
  inversion Hus; subst us. inversion Hcs; subst cs.
  exists (Py.format_f 2 u), (Py.format_f 1 c).
  auto using Formats.format_two, Formats.format_one.
Qed.

Lemma written_rates_format_witness :
  Forall
    (fun pm =>
       exists us cs,
         nth_error (Kml.extended_data pm) 1
         = Some (Kml.data_tag, Some "µSv/h", Some us) /\
         fixed_point 2 us /\
         nth_error (Kml.extended_data pm) 2
         = Some (Kml.data_tag, Some "cps", Some cs) /\
         fixed_point 1 cs)
    (Kml.placemarks
       (match written (main (Sample.world Sample.track_one) Sample.defaults) with
        | Some doc => doc
        | None => Sample.track_one
        end)).
Proof.
  assert (H : exists doc,
             written (main (Sample.world Sample.track_one) Sample.defaults)
             = Some doc)
    by (vm_compute; eexists; reflexivity).
  destruct H as (doc & H). rewrite H.
  exact (written_rates_format (Sample.world Sample.track_one) Sample.defaults doc H).
Defined.

(** ** The ways a run ends *)

(** X16. A run ends in one of four ways, decided in this order: the input
    does not exist and only that is printed; the input exists but its
    suffix, in lower case, is neither [.kml] nor [.kmz] and only that is
    printed; the input is opened and an error of the conversion is
    printed; the input is opened and one file is written. Nothing is
    opened before both checks pass, and nothing is written once something
    is printed. *)
Theorem run_outcomes (E : env) (a : args) :
  (path_exists E (input_file a) = false /\
   main E a = [Printed (NotExist (input_file a))]) \/
  (path_exists E (input_file a) = true /\
   lower_suffix E (input_file a) <> ".kml" /\
   lower_suffix E (input_file a) <> ".kmz" /\
   main E a = [Printed BadExtension]) \/
  (accepted E a = true /\
   ((exists e, main E a = [Opened (input_file a); Printed (ProcessingError e)] /\
               (convert E a = Raise e \/
                exists p doc, convert E a = Ok (p, doc) /\
                              writable E p = false /\ e = OSError)) \/
    (exists p doc, main E a = [Opened (input_file a); Wrote p doc] /\
                   convert E a = Ok (p, doc) /\ writable E p = true))).
Proof.
  unfold main, accepted.
  destruct (path_exists E (input_file a)); [| left; auto].
  right. cbn [negb andb].
  set (sfx := lower_suffix E (input_file a)).
  destruct (String.eqb sfx ".kml") eqn:E1.
  - right. split; [reflexivity |]. cbn [orb negb].
    destruct (convert E a) as [[p doc] | e].
    + destruct (writable E p) eqn:Hw.
      * right. exists p, doc. auto.
      * left. exists OSError. split; [reflexivity |]. right. exists p, doc. auto.
    + left. exists e. auto.
  - destruct (String.eqb sfx ".kmz") eqn:E2.
    + right. split; [reflexivity |]. cbn [orb negb].
      destruct (convert E a) as [[p doc] | e].
      * destruct (writable E p) eqn:Hw.
        -- right. exists p, doc. auto.
        -- left. exists OSError. split; [reflexivity |]. right. exists p, doc. auto.
      * left. exists e. auto.
    + left. apply String.eqb_neq in E1, E2. auto.
Qed.

Module Reread.
Import Pipeline Run WriterFacts.

Lemma findall_eq e :
  Xml.findall_descendants e "Placemark" = filter plain_placemark (Xml.descendants e).
Proof. reflexivity. Qed.

(** The placemark the writer builds and everything in it are in the KML
    namespace. *)
Lemma placemark_of_row_namespaced r pm :
  placemark_of_row r = Ok pm ->
  filter plain_placemark (pm :: Xml.descendants pm) = [].
Proof.
  unfold placemark_of_row. intros H.
  apply bind_ok in H as (u & _ & H).
  apply bind_ok in H as (c & _ & H).
  apply bind_ok in H as (n & _ & H).
  apply bind_ok in H as (co & _ & H).
  inversion H; subst pm; clear H.
  destruct (r_color r), (r_datetime r); reflexivity.
Qed.

Lemma placemarks_namespaced df pms :
  mapM placemark_of_row df = Ok pms ->
  filter plain_placemark (flat_map (fun c => c :: Xml.descendants c) pms) = [].
Proof.
  intros H. apply mapM_ok_forall2 in H.
  induction H as [| r pm df pms Hr _ IH]; [reflexivity |].
  cbn [flat_map]. rewrite filter_app, IH, app_nil_r.
  exact (placemark_of_row_namespaced r pm Hr).
Qed.

Lemma filter_cons_false {A : Type} (f : A -> bool) x l :
  f x = false -> filter f (x :: l) = filter f l.
Proof. intros H. simpl. now rewrite H. Qed.

Lemma kml_not_plain name at' x cs : plain_placemark (KML name at' x cs) = false.
Proof. reflexivity. Qed.

(** A title of the output holds no placemark when the title of the input
    it may contain holds none. *)
Lemma header_no_placemark E parent tag t default :
  tag <> "Placemark" ->
  Xml.child parent tag = Ok t ->
  Xml.findall_descendants t "Placemark" = [] ->
  filter plain_placemark
    (header E tag (Some t) default :: Xml.descendants (header E tag (Some t) default))
  = [].
Proof.
  intros Htag Hc Ht. apply child_ok in Hc. unfold Xml.find_child in Hc.
  apply find_some in Hc as [_ Hq].
  unfold Xml.qname_eqb in Hq. cbn [Xml.ns Xml.local] in Hq.
  apply andb_true_iff in Hq as [_ Hl]. apply String.eqb_eq in Hl.
  assert (Hplain : plain_placemark t = false).
  { unfold plain_placemark, Xml.qname_eqb. cbn [Xml.ns Xml.local].
    rewrite Hl. apply String.eqb_neq in Htag. rewrite Htag.
    apply andb_false_r. }
  rewrite findall_eq in Ht.
  unfold header. destruct (truthy E t).
  - rewrite filter_cons_false by apply kml_not_plain.
    change (Xml.descendants (KML tag [] None [t]))
      with ((t :: Xml.descendants t) ++ [])%list.
    rewrite app_nil_r, filter_cons_false by exact Hplain. exact Ht.
  - rewrite filter_cons_false by apply kml_not_plain. reflexivity.
Qed.

Lemma header_tag E tag x default :
  Xml.tag_of (header E tag x default) = {| Xml.ns := kml_ns; Xml.local := tag |}.
Proof.
  unfold header. destruct x as [e |]; [destruct (truthy E e) |]; reflexivity.
Qed.

End Reread.

(** ** Reading the output again *)

(** X17. The converter does not take its own output as input: the
    placemarks it writes are in the KML namespace, where
    [findall(".//Placemark")] does not find them. So when the titles of
    the first input hold no placemark themselves, a run on a written file
    finds an empty frame and stops with [KeyError]. *)
Theorem output_not_reprocessed (E E' : env) (a a' : args)
    (doc root document nm ds : Xml.element) :
  written (main E a) = Some doc ->
  read_kml_content E (input_file a) = Ok root ->
  Xml.child root "Document" = Ok document ->
  Xml.child document "name" = Ok nm ->
  Xml.child document "description" = Ok ds ->
  Xml.findall_descendants nm "Placemark" = [] ->
  Xml.findall_descendants ds "Placemark" = [] ->
  accepted E' a' = true ->
  read_kml_content E' (input_file a') = Ok doc ->
  main E' a' = [Opened (input_file a'); Printed (ProcessingError KeyError)].
Proof.
  intros H Hr Hd Hn Hs Hnm Hds Ha' Hr'.
  apply Pipeline.main_written in H as (df & nm' & ds' & Hp & Hc).
  apply TraceFacts.process_kml_titles in Hp
    as (root' & document' & Hr1 & Hd1 & Hn1 & Hs1).
  rewrite Hr in Hr1. inversion Hr1; subst root'.
  rewrite Hd in Hd1. inversion Hd1; subst document'.
  rewrite Hn in Hn1. inversion Hn1; subst nm'.
  rewrite Hs in Hs1. inversion Hs1; subst ds'.
  apply WriterFacts.create_kml_structure in Hc as (pms & Hpms & _ & Hfind).
  set (h1 := header E "name" (Some nm) (now E)) in *.
  set (h2 := header E "description" (Some ds)
               ("Points: " ++ Str.of_Z (Z.of_nat (List.length df)) ++ "/"
                ++ Str.of_Z (Z.of_nat (List.length df)))) in *.
  set (D := KML "Document" [] None (h1 :: h2 :: pms)) in *.
  assert (T1 : Xml.tag_of h1 = {| Xml.ns := kml_ns; Xml.local := "name" |})
    by apply Reread.header_tag.
  assert (T2 : Xml.tag_of h2 = {| Xml.ns := kml_ns; Xml.local := "description" |})
    by apply Reread.header_tag.
  assert (F1 : filter plain_placemark (h1 :: Xml.descendants h1) = [])
    by (eapply Reread.header_no_placemark; eauto; discriminate).
  assert (F2 : filter plain_placemark (h2 :: Xml.descendants h2) = [])
    by (eapply Reread.header_no_placemark; eauto; discriminate).
  pose proof (Reread.placemarks_namespaced _ _ Hpms) as F3.
  clearbody h1 h2.
  assert (C1 : Xml.child D "name" = Ok h1).
  { unfold Xml.child, Xml.find_child, D, KML.
    cbn [Xml.children_of Xml.tag_of Xml.ns find]. rewrite T1. reflexivity. }
  assert (C2 : Xml.child D "description" = Ok h2).
  { unfold Xml.child, Xml.find_child, D, KML.
    cbn [Xml.children_of Xml.tag_of Xml.ns find]. rewrite T1, T2. reflexivity. }
  assert (Hnone : Xml.findall_descendants D "Placemark" = []).
  { rewrite Reread.findall_eq. unfold D, KML.
    cbn [Xml.descendants flat_map].
    change (h1 :: (Xml.descendants h1 ++ h2 :: (Xml.descendants h2 ++
              flat_map (fun c => c :: Xml.descendants c) pms)))%list
      with ((h1 :: Xml.descendants h1) ++ (h2 :: Xml.descendants h2) ++
              flat_map (fun c => c :: Xml.descendants c) pms)%list.
    rewrite !filter_app, F1, F2, F3. reflexivity. }
  apply Run.main_process_raises; [exact Ha' |].
  rewrite (RunFacts.process_kml_header E' _ _ _ _ _ doc D h1 h2 Hr'
             ltac:(unfold Xml.child; rewrite Hfind; reflexivity) C1 C2).
  rewrite Hnone. reflexivity.
Qed.

Lemma output_not_reprocessed_witness :
  main (Sample.world
          (match written (main (Sample.world Sample.track_one) Sample.defaults) with
           | Some doc => doc
           | None => Sample.track_one
           end)) Sample.defaults
  = [Opened "track"; Printed (ProcessingError KeyError)].
Proof.
  assert (H : exists doc,
             written (main (Sample.world Sample.track_one) Sample.defaults)
             = Some doc)
    by (vm_compute; eexists; reflexivity).
  destruct H as (doc & H). rewrite H.
  apply (output_not_reprocessed (Sample.world Sample.track_one) (Sample.world doc)
           Sample.defaults Sample.defaults doc Sample.track_one
           (Sample.el "Document" [] None
              [Sample.el "name" [] (Some "Track") [];
               Sample.el "description" [] (Some "Points: 2/2") [];
               Sample.placemark [("id", "7")] "12.5,45.6,100" Sample.reading])
           (Sample.el "name" [] (Some "Track") [])
           (Sample.el "description" [] (Some "Points: 2/2") []) H);
    reflexivity.
Defined.

Module Reversed.
Import Round RoundOrder RoundBounds FloatFacts Clamp Normalize.

Lemma range_negative lo hi :
  F.valid lo = true -> F.valid hi = true -> F.ltb hi lo = true ->
  F.is_finite (F.sub hi lo) = true ->
  exists md ed, F.sub hi lo = S754_finite true md ed.
Proof.
  intros Vlo Vhi Hlt Hfin. destruct (bounds_finite lo hi Hfin) as [Fh Fl].
  destruct (sub_lt_negative hi lo Vhi Vlo Fh Fl Hlt) as [(m & e & H) | H].
  - eauto.
  - rewrite H in Hfin. discriminate.
Qed.

Lemma difference_not_nan v lo :
  F.is_nan v = false -> F.is_finite lo = true -> F.is_nan (F.sub v lo) = false.
Proof.
  intros Nv Fl. destruct (F.is_finite v) eqn:Fv.
  - now apply sub_not_nan.
  - destruct v as [s | s | | s m e]; try discriminate.
    destruct lo as [sl | sl | | sl ml el]; try discriminate; reflexivity.
Qed.

Lemma at_or_above_is_zero lo v md ed :
  F.valid lo = true -> F.valid v = true -> F.is_finite lo = true ->
  F.leb lo v = true ->
  num_eq (clamp (F.div (F.sub v lo) (S754_finite true md ed))) (VInt 0) = true.
Proof.
  intros Vlo Vv Fl Hle. destruct (F.is_finite v) eqn:Fv.
  - apply leb_cases in Hle as [Hl | He].
    + apply clamp_negative.
      destruct (sub_gt_positive v lo Vv Vlo Fv Fl Hl) as [(m & e & ->) | ->].
      * apply (div_finite_signed false m e true md ed).
      * right. right. reflexivity.
    + pose proof (sub_eq_zero lo v Fl He) as Hz.
      destruct (F.sub v lo) as [s | | |]; try discriminate. apply clamp_zero.
  - destruct v as [s | s | | s m e]; try discriminate.
    + destruct s.
      * destruct lo as [sl | sl | | sl ml el]; try discriminate;
          destruct sl; discriminate.
      * destruct lo as [sl | sl | | sl ml el]; try discriminate; reflexivity.
    + destruct lo; discriminate.
Qed.

Lemma at_other_bound_is_one lo hi v md ed :
  F.is_finite lo = true -> F.ltb hi lo = true ->
  F.sub hi lo = S754_finite true md ed ->
  F.eqb v hi = true ->
  clamp (F.div (F.sub v lo) (F.sub hi lo)) = VFloat F.one.
Proof.
  intros Fl Hlt Hr He.
  assert (Hs : F.sub v lo = F.sub hi lo).
  { apply eqb_cases in He as [[Zv Zh] | ->]; [| reflexivity].
    destruct hi as [sh | | |]; try discriminate.
    destruct v as [sv | | |]; try discriminate.
    destruct lo as [sl | sl | | sl ml el]; try discriminate.
    reflexivity. }
  rewrite Hs, Hr, div_self. reflexivity.
Qed.

End Reversed.

(** ** Bounds the wrong way round *)

(** X18. Bounds given the wrong way round, [max < min], are not refused:
    for a finite difference and a dose rate that is a number the
    normalization still returns a number of the unit interval, with the
    scale turned over: zero for a dose rate at or above [min_val] and one
    for a dose rate equal to [max_val]. *)
Theorem normalize_reversed_bounds (min_val max_val v : F.float) :
  F.valid min_val = true -> F.valid max_val = true -> F.valid v = true ->
  F.is_nan v = false ->
  F.ltb max_val min_val = true ->
  F.is_finite (F.sub max_val min_val) = true ->
  exists r,
    normalize min_val max_val (VFloat v) = Ok r /\
    in_unit r = true /\
    (F.leb min_val v = true -> num_eq r (VInt 0) = true) /\
    (F.eqb v max_val = true -> num_eq r (VInt 1) = true).
Proof.
  intros Vlo Vhi Vv Nv Hlt Hfin.
  destruct (Normalize.bounds_finite _ _ Hfin) as [Fh Fl].
  destruct (Reversed.range_negative _ _ Vlo Vhi Hlt Hfin) as (md & ed & Hr).
  exists (clamp (F.div (F.sub v min_val) (F.sub max_val min_val))).
  split; [apply Normalize.normalize_eq; now rewrite Hr |].
  split.
  - apply Clamp.clamp_in_unit. rewrite Hr. apply Normalize.div_not_nan.
    now apply Reversed.difference_not_nan.
  - split; intros H.
    + rewrite Hr. now apply Reversed.at_or_above_is_zero.
    + now rewrite (Reversed.at_other_bound_is_one _ _ _ md ed Fl Hlt Hr H).
Qed.

Lemma normalize_reversed_bounds_witness :
  exists r,
    normalize (F.of_decimal false 5 (-1)) (F.of_decimal false 5 (-2))
      (VFloat (F.of_decimal false 15 (-2))) = Ok r /\
    in_unit r = true /\
    (F.leb (F.of_decimal false 5 (-1)) (F.of_decimal false 15 (-2)) = true ->
     num_eq r (VInt 0) = true) /\
    (F.eqb (F.of_decimal false 15 (-2)) (F.of_decimal false 5 (-2)) = true ->
     num_eq r (VInt 1) = true).
Proof.
  apply (normalize_reversed_bounds (F.of_decimal false 5 (-1))
           (F.of_decimal false 5 (-2)) (F.of_decimal false 15 (-2)));
    vm_compute; reflexivity.
Defined.
